(** * Developer Guides MCP: document pipeline and hybrid search

    A shallow embedding of the guide processing pipeline
    ([src/guide-processor/index.ts] and [docs/guide-processor.ts]), of the
    hybrid search service ([GuideSearchService]) and of the worker's
    [get_guide] tool and FTS5 query sanitizer, with the properties the
    specification states about them; then of the statements the searches
    prepare, of the worker's routes [get_related_guides] and
    [propose_guide_change] and of the webhook that syncs the service
    registry, with further properties read off the sources.

    Conventions.  A JavaScript string is a [string]: one [ascii] per
    UTF-16 code unit, restricted to code units below 256.  A JavaScript
    number used as a score is a double, given by its value, a rational
    number ([Q]); products and differences of scores are rounded to the
    nearest double ([JsNumber]).  Counters and line numbers are [nat]; a
    request's [limit] is an integer ([Z]).  The
    stores are finite maps keyed by primary key ([gmap]), the full-text
    table is a list of rows (it has no key and admits duplicates). *)

From Stdlib Require Import String Ascii List ZArith QArith Qabs Lia Lqa Bool.
From Stdlib Require Import Sorting.Sorted Permutation.
From Stdlib Require SpecFloat.
From stdpp Require Import gmap strings list pretty.
Import ListNotations.
Local Open Scope string_scope.
Local Open Scope list_scope.
#[local] Arguments String.append !_ _ / : simpl nomatch.

(** ** JavaScript string primitives *)

Module JsString.

Definition LF : ascii := "010"%char.
Definition DQ : ascii := "034"%char.
Definition nl : string := String LF "".

(** [\s] of a regular expression, and the characters [trim] strips:
    TAB, LF, VT, FF, CR, SPACE and NBSP. *)
Definition is_space (c : ascii) : bool :=
  match c with
  | "009" | "010" | "011" | "012" | "013" | " " | "160" => true
  | _ => false
  end%char.

(** [.] of a regular expression (no [s] flag): anything but LF and CR. *)
Definition is_dot (c : ascii) : bool :=
  match c with
  | "010" | "013" => false
  | _ => true
  end%char.

(** [\w] of a regular expression: [A-Za-z0-9_]. *)
Definition is_word (c : ascii) : bool :=
  let n := N_of_ascii c in
  ((48 <=? n) && (n <=? 57) || (65 <=? n) && (n <=? 90)
   || (97 <=? n) && (n <=? 122) || (n =? 95))%N.

Definition is_lower_alnum (c : ascii) : bool :=
  let n := N_of_ascii c in
  ((48 <=? n) && (n <=? 57) || (97 <=? n) && (n <=? 122))%N.

(** [String.prototype.toLowerCase] on one code unit below 256. *)
Definition toLowerChar (c : ascii) : ascii :=
  let n := N_of_ascii c in
  if ((65 <=? n) && (n <=? 90)
      || (192 <=? n) && (n <=? 222) && negb (n =? 215))%N
  then ascii_of_N (n + 32) else c.

(** Case folding of a regular expression with the [i] flag (no [u]
    flag): an ASCII letter is compared by its upper case; no character
    outside ASCII folds onto an ASCII one. *)
Definition canonicalize (c : ascii) : ascii :=
  let n := N_of_ascii c in
  if ((97 <=? n) && (n <=? 122))%N then ascii_of_N (n - 32) else c.

Fixpoint map_chars (f : ascii -> ascii) (s : string) : string :=
  match s with
  | "" => ""
  | String c s' => String (f c) (map_chars f s')
  end.

Definition toLowerCase (s : string) : string := map_chars toLowerChar s.

Fixpoint existsb_char (p : ascii -> bool) (s : string) : bool :=
  match s with
  | "" => false
  | String c s' => p c || existsb_char p s'
  end.

Fixpoint forallb_char (p : ascii -> bool) (s : string) : bool :=
  match s with
  | "" => true
  | String c s' => p c && forallb_char p s'
  end.

(** [s.startsWith(p)] *)
Fixpoint startsWith (p s : string) : bool :=
  match p, s with
  | "", _ => true
  | String a p', String b s' => if Ascii.eqb a b then startsWith p' s' else false
  | String _ _, "" => false
  end.

(** [s.slice(n)] *)
Fixpoint string_drop (n : nat) (s : string) : string :=
  match n, s with
  | O, _ => s
  | S n', String _ s' => string_drop n' s'
  | S _, "" => ""
  end.

(** [s.includes(p)] *)
Fixpoint includes (s p : string) : bool :=
  startsWith p s ||
  match s with
  | "" => false
  | String _ s' => includes s' p
  end.

(** [s.endsWith(p)], and [s] without its last [length p] characters. *)
Fixpoint drop_end (n : nat) (s : string) : string :=
  match s with
  | "" => ""
  | String c s' => if (String.length s' <? n)%nat then "" else String c (drop_end n s')
  end.

Fixpoint endsWith (s p : string) : bool :=
  String.eqb s p ||
  match s with
  | "" => false
  | String _ s' => endsWith s' p
  end.

(** [s.split(sep)] for a separator of one character: never empty; one
    empty piece for the empty string. *)
Fixpoint split_on (sep : ascii) (s : string) : list string :=
  match s with
  | "" => [""]
  | String c s' =>
      if Ascii.eqb c sep then "" :: split_on sep s'
      else match split_on sep s' with
           | h :: t => String c h :: t
           | [] => [String c ""]
           end
  end.

(** [s.split('\n')] *)
Definition split_lines (s : string) : list string := split_on LF s.

(** [s.split('\n\n')]: separators are found left to right and do not
    overlap. *)
Fixpoint split_paragraphs (s : string) : list string :=
  match s with
  | "" => [""]
  | String c s' =>
      match s' with
      | String d s'' =>
          if Ascii.eqb c LF && Ascii.eqb d LF then "" :: split_paragraphs s''
          else match split_paragraphs s' with
               | h :: t => String c h :: t
               | [] => [String c ""]
               end
      | "" => [String c ""]
      end
  end.

(** [s.split(/\s+/)]: the pieces between maximal runs of white space; a
    leading or trailing run yields an empty first or last piece.
    [in_gap] tells that the previous character was white space. *)
Fixpoint split_ws_go (in_gap : bool) (s : string) : list string :=
  match s with
  | "" => [""]
  | String c s' =>
      if is_space c then
        if in_gap then split_ws_go true s' else "" :: split_ws_go true s'
      else match split_ws_go false s' with
           | h :: t => String c h :: t
           | [] => [String c ""]
           end
  end.

Definition split_ws (s : string) : list string := split_ws_go false s.

(** [a.join(sep)] *)
Definition join (sep : string) (a : list string) : string := String.concat sep a.

(** [s.trim()] *)
Fixpoint trimStart (s : string) : string :=
  match s with
  | "" => ""
  | String c s' => if is_space c then trimStart s' else s
  end.

Fixpoint trimEnd (s : string) : string :=
  match s with
  | "" => ""
  | String c s' =>
      match trimEnd s' with
      | "" => if is_space c then "" else String c ""
      | r => String c r
      end
  end.

Definition trim (s : string) : string := trimEnd (trimStart s).

(** [s.replace(/\s+/g, r)]: every maximal run of white space becomes [r]. *)
Fixpoint replace_ws_go (r : string) (in_gap : bool) (s : string) : string :=
  match s with
  | "" => ""
  | String c s' =>
      if is_space c then
        if in_gap then replace_ws_go r true s' else r +:+ replace_ws_go r true s'
      else String c (replace_ws_go r false s')
  end.

Definition replace_ws (r s : string) : string := replace_ws_go r false s.

(** Decimal rendering of a number inside a template literal. *)
Definition num (n : nat) : string := pretty n.

(** A stable sort: [x] enters a sorted list in front of it and moves
    behind every element that [goes_before] it.  [Array.prototype.sort]
    is stable, and so is this insertion sort; for a comparator that is a
    total preorder the result of a stable sort is unique. *)
Section StableSort.
Context {A : Type} (goes_before : A -> A -> bool).

Fixpoint insert_sorted (x : A) (l : list A) : list A :=
  match l with
  | [] => [x]
  | y :: l' => if goes_before y x then y :: insert_sorted x l' else x :: l
  end.

Definition stable_sort (l : list A) : list A := foldr insert_sorted [] l.

End StableSort.

(** [a.sort(compareFn)]: [b] goes before [a] when [compareFn(a, b) > 0]. *)
Definition sort {A : Type} (compareFn : A -> A -> Q) (a : list A) : list A :=
  stable_sort (fun y x => negb (Qle_bool (compareFn x y) 0)) a.

End JsString.
Import JsString.

(** ** JavaScript numbers *)

Module JsNumber.

(** A number is an IEEE 754 double.  A finite double is given by its
    value, [m * 2^e] with a mantissa [m] of at most 53 bits and
    [-1074 <= e]; the result of an operation is the double nearest to
    the exact result, ties going to the even mantissa. *)

(** Whether [2^l <= n / d]. *)
Definition at_least_pow2 (n d l : Z) : bool :=
  if (0 <=? l)%Z then (d * 2 ^ l <=? n)%Z else (d <=? n * 2 ^ (- l))%Z.

(** The exponent of the leading bit of [n / d], for positive [n] and [d]. *)
Definition ilog2 (n d : Z) : Z :=
  let l := (Z.log2 n - Z.log2 d)%Z in
  if at_least_pow2 n d l then l else (l - 1)%Z.

(** The integer nearest to [n / d], the even one of two that are
    equally near. *)
Definition nearest_even (n d : Z) : Z :=
  let q := (n / d)%Z in
  match (2 * (n mod d) ?= d)%Z with
  | Lt => q
  | Gt => (q + 1)%Z
  | Eq => if Z.even q then q else (q + 1)%Z
  end.

(** [Infinity] is given by [2^1024], which no finite double reaches: it
    compares with the finite doubles as [Infinity] does, and the
    difference of two of them is [0], which is how [sort] reads the
    [NaN] of [Infinity - Infinity]. *)
Definition infinity : Q := inject_Z (2 ^ 1024).

Definition overflow (x : Q) : Q := if Qle_bool infinity x then infinity else x.

(** The double nearest to [n / d], for positive [n] and [d]: the
    mantissa is [n / d] divided by [2^e] and rounded, with [e] such that
    it has 53 bits, or [e = -1074] for the subnormal numbers. *)
Definition round_pos (n d : Z) : Q :=
  let e := Z.max (ilog2 n d - 52) (-1074) in
  overflow
    (if (0 <=? e)%Z
     then inject_Z (nearest_even n (d * 2 ^ e) * 2 ^ e)
     else nearest_even (n * 2 ^ (- e)) d # Z.to_pos (2 ^ (- e))).

Definition round (x : Q) : Q :=
  match Qnum x with
  | Z0 => 0
  | Zpos n => round_pos (Zpos n) (Zpos (Qden x))
  | Zneg n => - round_pos (Zpos n) (Zpos (Qden x))
  end.

(** [x * y] and [x - y] on numbers. *)
Definition times (x y : Q) : Q := round (x * y).
Definition minus (x y : Q) : Q := round (x - y).

(** [2^e] *)
Definition pow2 (e : Z) : Q :=
  if (0 <=? e)%Z then inject_Z (2 ^ e) else 1 # Z.to_pos (2 ^ (- e)).

(** The values of the finite doubles. *)
Definition finite (x : Q) : Prop :=
  exists m e : Z, (Z.abs m < 2 ^ 53)%Z /\ (-1074 <= e <= 971)%Z /\ x == inject_Z m * pow2 e.

End JsNumber.

(** ** The worker: FTS5 query sanitizer ([sanitizeFtsQuery]) *)

Module Worker.

(** The character class of the first test: hyphen, asterisk, the two
    parentheses and the double quote (code unit 34). *)
Definition is_fts_special (c : ascii) : bool :=
  match c with
  | "-" | "*" | "(" | ")" | "034" => true
  | _ => false
  end%char.

Definition has_fts_special (term : string) : bool := existsb_char is_fts_special term.

(** [/^(AND|OR|NOT)$/i.test(term)] *)
Definition is_fts_keyword (term : string) : bool :=
  let u := map_chars canonicalize term in
  String.eqb u "AND" || String.eqb u "OR" || String.eqb u "NOT".

(** The [replace] with the [g] flag: every double quote is doubled. *)
Fixpoint double_quotes (term : string) : string :=
  match term with
  | "" => ""
  | String c s' =>
      if Ascii.eqb c DQ then String DQ (String DQ (double_quotes s'))
      else String c (double_quotes s')
  end.

Definition sanitizeTerm (term : string) : string :=
  if has_fts_special term || is_fts_keyword term
  then String DQ (double_quotes term +:+ String DQ "")
  else term.

Definition sanitizeFtsQuery (query : string) : string :=
  join " " (map sanitizeTerm (split_ws query)).

End Worker.

(** ** Regular expressions of the sources, as backtracking matchers

    Each matcher takes the continuation [k] of the pattern that follows it
    and tries its alternatives in the order of the JavaScript engine, so
    the first success is the engine's match. *)

Module Regex.

Section Matchers.
Context {R : Type}.

(** [([\s\S]*?)sep] followed by [k]: the shortest prefix first.  The
    result pairs the captured prefix with the result of [k]. *)
Fixpoint lazy_any_until (sep : string) (k : string -> option R) (s : string)
  : option (string * R) :=
  match (if startsWith sep s then k (string_drop (String.length sep) s) else None) with
  | Some r => Some ("", r)
  | None =>
      match s with
      | "" => None
      | String c s' =>
          match lazy_any_until sep k s' with
          | Some (f, r) => Some (String c f, r)
          | None => None
          end
      end
  end.

(** [\s*\n] followed by [k]: the longest run of white space first, then
    shorter ones; the character after the run must be a line feed. *)
Fixpoint greedy_ws_then_lf (k : string -> option R) (s : string) : option R :=
  match s with
  | "" => None
  | String c s' =>
      if is_space c then
        match greedy_ws_then_lf k s' with
        | Some r => Some r
        | None => if Ascii.eqb c LF then k s' else None
        end
      else None
  end.

(** [\s+] followed by [k]: at least one white space, the longest run
    first. *)
Fixpoint greedy_ws_plus (k : string -> option R) (s : string) : option R :=
  match s with
  | "" => None
  | String c s' =>
      if is_space c then
        match greedy_ws_plus k s' with
        | Some r => Some r
        | None => k s'
        end
      else None
  end.

End Matchers.

(** The number of leading [#] of a line and the rest of the line. *)
Fixpoint leading_hashes (s : string) : nat * string :=
  match s with
  | String "#" s' => let '(n, r) := leading_hashes s' in (S n, r)
  | _ => (0, s)
  end.

(** [(.+)$]: the rest of the string, not empty, without line terminator. *)
Definition dots_to_end (s : string) : option string :=
  match s with
  | "" => None
  | _ => if forallb_char is_dot s then Some s else None
  end.

(** [line.match(/^(#{1,6})\s+(.+)$/)]: the level (length of the run of
    [#]) and the title.  After a run of more than six [#], or a run not
    followed by white space, no shorter run can match either, since the
    next character is then a [#] or not a white space. *)
Definition headerMatch (line : string) : option (nat * string) :=
  let '(n, rest) := leading_hashes line in
  if (1 <=? n)%nat && (n <=? 6)%nat then
    match greedy_ws_plus dots_to_end rest with
    | Some title => Some (n, title)
    | None => None
    end
  else None.

End Regex.
Import Regex.

(** ** The three stores

    D1 tables hold one row per primary key; [guides_fts] is an FTS5
    virtual table without key.  Columns are those the sources write
    (schema [D1_SCHEMA] of [docs/guide-processor.ts]); a nullable column
    is an [option]. *)

Module D1.

Record GuideRow := {
  g_id : string;
  g_title : string;
  g_category : string;
  g_subcategory : option string;
  g_type : string;
  g_status : string;
  g_version : string;
  g_last_updated : string;
  g_tags : string;
  g_related_guides : option string;
  g_markdown_url : string
}.

Record SectionRow := {
  s_id : string;
  s_guide_id : string;
  s_level : nat;
  s_title : string;
  s_content : string;
  s_start_line : nat;
  s_end_line : nat
}.

Record CodeExampleRow := {
  e_id : string;
  e_guide_id : string;
  e_section_id : string;
  e_language : string;
  e_code : string;
  e_caption : option string
}.

Record FtsRow := {
  f_guide_id : string;
  f_title : string;
  f_content : string;
  f_tags : string
}.

Record Database := {
  guides : gmap string GuideRow;
  sections : gmap string SectionRow;
  code_examples : gmap string CodeExampleRow;
  guides_fts : list FtsRow
}.

Definition empty : Database :=
  {| guides := ∅; sections := ∅; code_examples := ∅; guides_fts := [] |}.

Definition set_guides (f : gmap string GuideRow -> gmap string GuideRow) (db : Database) :=
  {| guides := f (guides db); sections := sections db;
     code_examples := code_examples db; guides_fts := guides_fts db |}.

Definition set_sections (f : gmap string SectionRow -> gmap string SectionRow) (db : Database) :=
  {| guides := guides db; sections := f (sections db);
     code_examples := code_examples db; guides_fts := guides_fts db |}.

Definition set_code_examples
  (f : gmap string CodeExampleRow -> gmap string CodeExampleRow) (db : Database) :=
  {| guides := guides db; sections := sections db;
     code_examples := f (code_examples db); guides_fts := guides_fts db |}.

Definition set_guides_fts (f : list FtsRow -> list FtsRow) (db : Database) :=
  {| guides := guides db; sections := sections db;
     code_examples := code_examples db; guides_fts := f (guides_fts db) |}.

(** [DELETE FROM guides_fts WHERE guide_id = ?] *)
Definition fts_delete (guide_id : string) (rows : list FtsRow) : list FtsRow :=
  List.filter (fun r => negb (String.eqb (f_guide_id r) guide_id)) rows.

(** [INSERT INTO guides_fts ...] *)
Definition fts_insert (row : FtsRow) (rows : list FtsRow) : list FtsRow :=
  rows ++ [row].

End D1.

Module R2.

Record Object := {
  body : string;
  contentType : string;
  cacheControl : option string;
  customMetadata : list (string * string)
}.

Abbreviation Bucket := (gmap string Object).

(** [r2.put(key, value, options)] *)
Definition put (key : string) (o : Object) (b : Bucket) : Bucket := <[key := o]> b.

End R2.

(** What a [catch] clause receives. *)
Inductive Exception :=
  | Error (message : string)
  | YamlParseError
  | TypeError
  | ConstraintError (table key : string).

(** A line written by [console.log] or [console.error] (without the
    check mark some lines start with, a code unit above 255). *)
Inductive Console :=
  | Log (line : string)
  | ErrorLog (line : string) (e : Exception).

Module Vectorize.

Record ChunkMetadata := {
  cm_category : option string;
  cm_subcategory : option string;
  cm_framework : option string;
  cm_language : option string;
  cm_tags : list string
}.

(** A vector as [GuideUploader.vectorize] submits it; the index derives
    the embedding from [values]. *)
Record Vector := {
  v_namespace : string;
  v_values : string;
  v_text : string;
  v_metadata : ChunkMetadata
}.

Abbreviation Index := (gmap string Vector).

(** [index.insert(vectors)]: a vector whose id is already in the index
    is left as it is. *)
Definition insert_one (idx : Index) (iv : string * Vector) : Index :=
  match idx !! iv.1 with
  | Some _ => idx
  | None => <[iv.1 := iv.2]> idx
  end.

Definition insert (vectors : list (string * Vector)) (idx : Index) : Index :=
  fold_left insert_one vectors idx.

End Vectorize.

(** ** Effects: a state, a console and exceptions

    A computation over the state [S] returns the new state, the lines it
    wrote to the console and either the exception it threw or its
    value.  The state written before a [throw] stays written: none of
    the sources opens a transaction. *)

Module Eff.

Definition M (St A : Type) : Type := St -> St * list Console * (Exception + A).

Definition ret {St A} (a : A) : M St A := fun s => (s, [], inr a).

Definition bind {St A B} (m : M St A) (f : A -> M St B) : M St B :=
  fun s =>
    match m s with
    | (s1, out1, inl e) => (s1, out1, inl e)
    | (s1, out1, inr a) =>
        match f a s1 with
        | (s2, out2, r) => (s2, out1 ++ out2, r)
        end
    end.

Definition throw {St A} (e : Exception) : M St A := fun s => (s, [], inl e).

Definition console {St} (c : Console) : M St unit := fun s => (s, [c], inr tt).

Definition get {St} : M St St := fun s => (s, [], inr s).

Definition modify {St} (f : St -> St) : M St unit := fun s => (f s, [], inr tt).

(** [try { m } catch (error) { h(error) }] *)
Definition try_catch {St A} (m : M St A) (h : Exception -> M St A) : M St A :=
  fun s =>
    match m s with
    | (s1, out1, inl e) =>
        match h e s1 with
        | (s2, out2, r) => (s2, out1 ++ out2, r)
        end
    | (s1, out1, inr a) => (s1, out1, inr a)
    end.

(** [for (const x of xs) { body(x) }] *)
Fixpoint for_each {St A} (xs : list A) (body : A -> M St unit) : M St unit :=
  match xs with
  | [] => ret tt
  | x :: rest => bind (body x) (fun _ => for_each rest body)
  end.

(** The same loop with the index of the element. *)
Fixpoint for_each_i {St A} (i : nat) (xs : list A) (body : nat -> A -> M St unit)
  : M St unit :=
  match xs with
  | [] => ret tt
  | x :: rest => bind (body i x) (fun _ => for_each_i (S i) rest body)
  end.

Definition state_of {St A} (r : St * list Console * (Exception + A)) : St := r.1.1.
Definition output_of {St A} (r : St * list Console * (Exception + A)) : list Console := r.1.2.
Definition result_of {St A} (r : St * list Console * (Exception + A)) : Exception + A := r.2.

End Eff.

Notation "x <- m ;; k" := (Eff.bind m (fun x => k))
  (at level 100, m at next level, right associativity).
Notation "m ;;; k" := (Eff.bind m (fun _ => k))
  (at level 100, right associativity).

(** ** [docs/guide-processor.ts]: [GuideParser], [GuideUploader] *)

Module GuideProcessorDocs.

Inductive StringOrArray :=
  | OneString (s : string)
  | ArrayOf (l : list string).

(** The object [parse(frontmatter)] of the [yaml] package returns, read
    at the properties [parseMetadata] uses. *)
Record ParsedYaml := {
  y_id : string;
  y_title : string;
  y_category : StringOrArray;
  y_subcategory : option string;
  y_type : string;
  y_status : string;
  y_version : string;
  y_last_updated : string;
  y_languages : option (list string);
  y_frameworks : option (list string);
  y_platforms : option (list string);
  y_tags : option (list string);
  y_related_guides : option (list string)
}.

Record GuideMetadata := {
  id : string;
  title : string;
  category : list string;
  subcategory : option string;
  type : string;
  status : string;
  version : string;
  last_updated : string;
  languages : option (list string);
  frameworks : option (list string);
  platforms : option (list string);
  tags : list string;
  related_guides : list string
}.

Record CodeBlock := {
  language : string;
  code : string;
  caption : option string
}.

Record Section := {
  sec_id : string;
  level : nat;
  sec_title : string;
  content : string;
  codeBlocks : list CodeBlock;
  startLine : nat;
  endLine : nat
}.

Record Chunk := {
  chunk_id : string;
  guideId : string;
  sectionId : string;
  text : string;
  tokens : nat;
  metadata : Vectorize.ChunkMetadata
}.

Record ProcessedGuide := {
  pg_metadata : GuideMetadata;
  pg_sections : list Section;
  pg_chunks : list Chunk;
  pg_codeExamples : list CodeBlock;
  pg_markdown : string
}.

(** *** [GuideParser] *)

(** [markdown.match(/^---\n([\s\S]+?)\n---\n([\s\S]+)$/)]: the groups
    [(frontmatter, content)].  Both groups take at least one character. *)
Definition extractFrontmatter (markdown : string) : Exception + (string * string) :=
  let no_match := inl (Error "No frontmatter found in markdown") in
  if startsWith ("---" +:+ nl) markdown then
    match string_drop 4 markdown with
    | "" => no_match
    | String c rest =>
        match lazy_any_until (nl +:+ "---" +:+ nl)
                (fun r => match r with "" => None | _ => Some r end) rest with
        | Some (f, body) => inr (String c f, body)
        | None => no_match
        end
    end
  else no_match.

Definition parseMetadata (parsed : ParsedYaml) : GuideMetadata :=
  {| id := y_id parsed;
     title := y_title parsed;
     category := match y_category parsed with
                 | ArrayOf l => l
                 | OneString s => [s]
                 end;
     subcategory := y_subcategory parsed;
     type := y_type parsed;
     status := y_status parsed;
     version := y_version parsed;
     last_updated := y_last_updated parsed;
     languages := y_languages parsed;
     frameworks := y_frameworks parsed;
     platforms := y_platforms parsed;
     tags := default [] (y_tags parsed);
     related_guides := default [] (y_related_guides parsed) |}.

(** [generateSectionId]: lower case, every run of characters outside
    [a-z0-9] becomes one hyphen, then one leading and one trailing hyphen
    are removed. *)
Fixpoint hyphenate_go (in_run : bool) (s : string) : string :=
  match s with
  | "" => ""
  | String c s' =>
      if is_lower_alnum c then String c (hyphenate_go false s')
      else if in_run then hyphenate_go true s'
      else String "-" (hyphenate_go true s')
  end.

Definition strip_leading_hyphen (s : string) : string :=
  match s with
  | String "-" s' => s'
  | _ => s
  end.

Fixpoint strip_trailing_hyphen (s : string) : string :=
  match s with
  | "" => ""
  | String c s' =>
      match s' with
      | "" => if Ascii.eqb c "-" then "" else s
      | _ => String c (strip_trailing_hyphen s')
      end
  end.

Definition generateSectionId (title : string) : string :=
  strip_trailing_hyphen (strip_leading_hyphen (hyphenate_go false (toLowerCase title))).

(** [estimateTokens]: [Math.ceil(text.length / 4)] *)
Definition estimateTokens (text : string) : nat := (String.length text + 3) / 4.

Definition find_included (candidates : list string) (content : string) : option string :=
  List.find (fun w => includes (toLowerCase content) w) candidates.

Definition detectFramework (content : string) : option string :=
  find_included ["qwik"; "react"; "vue"; "angular"; "svelte"] content.

Definition detectLanguage (content : string) : option string :=
  find_included ["typescript"; "javascript"; "python"; "go"; "sql"] content.

(** [extractCodeBlock(lines, startIndex)]: [startLine] is
    [lines[startIndex]] and [rest] the lines after it.  The language is
    the group of [/^```(\w+)/]. *)
Fixpoint take_word (s : string) : string :=
  match s with
  | "" => ""
  | String c s' => if is_word c then String c (take_word s') else ""
  end.

Fixpoint take_until_fence (lines : list string) : list string :=
  match lines with
  | [] => []
  | l :: rest => if startsWith "```" l then [] else l :: take_until_fence rest
  end.

Definition extractCodeBlock (startLine : string) (rest : list string) : option CodeBlock :=
  if startsWith "```" startLine then
    match take_word (string_drop 3 startLine) with
    | "" => None
    | lang => Some {| language := lang;
                      code := join nl (take_until_fence rest);
                      caption := None |}
    end
  else None.

(** The section under construction ([currentSection]). *)
Record PartialSection := {
  p_id : string;
  p_level : nat;
  p_title : string;
  p_startLine : nat
}.

Definition closeSection (cur : PartialSection) (sectionContent : list string)
  (sectionCodeBlocks : list CodeBlock) (endLine : nat) : Section :=
  {| sec_id := p_id cur; level := p_level cur; sec_title := p_title cur;
     content := trim (join nl sectionContent);
     codeBlocks := sectionCodeBlocks;
     startLine := p_startLine cur;
     endLine := endLine |}.

Definition saveSection (sections : list Section) (cur : option PartialSection)
  (sectionContent : list string) (sectionCodeBlocks : list CodeBlock) (endLine : nat)
  : list Section :=
  match cur with
  | Some c => sections ++ [closeSection c sectionContent sectionCodeBlocks endLine]
  | None => sections
  end.

(** The loop of [extractSections] from index [i] on; [lines] are the
    lines from [i] on. *)
Fixpoint extractSections_loop (i : nat) (lines : list string)
  (sections : list Section) (currentSection : option PartialSection)
  (sectionContent : list string) (sectionCodeBlocks : list CodeBlock) : list Section :=
  match lines with
  | [] => saveSection sections currentSection sectionContent sectionCodeBlocks (i - 1)
  | line :: rest =>
      match headerMatch line with
      | Some (lvl, ttl) =>
          extractSections_loop (S i) rest
            (saveSection sections currentSection sectionContent sectionCodeBlocks (i - 1))
            (Some {| p_id := generateSectionId ttl; p_level := lvl;
                     p_title := ttl; p_startLine := i |})
            [] []
      | None =>
          extractSections_loop (S i) rest sections currentSection
            (sectionContent ++ [line])
            (if startsWith "```" line then
               match extractCodeBlock line rest with
               | Some b => sectionCodeBlocks ++ [b]
               | None => sectionCodeBlocks
               end
             else sectionCodeBlocks)
      end
  end.

Definition extractSections (content : string) : list Section :=
  extractSections_loop 0 (split_lines content) [] None [] [].

Definition extractCodeExamples (sections : list Section) : list CodeBlock :=
  flat_map codeBlocks sections.

Definition MAX_CHUNK_TOKENS : nat := 1000.

Definition chunkMetadata (m : GuideMetadata) (section : Section)
  : Vectorize.ChunkMetadata :=
  {| Vectorize.cm_category := head (category m);
     Vectorize.cm_subcategory := subcategory m;
     Vectorize.cm_framework := detectFramework (content section);
     Vectorize.cm_language := detectLanguage (content section);
     Vectorize.cm_tags := tags m |}.

Definition mkChunk (m : GuideMetadata) (section : Section) (cid : string)
  (txt : string) : Chunk :=
  {| chunk_id := cid; guideId := id m; sectionId := sec_id section;
     text := txt; tokens := estimateTokens txt;
     metadata := chunkMetadata m section |}.

Definition blank : string := nl +:+ nl.

(** The first three entries of [currentChunk]. *)
Definition firstHeader (m : GuideMetadata) (section : Section) : list string :=
  ["# " +:+ title m; "Section: " +:+ sec_title section; ""].

Definition continuedHeader (m : GuideMetadata) (section : Section) : list string :=
  ["# " +:+ title m; "Section: " +:+ sec_title section +:+ " (continued)"; ""].

(** The loop of [splitLargeSection] over the paragraphs still to visit. *)
Fixpoint splitLargeSection_loop (m : GuideMetadata) (section : Section)
  (paragraphs : list string) (chunks : list Chunk) (currentChunk : list string)
  (chunkIndex : nat) : list Chunk * list string * nat :=
  match paragraphs with
  | [] => (chunks, currentChunk, chunkIndex)
  | paragraph :: rest =>
      let testChunk := join blank (currentChunk ++ [paragraph]) in
      if (MAX_CHUNK_TOKENS <? estimateTokens testChunk)%nat then
        splitLargeSection_loop m section rest
          (chunks ++ [mkChunk m section
                        (id m +:+ "-" +:+ sec_id section +:+ "-" +:+ num chunkIndex)
                        (join blank currentChunk)])
          (continuedHeader m section ++ [paragraph])
          (S chunkIndex)
      else
        splitLargeSection_loop m section rest chunks (currentChunk ++ [paragraph]) chunkIndex
  end.

Definition splitLargeSection (m : GuideMetadata) (section : Section) : list Chunk :=
  let '(chunks, currentChunk, chunkIndex) :=
    splitLargeSection_loop m section (split_paragraphs (content section)) []
      (firstHeader m section) 0 in
  if (3 <? List.length currentChunk)%nat then
    chunks ++ [mkChunk m section
                 (id m +:+ "-" +:+ sec_id section +:+ "-" +:+ num chunkIndex)
                 (join blank currentChunk)]
  else chunks.

(** The text of the candidate chunk of a whole section. *)
Definition chunkText (m : GuideMetadata) (section : Section) : string :=
  join nl ["# " +:+ title m;
           "Category: " +:+ join ", " (category m);
           "Section: " +:+ sec_title section;
           "";
           content section].

Definition createChunks_section (m : GuideMetadata) (section : Section) : list Chunk :=
  if (String.length (content section) <? 100)%nat then []
  else if (MAX_CHUNK_TOKENS <? estimateTokens (chunkText m section))%nat
  then splitLargeSection m section
  else [mkChunk m section (id m +:+ "-" +:+ sec_id section) (chunkText m section)].

Definition createChunks (m : GuideMetadata) (sections : list Section) : list Chunk :=
  flat_map (createChunks_section m) sections.

(** *** [GuideUploader] and [processAndUploadGuides] *)

(** The bindings of [UploadConfig], as the contents of the stores. *)
Record UploadConfig := {
  r2 : R2.Bucket;
  db : D1.Database;
  vectorize : Vectorize.Index
}.

Definition set_r2 (f : R2.Bucket -> R2.Bucket) (c : UploadConfig) : UploadConfig :=
  {| r2 := f (r2 c); db := db c; vectorize := vectorize c |}.

Definition set_db (f : D1.Database -> D1.Database) (c : UploadConfig) : UploadConfig :=
  {| r2 := r2 c; db := f (db c); vectorize := vectorize c |}.

Definition set_vectorize (f : Vectorize.Index -> Vectorize.Index) (c : UploadConfig)
  : UploadConfig :=
  {| r2 := r2 c; db := db c; vectorize := f (vectorize c) |}.

Record GuideFile := {
  name : string;
  file_content : string
}.

Section Environment.

(** [parse] of the [yaml] package on a frontmatter: [None] when it
    throws, or returns a value without properties, on which
    [parseMetadata] throws. *)
Variable yaml_parse : string -> option ParsedYaml.

(** Whether the database enforces the [FOREIGN KEY] clauses of the
    schema. *)
Variable foreign_keys : bool.

Definition parse (markdown : string) : Exception + ProcessedGuide :=
  match extractFrontmatter markdown with
  | inl e => inl e
  | inr (frontmatter, body) =>
      match yaml_parse frontmatter with
      | None => inl YamlParseError
      | Some parsed =>
          let m := parseMetadata parsed in
          let sections := extractSections body in
          inr {| pg_metadata := m;
                 pg_sections := sections;
                 pg_chunks := createChunks m sections;
                 pg_codeExamples := extractCodeExamples sections;
                 pg_markdown := markdown |}
      end
  end.

Definition lift {A} (r : Exception + A) : Eff.M UploadConfig A :=
  match r with
  | inl e => Eff.throw e
  | inr a => Eff.ret a
  end.

Definition uploadToR2 (guide : ProcessedGuide) : Eff.M UploadConfig unit :=
  let m := pg_metadata guide in
  let key := "guides/" +:+ id m +:+ ".md" in
  Eff.modify (set_r2 (R2.put key
    {| R2.body := pg_markdown guide;
       R2.contentType := "text/markdown";
       R2.cacheControl := Some "public, max-age=3600";
       R2.customMetadata := [("guideId", id m); ("version", version m);
                             ("lastUpdated", last_updated m)] |})) ;;;
  Eff.console (Log ("  Uploaded to R2: " +:+ key)).

(** [x || null] on a string *)
Definition or_null (x : string) : option string :=
  match x with
  | "" => None
  | _ => Some x
  end.

Definition guideRow (m : GuideMetadata) : D1.GuideRow :=
  {| D1.g_id := id m;
     D1.g_title := title m;
     D1.g_category := join "," (category m);
     D1.g_subcategory := match subcategory m with
                         | Some x => or_null x
                         | None => None
                         end;
     D1.g_type := type m;
     D1.g_status := status m;
     D1.g_version := version m;
     D1.g_last_updated := last_updated m;
     D1.g_tags := join "," (tags m);
     D1.g_related_guides := or_null (join "," (related_guides m));
     D1.g_markdown_url := "guides/" +:+ id m +:+ ".md" |}.

Definition sectionRow (m : GuideMetadata) (section : Section) : D1.SectionRow :=
  {| D1.s_id := id m +:+ "-" +:+ sec_id section;
     D1.s_guide_id := id m;
     D1.s_level := level section;
     D1.s_title := sec_title section;
     D1.s_content := content section;
     D1.s_start_line := startLine section;
     D1.s_end_line := endLine section |}.

Definition codeExampleRow (m : GuideMetadata) (i : nat) (example : CodeBlock)
  : D1.CodeExampleRow :=
  {| D1.e_id := id m +:+ "-code-" +:+ num i;
     D1.e_guide_id := id m;
     D1.e_section_id := "";
     D1.e_language := language example;
     D1.e_code := code example;
     D1.e_caption := match caption example with
                     | Some x => or_null x
                     | None => None
                     end |}.

Definition ftsRow (guide : ProcessedGuide) : D1.FtsRow :=
  let m := pg_metadata guide in
  {| D1.f_guide_id := id m;
     D1.f_title := title m;
     D1.f_content := join blank (map content (pg_sections guide));
     D1.f_tags := join " " (tags m) |}.

(** A plain [INSERT] into [guides]: the primary key must be new. *)
Definition insert_guide (row : D1.GuideRow) : Eff.M UploadConfig unit :=
  c <- Eff.get ;;
  match D1.guides (db c) !! D1.g_id row with
  | Some _ => Eff.throw (ConstraintError "guides" (D1.g_id row))
  | None => Eff.modify (set_db (D1.set_guides (insert (D1.g_id row) row)))
  end.

(** A plain [INSERT] into [sections]: new primary key, existing guide. *)
Definition insert_section (row : D1.SectionRow) : Eff.M UploadConfig unit :=
  c <- Eff.get ;;
  match D1.sections (db c) !! D1.s_id row with
  | Some _ => Eff.throw (ConstraintError "sections" (D1.s_id row))
  | None =>
      if foreign_keys && negb (bool_decide (is_Some (D1.guides (db c) !! D1.s_guide_id row)))
      then Eff.throw (ConstraintError "sections" (D1.s_guide_id row))
      else Eff.modify (set_db (D1.set_sections (insert (D1.s_id row) row)))
  end.

(** A plain [INSERT] into [code_examples]: new primary key, existing
    guide and section. *)
Definition insert_code_example (row : D1.CodeExampleRow) : Eff.M UploadConfig unit :=
  c <- Eff.get ;;
  match D1.code_examples (db c) !! D1.e_id row with
  | Some _ => Eff.throw (ConstraintError "code_examples" (D1.e_id row))
  | None =>
      if foreign_keys &&
         negb (bool_decide (is_Some (D1.guides (db c) !! D1.e_guide_id row)) &&
               bool_decide (is_Some (D1.sections (db c) !! D1.e_section_id row)))
      then Eff.throw (ConstraintError "code_examples" (D1.e_section_id row))
      else Eff.modify (set_db (D1.set_code_examples (insert (D1.e_id row) row)))
  end.

Definition storeInD1 (guide : ProcessedGuide) : Eff.M UploadConfig unit :=
  let m := pg_metadata guide in
  insert_guide (guideRow m) ;;;
  Eff.for_each (pg_sections guide) (fun section => insert_section (sectionRow m section)) ;;;
  Eff.for_each_i 0 (pg_codeExamples guide)
    (fun i example => insert_code_example (codeExampleRow m i example)) ;;;
  Eff.modify (set_db (D1.set_guides_fts (D1.fts_insert (ftsRow guide)))) ;;;
  Eff.console (Log "  Stored in D1").

Definition vector_of (chunk : Chunk) : string * Vectorize.Vector :=
  (chunk_id chunk,
   {| Vectorize.v_namespace := "guides";
      Vectorize.v_values := text chunk;
      Vectorize.v_text := String.substring 0 1000 (text chunk);
      Vectorize.v_metadata := metadata chunk |}).

Definition vectorize_guide (guide : ProcessedGuide) : Eff.M UploadConfig unit :=
  Eff.modify (set_vectorize (Vectorize.insert (map vector_of (pg_chunks guide)))) ;;;
  Eff.console (Log ("  Vectorized " +:+ num (List.length (pg_chunks guide)) +:+ " chunks")).

Definition upload (guide : ProcessedGuide) : Eff.M UploadConfig unit :=
  Eff.console (Log ("Uploading guide: " +:+ title (pg_metadata guide))) ;;;
  uploadToR2 guide ;;;
  storeInD1 guide ;;;
  vectorize_guide guide ;;;
  Eff.console (Log ("Successfully uploaded " +:+ id (pg_metadata guide))).

(** The body of the [try] of [processAndUploadGuides]. *)
Definition processFile (file : GuideFile) : Eff.M UploadConfig unit :=
  Eff.console (Log ("Processing: " +:+ name file)) ;;;
  guide <- lift (parse (file_content file)) ;;
  upload guide ;;;
  Eff.console (Log "").

(** One iteration of the loop: the [catch] clause logs and goes on. *)
Definition processFile_caught (file : GuideFile) : Eff.M UploadConfig unit :=
  Eff.try_catch (processFile file)
    (fun e => Eff.console (ErrorLog ("Error processing " +:+ name file +:+ ":") e)).

Definition processAndUploadGuides (markdownFiles : list GuideFile)
  : Eff.M UploadConfig unit :=
  Eff.console (Log ("Processing " +:+ num (List.length markdownFiles) +:+ " guides..." +:+ nl)) ;;;
  Eff.for_each markdownFiles processFile_caught ;;;
  Eff.console (Log "All guides processed successfully!").

End Environment.

End GuideProcessorDocs.

(** ** [src/guide-processor/index.ts] *)

Module GuideProcessor.

Record GuideFile := {
  name : string;
  content : string
}.

(** The bindings, as the contents of the stores; [vectorize] may be
    absent. *)
Record Bindings := {
  r2 : R2.Bucket;
  db : D1.Database;
  vectorize : option Vectorize.Index
}.

Definition set_r2 (f : R2.Bucket -> R2.Bucket) (b : Bindings) : Bindings :=
  {| r2 := f (r2 b); db := db b; vectorize := vectorize b |}.

Definition set_db (f : D1.Database -> D1.Database) (b : Bindings) : Bindings :=
  {| r2 := r2 b; db := f (db b); vectorize := vectorize b |}.

Inductive StringOrArray :=
  | OneString (s : string)
  | ArrayOf (l : list string).

(** [Partial<GuideMetadata>]: a property that is absent is [None]. *)
Record PartialGuideMetadata := {
  title : option string;
  category : option StringOrArray;
  subcategory : option string;
  type : option string;
  status : option string;
  version : option string;
  last_updated : option string;
  tags : option (list string);
  related_guides : option (list string)
}.

(** The object literal without properties. *)
Definition no_metadata : PartialGuideMetadata :=
  {| title := None; category := None; subcategory := None; type := None;
     status := None; version := None; last_updated := None; tags := None;
     related_guides := None |}.

(** What [YAML.parse] returns: [null] (an empty document), or a value
    read at the properties of [GuideMetadata]. *)
Inductive YamlValue :=
  | YamlNull
  | YamlObject (m : PartialGuideMetadata).

Record Section := {
  sec_id : string;
  level : nat;
  sec_title : string;
  sec_content : string;
  start_line : nat;
  end_line : nat
}.

Definition set_end_line (n : nat) (s : Section) : Section :=
  {| sec_id := sec_id s; level := level s; sec_title := sec_title s;
     sec_content := sec_content s; start_line := start_line s; end_line := n |}.

Definition add_content (more : string) (s : Section) : Section :=
  {| sec_id := sec_id s; level := level s; sec_title := sec_title s;
     sec_content := sec_content s +:+ more; start_line := start_line s;
     end_line := end_line s |}.

(** [content.match(frontmatterRegex)]: the two groups.  The pattern
    is: three hyphens at the start, optional white space up to a line
    feed, a lazy group of any characters, a line feed and three hyphens,
    optional white space up to a line feed, and the rest as second
    group. *)
Definition frontmatterRegex (content : string) : option (string * string) :=
  if startsWith "---" content then
    greedy_ws_then_lf
      (lazy_any_until (nl +:+ "---") (greedy_ws_then_lf Some))
      (string_drop 3 content)
  else None.

(** [x || d] on an optional string *)
Definition or_else (x : option string) (d : string) : string :=
  match x with
  | Some "" | None => d
  | Some s => s
  end.

(** [x || null] on an optional string *)
Definition or_null (x : option string) : option string :=
  match x with
  | Some "" | None => None
  | Some s => Some s
  end.

(** [file.name.replace(/\.md$/, '').toLowerCase().replace(/\s+/g, '-')] *)
Definition guideIdOf (name : string) : string :=
  replace_ws "-" (toLowerCase (if endsWith name ".md" then drop_end 3 name else name)).

Definition pushSection (sections : list Section) (currentSection : option Section)
  (endLine : nat) : list Section :=
  match currentSection with
  | Some c => sections ++ [set_end_line endLine c]
  | None => sections
  end.

(** The loop of [parseMarkdown]; [lineNum] is its value before the
    iteration and [lines] are the lines still to read. *)
Fixpoint parseMarkdown_loop (lineNum : nat) (lines : list string)
  (sections : list Section) (currentSection : option Section) : list Section :=
  match lines with
  | [] => pushSection sections currentSection lineNum
  | line :: rest =>
      let lineNum := S lineNum in
      match headerMatch line with
      | Some (lvl, ttl) =>
          let sections := pushSection sections currentSection (lineNum - 1) in
          parseMarkdown_loop lineNum rest sections
            (Some {| sec_id := "section-" +:+ num (List.length sections + 1);
                     level := lvl; sec_title := ttl; sec_content := "";
                     start_line := lineNum; end_line := lineNum |})
      | None =>
          parseMarkdown_loop lineNum rest sections
            (option_map (add_content (line +:+ nl)) currentSection)
      end
  end.

Definition parseMarkdown (markdown : string) : list Section :=
  parseMarkdown_loop 0 (split_lines markdown) [] None.

Section Environment.

(** [YAML.parse]: [None] when it throws. *)
Variable YAML_parse : string -> option YamlValue.

(** [JSON.stringify] on an array of strings. *)
Variable JSON_stringify : list string -> string.

Definition lift {A} (r : Exception + A) : Eff.M Bindings A :=
  match r with
  | inl e => Eff.throw e
  | inr a => Eff.ret a
  end.

Definition extractFrontmatter (content : string) : Exception + (YamlValue * string) :=
  match frontmatterRegex content with
  | Some (frontmatter, markdown) =>
      match YAML_parse frontmatter with
      | Some metadata => inr (metadata, markdown)
      | None => inl YamlParseError
      end
  | None => inr (YamlObject no_metadata, content)
  end.

Definition uploadToR2 (guideId : string) (content : string) : Eff.M Bindings string :=
  let key := "guides/" +:+ guideId +:+ ".md" in
  Eff.modify (set_r2 (R2.put key
    {| R2.body := content; R2.contentType := "text/markdown";
       R2.cacheControl := None; R2.customMetadata := [] |})) ;;;
  Eff.ret key.

(** The object literal passed to [storeInD1]; reading a property of
    [null] throws. *)
Definition guideRow (now : string) (file : GuideFile) (guideId markdownUrl : string)
  (metadata : YamlValue) : Exception + D1.GuideRow :=
  match metadata with
  | YamlNull => inl TypeError
  | YamlObject m =>
      inr {| D1.g_id := guideId;
             D1.g_title := or_else (title m) (name file);
             D1.g_category := match category m with
                              | Some (ArrayOf l) => join ", " l
                              | Some (OneString s) => or_else (Some s) "uncategorized"
                              | None => "uncategorized"
                              end;
             D1.g_subcategory := or_null (subcategory m);
             D1.g_type := or_else (type m) "guide";
             D1.g_status := or_else (status m) "draft";
             D1.g_version := or_else (version m) "1.0";
             D1.g_last_updated := or_else (last_updated m) now;
             D1.g_tags := JSON_stringify (default [] (tags m));
             D1.g_related_guides := option_map JSON_stringify (related_guides m);
             D1.g_markdown_url := markdownUrl |}
  end.

Definition sectionRow (guide : D1.GuideRow) (section : Section) : D1.SectionRow :=
  {| D1.s_id := sec_id section;
     D1.s_guide_id := D1.g_id guide;
     D1.s_level := level section;
     D1.s_title := sec_title section;
     D1.s_content := sec_content section;
     D1.s_start_line := start_line section;
     D1.s_end_line := end_line section |}.

Definition ftsRow (guide : D1.GuideRow) (sections : list Section) : D1.FtsRow :=
  {| D1.f_guide_id := D1.g_id guide;
     D1.f_title := D1.g_title guide;
     D1.f_content := join nl (map sec_content sections);
     D1.f_tags := D1.g_tags guide |}.

(** [INSERT ... ON CONFLICT(id) DO UPDATE SET] every other column. *)
Definition upsert_guide (row : D1.GuideRow) : Eff.M Bindings unit :=
  Eff.modify (set_db (D1.set_guides (insert (D1.g_id row) row))).

Definition upsert_section (row : D1.SectionRow) : Eff.M Bindings unit :=
  Eff.modify (set_db (D1.set_sections (insert (D1.s_id row) row))).

Definition storeInD1 (guide : D1.GuideRow) (sections : list Section) : Eff.M Bindings unit :=
  upsert_guide guide ;;;
  Eff.for_each sections (fun section => upsert_section (sectionRow guide section)) ;;;
  Eff.modify (set_db (D1.set_guides_fts (D1.fts_delete (D1.g_id guide)))) ;;;
  Eff.modify (set_db (D1.set_guides_fts (D1.fts_insert (ftsRow guide sections)))).

(** A placeholder in the source: it writes one line and no vector. *)
Definition createVectorEmbeddings (guideId : string) : Eff.M Bindings unit :=
  Eff.console (Log ("Creating vector embeddings for " +:+ guideId +:+ "...")).

(** The body of the [try]; [now] is [new Date().toISOString()]. *)
Definition processFile (now : string) (file : GuideFile) : Eff.M Bindings unit :=
  Eff.console (Log ("Processing guide: " +:+ name file)) ;;;
  mm <- lift (extractFrontmatter (content file)) ;;
  let guideId := guideIdOf (name file) in
  markdownUrl <- uploadToR2 guideId (content file) ;;
  let sections := parseMarkdown mm.2 in
  guide <- lift (guideRow now file guideId markdownUrl mm.1) ;;
  storeInD1 guide sections ;;;
  b <- Eff.get ;;
  (match vectorize b with
   | Some _ => createVectorEmbeddings guideId
   | None => Eff.ret tt
   end) ;;;
  Eff.console (Log ("Successfully processed: " +:+ name file)).

(** One iteration of the loop: the [catch] clause logs and throws the
    error again. *)
Definition processFile_caught (now : string) (file : GuideFile) : Eff.M Bindings unit :=
  Eff.try_catch (processFile now file)
    (fun e =>
       Eff.console (ErrorLog ("Error processing " +:+ name file +:+ ":") e) ;;;
       Eff.throw e).

(** [clock i] is the time read while the file of index [i] is processed. *)
Definition processAndUploadGuides (clock : nat -> string) (files : list GuideFile)
  : Eff.M Bindings unit :=
  Eff.for_each_i 0 files (fun i file => processFile_caught (clock i) file).

End Environment.

End GuideProcessor.

(** ** [GuideSearchService]: hybrid search and [getGuide] *)

Module GuideSearchService.

Record ResultMetadata := {
  category : string;
  framework : option string;
  language : option string;
  tags : list string
}.

Record SearchResult := {
  guideId : string;
  sectionId : string;
  title : string;
  excerpt : string;
  relevanceScore : Q;
  metadata : ResultMetadata;
  url : string
}.

Inductive Source := keyword | semantic.

(** A result with its [source] property. *)
Record Tagged := {
  result : SearchResult;
  source : Source
}.

Record SearchQuery := {
  query : string;
  q_category : option string;
  q_framework : option string;
  q_language : option string;
  q_tags : option (list string);
  limit : option Z
}.

(** The number that the literal [1.1] denotes. *)
Definition boost : Q := JsNumber.round (11 # 10).

(** [r.relevanceScore * (r.source === 'keyword' ? 1.1 : 1.0)] *)
Definition boosted (r : Tagged) : Q :=
  JsNumber.times (relevanceScore (result r))
    match source r with
    | keyword => boost
    | semantic => 1
    end.

(** [bScore - aScore] *)
Definition compareFn (a b : Tagged) : Q := JsNumber.minus (boosted b) (boosted a).

Definition keyOf (r : Tagged) : string :=
  guideId (result r) +:+ "-" +:+ sectionId (result r).

(** The [for] loop of [mergeResults]. *)
Fixpoint mergeResults_loop (allResults : list Tagged) (limit : Z)
  (seen : gset string) (merged : list Tagged) : list Tagged :=
  match allResults with
  | [] => merged
  | r :: rest =>
      if negb (bool_decide (keyOf r ∈ seen)) && (Z.of_nat (List.length merged) <? limit)%Z
      then mergeResults_loop rest limit ({[keyOf r]} ∪ seen) (merged ++ [r])
      else mergeResults_loop rest limit seen merged
  end.

Definition allResults (keywordResults semanticResults : list SearchResult) : list Tagged :=
  sort compareFn
    (map (fun r => {| result := r; source := keyword |}) keywordResults ++
     map (fun r => {| result := r; source := semantic |}) semanticResults).

Definition mergeResults (keywordResults semanticResults : list SearchResult) (limit : Z)
  : list Tagged :=
  mergeResults_loop (allResults keywordResults semanticResults) limit ∅ [].

Section Lookups.

(** The two lookups, answered by the stores. *)
Variable keywordSearch : SearchQuery -> Z -> list SearchResult.
Variable semanticSearch : SearchQuery -> Z -> list SearchResult.

(** [query.limit || 5] *)
Definition limitOf (q : SearchQuery) : Z :=
  match limit q with
  | Some 0%Z | None => 5%Z
  | Some n => n
  end.

Definition search (q : SearchQuery) : list Tagged :=
  let limit := limitOf q in
  mergeResults (keywordSearch q limit) (semanticSearch q limit) limit.

End Lookups.

Record GuideSection := {
  gs_id : string;
  gs_title : string;
  gs_content : string
}.

Record Guide := {
  id : string;
  g_title : string;
  g_category : string;
  sections : list GuideSection;
  relatedGuides : list string;
  markdown : string
}.

(** [SELECT * FROM sections WHERE guide_id = ?], with [AND id = ?] when
    a section is asked for. *)
Definition select_sections (db : D1.Database) (guideId : string) (sectionId : option string)
  : list D1.SectionRow :=
  List.filter
    (fun s => String.eqb (D1.s_guide_id s) guideId &&
              match sectionId with
              | Some "" | None => true
              | Some sid => String.eqb (D1.s_id s) sid
              end)
    (map snd (map_to_list (D1.sections db))).

Definition getGuide (db : D1.Database) (r2 : R2.Bucket) (guideId : string)
  (sectionId : option string) : option Guide :=
  match D1.guides db !! guideId with
  | None => None
  | Some meta =>
      let rows := select_sections db guideId sectionId in
      Some {| id := D1.g_id meta;
              g_title := D1.g_title meta;
              g_category := D1.g_category meta;
              sections := map (fun s => {| gs_id := D1.s_id s; gs_title := D1.s_title s;
                                           gs_content := D1.s_content s |}) rows;
              relatedGuides := match D1.g_related_guides meta with
                               | Some r => split_on "," r
                               | None => []
                               end;
              markdown := match r2 !! D1.g_markdown_url meta with
                          | Some o => R2.body o
                          | None => ""
                          end |}
  end.

Inductive Response :=
  | NotFound (error : string)
  | Ok (guide : Guide).

(** The route [/tools/get_guide]. *)
Definition get_guide (db : D1.Database) (r2 : R2.Bucket) (guideId : string)
  (sectionId : option string) : Response :=
  match getGuide db r2 guideId sectionId with
  | None => NotFound "Guide not found"
  | Some guide => Ok guide
  end.

End GuideSearchService.

(** ** The worker: the route [/tools/get_guide] *)

Module WorkerRoutes.

(** The guide of a response: the row with its two JSON columns parsed. *)
Record GuideView := {
  row : D1.GuideRow;
  tags : list string;
  related_guides : list string
}.

Inductive Response :=
  | BadRequest (error : string)
  | NotFound (error : string)
  | ServerError (error : string)
  | Success (guide : GuideView) (sections : list D1.SectionRow) (markdown : option string).

(** The status of a response. *)
Definition status (r : Response) : nat :=
  match r with
  | BadRequest _ => 400
  | NotFound _ => 404
  | ServerError _ => 500
  | Success _ _ _ => 200
  end.

(** A parameter of the request is truthy: present and not empty. *)
Definition truthy (x : option string) : bool :=
  match x with
  | Some "" | None => false
  | Some _ => true
  end.

(** [SELECT * FROM sections WHERE guide_id = ?], with [AND id = ?] when
    a section is asked for, [ORDER BY start_line ASC]. *)
Definition select_sections (db : D1.Database) (guideId : string) (sectionId : option string)
  : list D1.SectionRow :=
  stable_sort (fun y x => (D1.s_start_line y <? D1.s_start_line x)%nat)
    (List.filter
       (fun s => String.eqb (D1.s_guide_id s) guideId &&
                 match sectionId with
                 | Some "" | None => true
                 | Some sid => String.eqb (D1.s_id s) sid
                 end)
       (map snd (map_to_list (D1.sections db)))).

Section Environment.

(** [JSON.parse] on a column that holds an array of strings: [None] when
    it throws, with the message of the error in [parse_error]. *)
Variable JSON_parse : string -> option (list string).
Variable parse_error : string -> string.

Definition get_guide (db : D1.Database) (bucket : R2.Bucket)
  (guideId sectionId : option string) : Response :=
  match guideId with
  | Some "" | None => BadRequest "guideId parameter is required"
  | Some gid =>
      match D1.guides db !! gid with
      | None => NotFound "Guide not found"
      | Some guide =>
          let sections := select_sections db gid sectionId in
          let markdown := option_map R2.body (bucket !! D1.g_markdown_url guide) in
          let tags_text := match D1.g_tags guide with "" => "[]" | t => t end in
          match JSON_parse tags_text with
          | None => ServerError (parse_error tags_text)
          | Some tags =>
              match (match D1.g_related_guides guide with
                     | Some "" | None => Some []
                     | Some r => JSON_parse r
                     end) with
              | None => ServerError (parse_error (default "" (D1.g_related_guides guide)))
              | Some related =>
                  Success {| row := guide; tags := tags; related_guides := related |}
                    sections
                    (if truthy sectionId then None else markdown)
              end
          end
      end
  end.

End Environment.

End WorkerRoutes.

(** ** Prepared statements *)

Module Sql.

(** A value bound to a placeholder. *)
Inductive Param :=
  | PText (s : string)
  | PNumber (z : Z).

(** What [db.prepare(sql).bind(...params)] receives. *)
Record Statement := {
  sql : string;
  params : list Param
}.

End Sql.

(** ** [GuideSearchService.keywordSearch]: the statement and the rows *)

Module KeywordSearch.
Import GuideSearchService.

(** The text [sql] starts with. *)
Definition keyword_select : string :=
  nl +:+ "      SELECT " +:+
  nl +:+ "        g.id as guide_id," +:+
  nl +:+ "        g.title," +:+
  nl +:+ "        g.category," +:+
  nl +:+ "        g.tags," +:+
  nl +:+ "        s.id as section_id," +:+
  nl +:+ "        s.title as section_title," +:+
  nl +:+ "        snippet(guides_fts, 2, '<mark>', '</mark>', '...', 32) as excerpt," +:+
  nl +:+ "        rank as relevance_score" +:+
  nl +:+ "      FROM guides_fts" +:+
  nl +:+ "      JOIN guides g ON guides_fts.guide_id = g.id" +:+
  nl +:+ "      JOIN sections s ON s.guide_id = g.id" +:+
  nl +:+ "      WHERE guides_fts MATCH ?" +:+
  nl +:+ "    ".

(** The statement [keywordSearch] prepares and the values it binds. *)
Definition keywordSearch_statement (q : SearchQuery) (limit : Z) : Sql.Statement :=
  let sql := keyword_select in
  let params := [Sql.PText (query q)] in
  let '(sql, params) :=
    match q_category q with
    | Some "" | None => (sql, params)
    | Some category =>
        (sql +:+ " AND g.category LIKE ?", params ++ [Sql.PText ("%" +:+ category +:+ "%")])
    end in
  let '(sql, params) :=
    match q_tags q with
    | Some [] | None => (sql, params)
    | Some tags =>
        let tagConditions := join " OR " (map (fun _ => "g.tags LIKE ?") tags) in
        (sql +:+ " AND (" +:+ tagConditions +:+ ")",
         params ++ map (fun tag => Sql.PText ("%" +:+ tag +:+ "%")) tags)
    end in
  {| Sql.sql := sql +:+ " ORDER BY rank LIMIT ?";
     Sql.params := params ++ [Sql.PNumber limit] |}.

(** A row of the result of the statement. *)
Record Row := {
  guide_id : string;
  row_title : string;
  row_category : string;
  row_tags : string;
  section_id : string;
  section_title : string;
  row_excerpt : string;
  relevance_score : Q
}.

(** The object [keywordSearch] makes of a row. *)
Definition keywordSearch_result (row : Row) : SearchResult :=
  {| guideId := guide_id row;
     sectionId := section_id row;
     title := row_title row +:+ " - " +:+ section_title row;
     excerpt := row_excerpt row;
     relevanceScore := Qabs (relevance_score row);
     metadata := {| category := row_category row;
                    framework := None;
                    language := None;
                    tags := split_on "," (row_tags row) |};
     url := "https://claude.ai/guide/" +:+ guide_id row +:+ "#" +:+ section_id row |}.

End KeywordSearch.

(** ** The worker: the routes that search, relate and propose *)

Module WorkerTools.
Import WorkerRoutes.

(** The body of a request to [/tools/search_developer_guides]; [tags]
    is [None] when the property is absent or is not an array. *)
Record SearchRequest := {
  query : option string;
  category : option string;
  framework : option string;
  search_tags : option (list string);
  limit : option Z
}.

(** The text [sql] starts with. *)
Definition search_select : string :=
  nl +:+ "      SELECT" +:+
  nl +:+ "        g.id," +:+
  nl +:+ "        g.title," +:+
  nl +:+ "        g.category," +:+
  nl +:+ "        g.subcategory," +:+
  nl +:+ "        g.type," +:+
  nl +:+ "        g.status," +:+
  nl +:+ "        g.version," +:+
  nl +:+ "        g.last_updated," +:+
  nl +:+ "        g.tags," +:+
  nl +:+ "        g.related_guides," +:+
  nl +:+ "        g.markdown_url," +:+
  nl +:+ "        snippet(guides_fts, 2, '<mark>', '</mark>', '...', 64) as snippet" +:+
  nl +:+ "      FROM guides_fts" +:+
  nl +:+ "      JOIN guides g ON guides_fts.guide_id = g.id" +:+
  nl +:+ "      WHERE guides_fts MATCH ?" +:+
  nl +:+ "    ".

(** The route [/tools/search_developer_guides] up to the statement it
    prepares: the error of the 400 response, or the statement and the
    values it binds.  The default of [limit] applies when the property is
    absent. *)
Definition search_developer_guides_statement (r : SearchRequest) : string + Sql.Statement :=
  match query r with
  | Some "" | None => inl "Query parameter is required"
  | Some query =>
      let sanitizedQuery := Worker.sanitizeFtsQuery query in
      let sql := search_select in
      let params := [Sql.PText sanitizedQuery] in
      let '(sql, params) :=
        match category r with
        | Some "" | None => (sql, params)
        | Some category =>
            (sql +:+ " AND g.category LIKE ?",
             params ++ [Sql.PText ("%" +:+ category +:+ "%")])
        end in
      let '(sql, params) :=
        match search_tags r with
        | None => (sql, params)
        | Some tags =>
            let tagConditions := join " OR " (map (fun _ => "g.tags LIKE ?") tags) in
            (sql +:+ " AND (" +:+ tagConditions +:+ ")",
             params ++ map (fun tag => Sql.PText ("%" +:+ tag +:+ "%")) tags)
        end in
      inr {| Sql.sql := sql +:+ " ORDER BY rank LIMIT ?";
             Sql.params := params ++ [Sql.PNumber (default 5%Z (limit r))] |}
  end.

(** The statement of [/tools/get_related_guides] for a list of ids that
    is not empty. *)
Definition get_related_guides_statement (relatedIds : list string) : Sql.Statement :=
  let placeholders := join "," (map (fun _ => "?") relatedIds) in
  {| Sql.sql := nl +:+ "      SELECT * FROM guides" +:+
                nl +:+ "      WHERE id IN (" +:+ placeholders +:+ ")" +:+
                nl +:+ "    ";
     Sql.params := map Sql.PText relatedIds |}.

(** The answer of a route that lists guides. *)
Inductive ListResponse :=
  | ListBadRequest (error : string)
  | ListNotFound (error : string)
  | ListServerError (error : string)
  | ListSuccess (count : nat) (guides : list GuideView).

Section Environment.

(** [JSON.parse] on a column that holds an array of strings: [None] when
    it throws, with the message of the error in [parse_error]. *)
Variable JSON_parse : string -> option (list string).
Variable parse_error : string -> string.

(** The object a route makes of a row of [guides]: the row with its two
    JSON columns parsed, or the message of the error [JSON.parse] throws. *)
Definition guideView (guide : D1.GuideRow) : string + GuideView :=
  let tags_text := match D1.g_tags guide with "" => "[]" | t => t end in
  match JSON_parse tags_text with
  | None => inl (parse_error tags_text)
  | Some tags =>
      match D1.g_related_guides guide with
      | Some "" | None => inr {| row := guide; tags := tags; related_guides := [] |}
      | Some r =>
          match JSON_parse r with
          | None => inl (parse_error r)
          | Some related => inr {| row := guide; tags := tags; related_guides := related |}
          end
      end
  end.

(** [results.results.map(...)]: the first row that does not parse ends
    the route. *)
Fixpoint guideViews (rows : list D1.GuideRow) : string + list GuideView :=
  match rows with
  | [] => inr []
  | guide :: rest =>
      match guideView guide with
      | inl e => inl e
      | inr v =>
          match guideViews rest with
          | inl e => inl e
          | inr vs => inr (v :: vs)
          end
      end
  end.

(** [SELECT * FROM guides WHERE id IN (...)]: the rows whose id is
    listed, in the order of the table. *)
Definition select_guides_in (db : D1.Database) (relatedIds : list string)
  : list D1.GuideRow :=
  List.filter (fun g => existsb (String.eqb (D1.g_id g)) relatedIds)
    (map snd (map_to_list (D1.guides db))).

(** The route [/tools/get_related_guides]. *)
Definition get_related_guides (db : D1.Database) (guideId : option string) : ListResponse :=
  match guideId with
  | Some "" | None => ListBadRequest "guideId parameter is required"
  | Some gid =>
      match D1.guides db !! gid with
      | None => ListNotFound "Guide not found"
      | Some guide =>
          match (match D1.g_related_guides guide with
                 | Some "" | None => inr []
                 | Some r =>
                     match JSON_parse r with
                     | Some ids => inr ids
                     | None => inl (parse_error r)
                     end
                 end) with
          | inl e => ListServerError e
          | inr [] => ListSuccess 0 []
          | inr relatedIds =>
              match guideViews (select_guides_in db relatedIds) with
              | inl e => ListServerError e
              | inr views => ListSuccess (List.length views) views
              end
          end
      end
  end.

End Environment.

(** A row of [change_proposals]. *)
Record ProposalRow := {
  p_id : string;
  p_guide_id : string;
  p_section : string;
  p_current_text : string;
  p_proposed_text : string;
  p_rationale : string;
  p_proposed_by : string;
  p_status : string;
  p_created_at : string
}.

(** The body of a request to [/tools/propose_guide_change]. *)
Record ProposalRequest := {
  guideId : option string;
  section : option string;
  currentText : option string;
  proposedText : option string;
  rationale : option string;
  proposedBy : option string
}.

Inductive ProposalResponse :=
  | ProposalBadRequest (error : string)
  | ProposalNotFound (error : string)
  | ProposalServerError (error : string)
  | ProposalCreated (proposalId : string) (message : string).

(** The route [/tools/propose_guide_change]: the response and the table
    [change_proposals] after it.  [time] is [Date.now()], [random] the
    nine characters taken from [Math.random()], [now] the time stamp of
    the row and [constraint_error] the message of the error the database
    throws on a key that is already there. *)
Definition propose_guide_change (time : nat) (random now constraint_error : string)
  (db : D1.Database) (change_proposals : gmap string ProposalRow) (r : ProposalRequest)
  : ProposalResponse * gmap string ProposalRow :=
  if negb (truthy (guideId r) && truthy (section r) && truthy (currentText r) &&
           truthy (proposedText r) && truthy (rationale r))
  then (ProposalBadRequest
          "Missing required fields: guideId, section, currentText, proposedText, rationale",
        change_proposals)
  else
    let gid := default "" (guideId r) in
    match D1.guides db !! gid with
    | None => (ProposalNotFound "Guide not found", change_proposals)
    | Some _ =>
        let proposalId := "proposal-" +:+ num time +:+ "-" +:+ random in
        match change_proposals !! proposalId with
        | Some _ => (ProposalServerError constraint_error, change_proposals)
        | None =>
            (ProposalCreated proposalId "Change proposal created successfully",
             <[proposalId :=
                 {| p_id := proposalId;
                    p_guide_id := gid;
                    p_section := default "" (section r);
                    p_current_text := default "" (currentText r);
                    p_proposed_text := default "" (proposedText r);
                    p_rationale := default "" (rationale r);
                    p_proposed_by := default "claude-code-cli" (proposedBy r);
                    p_status := "pending";
                    p_created_at := now |}]> change_proposals)
        end
    end.

End WorkerTools.

(** ** The worker: the webhook that syncs the service registry *)

Module Registry.

(** The tables of [001_create_service_registry.sql] the webhook writes;
    the rows of the three tables with a generated key are kept in the
    order of their insertion. *)
Record ServiceRow := {
  sv_id : string;
  sv_name : string;
  sv_description : option string;
  sv_category : string;
  sv_endpoint : option string;
  sv_status : option string;
  sv_de_worker_name : option string;
  sv_documentation_url : option string;
  sv_created_at : string;
  sv_updated_at : string
}.

Record CapabilityRow := {
  cap_service_id : string;
  cap_capability : string;
  cap_description : option string
}.

Record ProviderRow := {
  prov_service_id : string;
  prov_provider_name : string;
  prov_requires_api_key : bool
}.

Record SyncLogRow := {
  log_source : string;
  log_commit_sha : option string;
  log_synced_at : string;
  log_services_added : nat;
  log_services_updated : nat
}.

Record Db := {
  services : gmap string ServiceRow;
  service_capabilities : list CapabilityRow;
  service_providers : list ProviderRow;
  registry_sync_log : list SyncLogRow
}.

Definition set_services (f : gmap string ServiceRow -> gmap string ServiceRow) (d : Db) : Db :=
  {| services := f (services d); service_capabilities := service_capabilities d;
     service_providers := service_providers d; registry_sync_log := registry_sync_log d |}.

Definition set_capabilities (f : list CapabilityRow -> list CapabilityRow) (d : Db) : Db :=
  {| services := services d; service_capabilities := f (service_capabilities d);
     service_providers := service_providers d; registry_sync_log := registry_sync_log d |}.

Definition set_providers (f : list ProviderRow -> list ProviderRow) (d : Db) : Db :=
  {| services := services d; service_capabilities := service_capabilities d;
     service_providers := f (service_providers d); registry_sync_log := registry_sync_log d |}.

Definition set_sync_log (f : list SyncLogRow -> list SyncLogRow) (d : Db) : Db :=
  {| services := services d; service_capabilities := service_capabilities d;
     service_providers := service_providers d; registry_sync_log := f (registry_sync_log d) |}.

(** An entry of [capabilities]: a string, or an object with the
    properties [capability] and [description] (a string or [null]). *)
Inductive Capability :=
  | CapName (name : string)
  | CapObject (capability : string) (description : option string).

(** An entry of the manifest, with the properties the statements bind
    without a default ([id], [name], [category]) as strings: an entry
    that lacks one of them is not of this type; the two lists are
    [None] when the property is absent or is not an array. *)
Record Service := {
  id : string;
  name : string;
  description : option string;
  category : string;
  status : option string;
  worker : option string;
  capabilities : option (list Capability);
  providers : option (list string)
}.

(** The request: the [Authorization] header and the body, which is
    JSON. *)
Record SyncRequest := {
  authorization : option string;
  source : option string;
  commit : option string;
  manifest : option (list Service)
}.

(** The two [CHECK] constraints of [services]. *)
Definition category_ok (c : string) : bool :=
  existsb (String.eqb c) ["llm"; "storage"; "voice"; "image"; "utility"; "auth"; "memory"].

Definition status_ok (s : string) : bool :=
  existsb (String.eqb s) ["active"; "beta"; "deprecated"; "planned"].

(** [x || d] and [x || null] *)
Definition or_else (x : option string) (d : string) : string :=
  match x with
  | Some "" | None => d
  | Some s => s
  end.

Definition or_null (x : option string) : option string :=
  match x with
  | Some "" | None => None
  | Some s => Some s
  end.

(** A statement that writes a row of [services] fails when a [CHECK]
    constraint does not hold; [NOT NULL] holds of every [Service], whose
    [name] and [category] are strings. *)
Definition check_service (service : Service) : Eff.M Db unit :=
  if category_ok (category service) && status_ok (or_else (status service) "active")
  then Eff.ret tt
  else Eff.throw (ConstraintError "services" (id service)).

(** The [UPDATE] of a service that exists and the [INSERT] of one that
    does not; [now] is [datetime('now')], also the default of the two
    time stamps.  The result tells that the service was added. *)
Definition write_service (now : string) (service : Service) : Eff.M Db bool :=
  d <- Eff.get ;;
  match services d !! id service with
  | Some existing =>
      check_service service ;;;
      Eff.modify (set_services (insert (id service)
        {| sv_id := sv_id existing;
           sv_name := name service;
           sv_description := or_null (description service);
           sv_category := category service;
           sv_endpoint := sv_endpoint existing;
           sv_status := Some (or_else (status service) "active");
           sv_de_worker_name := or_null (worker service);
           sv_documentation_url := sv_documentation_url existing;
           sv_created_at := sv_created_at existing;
           sv_updated_at := now |})) ;;;
      Eff.ret false
  | None =>
      check_service service ;;;
      Eff.modify (set_services (insert (id service)
        {| sv_id := id service;
           sv_name := name service;
           sv_description := or_null (description service);
           sv_category := category service;
           sv_endpoint := None;
           sv_status := Some (or_else (status service) "active");
           sv_de_worker_name := or_null (worker service);
           sv_documentation_url := None;
           sv_created_at := now;
           sv_updated_at := now |})) ;;;
      Eff.ret true
  end.

Definition capabilityRow (service : Service) (cap : Capability) : CapabilityRow :=
  match cap with
  | CapName capName =>
      {| cap_service_id := id service; cap_capability := capName; cap_description := None |}
  | CapObject capName capDesc =>
      {| cap_service_id := id service; cap_capability := capName;
         cap_description := capDesc |}
  end.

(** The capabilities of a service are cleared and written again when
    the entry lists them. *)
Definition sync_capabilities (service : Service) : Eff.M Db unit :=
  match capabilities service with
  | None => Eff.ret tt
  | Some caps =>
      Eff.modify (set_capabilities
        (List.filter (fun r => negb (String.eqb (cap_service_id r) (id service))))) ;;;
      Eff.for_each caps (fun cap =>
        Eff.modify (set_capabilities (fun rows => rows ++ [capabilityRow service cap])))
  end.

Definition sync_providers (service : Service) : Eff.M Db unit :=
  match providers service with
  | None => Eff.ret tt
  | Some provs =>
      Eff.modify (set_providers
        (List.filter (fun r => negb (String.eqb (prov_service_id r) (id service))))) ;;;
      Eff.for_each provs (fun provider =>
        Eff.modify (set_providers (fun rows =>
          rows ++ [{| prov_service_id := id service; prov_provider_name := provider;
                      prov_requires_api_key := true |}])))
  end.

(** The loop over the manifest with its two counters; [clock i] is the
    time read while the entry of index [i] is written. *)
Fixpoint sync_services (clock : nat -> string) (i : nat) (manifest : list Service)
  (servicesAdded servicesUpdated : nat) : Eff.M Db (nat * nat) :=
  match manifest with
  | [] => Eff.ret (servicesAdded, servicesUpdated)
  | service :: rest =>
      added <- write_service (clock i) service ;;
      sync_capabilities service ;;;
      sync_providers service ;;;
      sync_services clock (S i) rest
        (if added then S servicesAdded else servicesAdded)
        (if added then servicesUpdated else S servicesUpdated)
  end.

(** The body of the [try] after the check of the token; [synced_at] is
    the time stamp of the row of the log. *)
Definition sync_body (clock : nat -> string) (synced_at : string) (r : SyncRequest)
  : Eff.M Db (nat * nat) :=
  counts <- sync_services clock 0 (default [] (manifest r)) 0 0 ;;
  Eff.modify (set_sync_log (fun rows =>
    rows ++ [{| log_source := or_else (source r) "api";
                log_commit_sha := or_null (commit r);
                log_synced_at := synced_at;
                log_services_added := counts.1;
                log_services_updated := counts.2 |}])) ;;;
  Eff.ret counts.

Inductive SyncResponse :=
  | Unauthorized (error : string)
  | SyncFailed (e : Exception)
  | Synced (synced_at : string) (services_added services_updated : nat).


(** [expectedToken && authHeader !== `Bearer ${expectedToken}`];
    [expectedToken] is the secret [REGISTRY_SYNC_TOKEN], [None] when it is
    not set. *)
Definition rejected (expectedToken : option string) (r : SyncRequest) : bool :=
  match expectedToken with
  | Some "" | None => false
  | Some token => negb (bool_decide (authorization r = Some ("Bearer " +:+ token)))
  end.

(** The route [/api/sync-registry]: the response and the database after
    it; [answered_at] is the time stamp of the response. *)
Definition sync_registry (expectedToken : option string) (clock : nat -> string)
  (synced_at answered_at : string) (r : SyncRequest) (d : Db) : SyncResponse * Db :=
  if rejected expectedToken r then (Unauthorized "Unauthorized", d)
  else
    match sync_body clock synced_at r d with
    | (d', _, inl e) => (SyncFailed e, d')
    | (d', _, inr counts) => (Synced answered_at counts.1 counts.2, d')
    end.

End Registry.

(** * Properties *)

(** ** The embedding on small inputs *)

Section SmallInputs.

Definition in_quotes (s : string) : string := String DQ (s +:+ String DQ "").

Example split_ws_example :
  split_ws "  error-handling   and retry " = [""; "error-handling"; "and"; "retry"; ""].
Proof. reflexivity. Qed.

Example sanitizeFtsQuery_example :
  Worker.sanitizeFtsQuery "error-handling and retry (fast)" =
  in_quotes "error-handling" +:+ " " +:+ in_quotes "and" +:+ " retry " +:+
  in_quotes "(fast)".
Proof. reflexivity. Qed.

Example headerMatch_examples :
  headerMatch "## Input Validation" = Some (2, "Input Validation") /\
  headerMatch "##Input" = None /\
  headerMatch "####### Seven" = None /\
  headerMatch "text # not a heading" = None.
Proof. repeat split; reflexivity. Qed.

Example extractFrontmatter_example :
  GuideProcessorDocs.extractFrontmatter
    ("---" +:+ nl +:+ "id: sec-1" +:+ nl +:+ "---" +:+ nl +:+ "## A" +:+ nl +:+ "text")
  = inr ("id: sec-1", "## A" +:+ nl +:+ "text").
Proof. reflexivity. Qed.

Example frontmatterRegex_examples :
  GuideProcessor.frontmatterRegex
    ("---  " +:+ nl +:+ "title: T" +:+ nl +:+ "---" +:+ nl +:+ nl +:+ "## A")
  = Some ("title: T", "## A") /\
  GuideProcessor.frontmatterRegex ("---" +:+ nl +:+ "title: T" +:+ nl +:+ "---") = None.
Proof. split; reflexivity. Qed.

Example guideIdOf_example : GuideProcessor.guideIdOf "My Guide  01.md" = "my-guide-01".
Proof. reflexivity. Qed.

Example generateSectionId_example :
  GuideProcessorDocs.generateSectionId "  Hello, World -- 2!" = "hello-world-2".
Proof. reflexivity. Qed.

Example parseMarkdown_example :
  map (fun s => (GuideProcessor.sec_id s, GuideProcessor.sec_content s,
                 GuideProcessor.start_line s, GuideProcessor.end_line s))
    (GuideProcessor.parseMarkdown
       ("intro" +:+ nl +:+ "## A" +:+ nl +:+ "one" +:+ nl +:+ "## B" +:+ nl +:+ "two"))
  = [("section-1", "one" +:+ nl, 2, 3); ("section-2", "two" +:+ nl, 4, 5)].
Proof. reflexivity. Qed.

Example extractSections_example :
  map (fun s => (GuideProcessorDocs.sec_id s, GuideProcessorDocs.content s,
                 GuideProcessorDocs.startLine s, GuideProcessorDocs.endLine s))
    (GuideProcessorDocs.extractSections
       ("intro" +:+ nl +:+ "## A" +:+ nl +:+ nl +:+ "one" +:+ nl +:+ "## B" +:+ nl +:+ "two"))
  = [("a", "one", 1, 3); ("b", "two", 4, 5)].
Proof. reflexivity. Qed.

End SmallInputs.

(** ** Strings *)

Lemma str_app_nil_r (s : string) : s +:+ "" = s.
Proof. induction s as [|c s IH]; cbn; [reflexivity | now rewrite IH]. Qed.

Lemma str_app_assoc (a b c : string) : (a +:+ b) +:+ c = a +:+ (b +:+ c).
Proof. induction a as [|x a IH]; cbn; [reflexivity | now rewrite IH]. Qed.

Lemma str_app_cons (c : ascii) (a b : string) : String c a +:+ b = String c (a +:+ b).
Proof. reflexivity. Qed.

Lemma str_length_app (a b : string) :
  String.length (a +:+ b) = (String.length a + String.length b)%nat.
Proof. induction a as [|x a IH]; cbn; [reflexivity | now rewrite IH]. Qed.

Lemma join_cons2 (sep x y : string) (l : list string) :
  join sep (x :: y :: l) = x +:+ sep +:+ join sep (y :: l).
Proof. reflexivity. Qed.

Lemma join_cons_nonempty (sep x : string) (l : list string) :
  l <> [] -> join sep (x :: l) = x +:+ sep +:+ join sep l.
Proof. destruct l; [congruence | reflexivity]. Qed.

Lemma join_head_cons (sep : string) (c : ascii) (h : string) (t : list string) :
  join sep (String c h :: t) = String c (join sep (h :: t)).
Proof. destruct t; reflexivity. Qed.

Lemma split_on_nonempty (sep : ascii) (s : string) : split_on sep s <> [].
Proof.
  induction s as [|c s IH]; cbn; [discriminate |].
  destruct (Ascii.eqb c sep); [discriminate |].
  destruct (split_on sep s); discriminate.
Qed.

(** Joining the pieces of a split with the separator gives the string
    back. *)
Lemma join_split_on (sep : ascii) (s : string) :
  join (String sep "") (split_on sep s) = s.
Proof.
  induction s as [|c s IH]; cbn; [reflexivity |].
  destruct (Ascii.eqb_spec c sep) as [->|Hne].
  - rewrite join_cons_nonempty by apply split_on_nonempty.
    cbn. now rewrite IH.
  - pose proof (split_on_nonempty sep s) as Hn.
    destruct (split_on sep s) as [|h t]; [congruence |].
    rewrite join_head_cons. now rewrite IH.
Qed.

Lemma split_paragraphs_step (c : ascii) (s : string) :
  split_paragraphs (String c s) =
  match s with
  | String d s'' =>
      if Ascii.eqb c LF && Ascii.eqb d LF then "" :: split_paragraphs s''
      else match split_paragraphs s with
           | h :: t => String c h :: t
           | [] => [String c ""]
           end
  | "" => [String c ""]
  end.
Proof. destruct s; reflexivity. Qed.

Lemma split_paragraphs_nonempty (s : string) : split_paragraphs s <> [].
Proof.
  destruct s as [|c s]; [discriminate |].
  rewrite split_paragraphs_step.
  destruct s as [|d s]; [discriminate |].
  destruct (Ascii.eqb c LF && Ascii.eqb d LF); [discriminate |].
  destruct (split_paragraphs (String d s)); discriminate.
Qed.

(** The same for the split on blank lines.  The induction is on the
    length, since a separator consumes two characters. *)
Lemma join_split_paragraphs (s : string) :
  join (nl +:+ nl) (split_paragraphs s) = s.
Proof.
  remember (String.length s) as n eqn:Hn.
  revert s Hn. induction n as [n IH] using lt_wf_ind. intros s Hn.
  destruct s as [|c s]; [reflexivity |].
  rewrite split_paragraphs_step.
  destruct s as [|d s]; [reflexivity |].
  destruct (Ascii.eqb_spec c LF) as [->|Hc]; cbn [andb].
  - destruct (Ascii.eqb_spec d LF) as [->|Hd].
    + rewrite join_cons_nonempty by apply split_paragraphs_nonempty.
      rewrite (IH (String.length s)); [reflexivity | cbn in Hn; lia | reflexivity].
    + pose proof (split_paragraphs_nonempty (String d s)) as Hne.
      pose proof (IH (String.length (String d s)) ltac:(cbn in *; lia)
                     (String d s) eq_refl) as IHs.
      destruct (split_paragraphs (String d s)) as [|h t]; [congruence |].
      rewrite join_head_cons. now rewrite IHs.
  - pose proof (split_paragraphs_nonempty (String d s)) as Hne.
    pose proof (IH (String.length (String d s)) ltac:(cbn in *; lia)
                   (String d s) eq_refl) as IHs.
    destruct (split_paragraphs (String d s)) as [|h t]; [congruence |].
    rewrite join_head_cons. now rewrite IHs.
Qed.

(** ** The FTS5 query sanitizer *)

(** The characters of a string. *)
Definition chars (s : string) : list ascii := list_ascii_of_string s.

(** The spellings of the three FTS5 operators, in any case. *)
Definition operator_spellings : list string :=
  ["AND"; "ANd"; "AnD"; "And"; "aND"; "aNd"; "anD"; "and";
   "OR"; "Or"; "oR"; "or";
   "NOT"; "NOt"; "NoT"; "Not"; "nOT"; "nOt"; "noT"; "not"].

(** Hyphen, asterisk, parentheses and double quote. *)
Definition operator_characters : list ascii :=
  ["-"%char; "*"%char; "("%char; ")"%char; DQ].

(** A term the claim wants quoted. *)
Definition needs_quoting (term : string) : Prop :=
  (exists c, In c (chars term) /\ In c operator_characters) \/
  In term operator_spellings.

(** [body] is [term] with every double quote doubled. *)
Inductive Doubled : string -> string -> Prop :=
  | Doubled_nil : Doubled "" ""
  | Doubled_quote s r : Doubled s r -> Doubled (String DQ s) (String DQ (String DQ r))
  | Doubled_other c s r : c <> DQ -> Doubled s r -> Doubled (String c s) (String c r).

(** How FTS5 reads a string literal: after the opening quote, two quotes
    stand for one and a single quote closes the literal, which must then
    be at its end.  [None] when the text is not one literal. *)
Fixpoint fts5_string_body (s : string) : option string :=
  match s with
  | "" => None
  | String c s' =>
      if Ascii.eqb c DQ then
        match s' with
        | "" => Some ""
        | String d s'' =>
            if Ascii.eqb d DQ then option_map (String DQ) (fts5_string_body s'') else None
        end
      else option_map (String c) (fts5_string_body s')
  end.

Definition fts5_string (t : string) : option string :=
  match t with
  | String c r => if Ascii.eqb c DQ then fts5_string_body r else None
  | "" => None
  end.

(** What the claim says of one term [t] and what is sent for it. *)
Definition sanitized_term (t t' : string) : Prop :=
  (needs_quoting t ->
     (exists body, Doubled t body /\ t' = String DQ (body +:+ String DQ "")) /\
     fts5_string t' = Some t) /\
  (~ needs_quoting t -> t' = t).

Lemma existsb_char_spec (p : ascii -> bool) (s : string) :
  existsb_char p s = true <-> exists c, In c (chars s) /\ p c = true.
Proof.
  induction s as [|x s IH]; cbn.
  - split; [discriminate | intros (c & [] & _)].
  - rewrite orb_true_iff, IH. split.
    + intros [Hx | (c & Hc & Hp)]; [exists x | exists c]; auto.
    + intros (c & [<- | Hc] & Hp); [left | right; exists c]; auto.
Qed.

Lemma is_fts_special_spec (c : ascii) :
  Worker.is_fts_special c = true <-> In c operator_characters.
Proof.
  split.
  - destruct c as [[] [] [] [] [] [] [] []]; cbn; intros H; try discriminate; tauto.
  - intros H. cbn in H.
    destruct H as [<- | [<- | [<- | [<- | [<- | []]]]]]; reflexivity.
Qed.

Lemma has_fts_special_spec (term : string) :
  Worker.has_fts_special term = true <->
  exists c, In c (chars term) /\ In c operator_characters.
Proof.
  unfold Worker.has_fts_special. rewrite existsb_char_spec.
  split; intros (c & Hc & Hp); exists c; split; auto; now apply is_fts_special_spec.
Qed.

(** A character folds onto [d] only if it is [d] or the letter 32 code
    units above [d]. *)
Lemma canonicalize_inv (c d : ascii) :
  canonicalize c = d -> c = d \/ c = ascii_of_N (N_of_ascii d + 32).
Proof.
  unfold canonicalize.
  destruct ((97 <=? N_of_ascii c) && (N_of_ascii c <=? 122))%N eqn:E; [| now left].
  intros <-. right.
  apply andb_true_iff in E as [E1 E2].
  apply N.leb_le in E1. apply N.leb_le in E2.
  rewrite N_ascii_embedding by lia.
  replace (N_of_ascii c - 32 + 32)%N with (N_of_ascii c) by lia.
  now rewrite ascii_N_embedding.
Qed.

Lemma fold3_inv (t : string) (a b c : ascii) :
  map_chars canonicalize t = String a (String b (String c "")) ->
  exists x y z, t = String x (String y (String z "")) /\
    (x = a \/ x = ascii_of_N (N_of_ascii a + 32)) /\
    (y = b \/ y = ascii_of_N (N_of_ascii b + 32)) /\
    (z = c \/ z = ascii_of_N (N_of_ascii c + 32)).
Proof.
  destruct t as [|x [|y [|z [|w t]]]]; cbn; try discriminate.
  intros H. injection H as Hx Hy Hz.
  exists x, y, z. repeat split; auto using canonicalize_inv.
Qed.

Lemma fold2_inv (t : string) (a b : ascii) :
  map_chars canonicalize t = String a (String b "") ->
  exists x y, t = String x (String y "") /\
    (x = a \/ x = ascii_of_N (N_of_ascii a + 32)) /\
    (y = b \/ y = ascii_of_N (N_of_ascii b + 32)).
Proof.
  destruct t as [|x [|y [|z t]]]; cbn; try discriminate.
  intros H. injection H as Hx Hy.
  exists x, y. repeat split; auto using canonicalize_inv.
Qed.

Lemma is_fts_keyword_spec (term : string) :
  Worker.is_fts_keyword term = true <-> In term operator_spellings.
Proof.
  split.
  - unfold Worker.is_fts_keyword. cbn zeta.
    rewrite !orb_true_iff, !String.eqb_eq.
    intros [[H | H] | H].
    + apply fold3_inv in H as (x & y & z & -> & [-> | ->] & [-> | ->] & [-> | ->]);
        cbn; tauto.
    + apply fold2_inv in H as (x & y & -> & [-> | ->] & [-> | ->]); cbn; tauto.
    + apply fold3_inv in H as (x & y & z & -> & [-> | ->] & [-> | ->] & [-> | ->]);
        cbn; tauto.
  - intros H. cbn in H.
    repeat (destruct H as [<- | H]; [reflexivity |]). destruct H.
Qed.

Lemma needs_quoting_spec (term : string) :
  Worker.has_fts_special term || Worker.is_fts_keyword term = true <-> needs_quoting term.
Proof.
  unfold needs_quoting.
  now rewrite orb_true_iff, has_fts_special_spec, is_fts_keyword_spec.
Qed.

Lemma double_quotes_Doubled (term : string) : Doubled term (Worker.double_quotes term).
Proof.
  induction term as [|c s IH]; cbn; [constructor |].
  destruct (Ascii.eqb_spec c DQ) as [->|Hne]; now constructor.
Qed.

(** FTS5 reads a quoted term back as the term. *)
Lemma fts5_string_body_double_quotes (term : string) :
  fts5_string_body (Worker.double_quotes term +:+ String DQ "") = Some term.
Proof.
  induction term as [|c s IH]; [reflexivity |].
  cbn [Worker.double_quotes].
  destruct (Ascii.eqb_spec c DQ) as [->|Hne].
  - cbn. cbn in IH. now rewrite IH.
  - cbn. apply Ascii.eqb_neq in Hne. rewrite Hne. cbn in IH. now rewrite IH.
Qed.

Lemma sanitizeTerm_spec (term : string) : sanitized_term term (Worker.sanitizeTerm term).
Proof.
  unfold sanitized_term, Worker.sanitizeTerm.
  destruct (Worker.has_fts_special term || Worker.is_fts_keyword term) eqn:E.
  - split; [intros _ | intros Hn; exfalso; apply Hn; now apply needs_quoting_spec].
    split.
    + exists (Worker.double_quotes term). split; [apply double_quotes_Doubled | reflexivity].
    + cbn. apply fts5_string_body_double_quotes.
  - split; [| reflexivity].
    intros Hq. apply needs_quoting_spec in Hq. congruence.
Qed.

(** No piece of a split on white space holds a white space. *)
Lemma split_ws_go_no_space (in_gap : bool) (s : string) :
  Forall (fun t => existsb_char is_space t = false) (split_ws_go in_gap s).
Proof.
  revert in_gap. induction s as [|c s IH]; intros in_gap; cbn.
  - repeat constructor.
  - destruct (is_space c) eqn:Hc.
    + destruct in_gap; [apply IH | constructor; [reflexivity | apply IH]].
    + specialize (IH false).
      destruct (split_ws_go false s) as [|h t].
      * repeat constructor. cbn. now rewrite Hc.
      * inversion IH as [|? ? Hh Ht]; subst.
        constructor; [cbn; now rewrite Hc | assumption].
Qed.

(** C10.  For every query, [sanitizeFtsQuery] returns the terms of the
    query (its pieces between runs of white space, none of which holds a
    white space) joined with single spaces, where a term that contains a
    hyphen, an asterisk, a parenthesis or a double quote, or that spells
    AND, OR or NOT in any case, has been wrapped in double quotes with
    its double quotes doubled, so that FTS5 reads it as one string
    literal whose value is the term, and every other term is
    unchanged. *)
Theorem sanitizeFtsQuery_quotes_operator_terms (query : string) :
  exists terms : list string,
    Worker.sanitizeFtsQuery query = join " " terms /\
    Forall2 sanitized_term (split_ws query) terms /\
    Forall (fun t => existsb_char is_space t = false) (split_ws query).
Proof.
  exists (map Worker.sanitizeTerm (split_ws query)).
  split; [reflexivity |]. split.
  - induction (split_ws query) as [|t l IH]; cbn; constructor;
      [apply sanitizeTerm_spec | exact IH].
  - apply split_ws_go_no_space.
Qed.

(** ** The chunker of [GuideParser] *)

Section Chunker.
Import GuideProcessorDocs.
Variable m : GuideMetadata.
Variable section : Section.

(** One of the two context headers of a part of a split section. *)
Definition is_header (h : list string) : Prop :=
  h = firstHeader m section \/ h = continuedHeader m section.

(** The context header of the chunk of a whole section. *)
Definition wholeHeader : string :=
  "# " +:+ title m +:+ nl +:+
  "Category: " +:+ join ", " (category m) +:+ nl +:+
  "Section: " +:+ sec_title section +:+ nl +:+ nl.

(** [c] is the chunk made of the paragraphs [g] under a context header. *)
Definition part_of (c : Chunk) (g : list string) : Prop :=
  exists h, is_header h /\ text c = join blank (h ++ g).

(** A chunk keeps the size bound unless it holds at most one paragraph. *)
Definition soft_bound (c : Chunk) (g : list string) : Prop :=
  tokens c = estimateTokens (text c) /\
  (tokens c <= MAX_CHUNK_TOKENS \/ List.length g <= 1).

Lemma is_header_length (h : list string) : is_header h -> List.length h = 3.
Proof. now intros [-> | ->]. Qed.

Lemma chunkText_wholeHeader : chunkText m section = wholeHeader +:+ content section.
Proof.
  unfold chunkText, wholeHeader. cbn [join String.concat].
  now rewrite !str_app_assoc.
Qed.

(** The loop closes chunks that are parts of the section, in the order
    of the paragraphs, and leaves the paragraphs not yet emitted in
    [currentChunk]. *)
Lemma splitLargeSection_loop_spec (paragraphs : list string) :
  forall (chunks : list Chunk) (h g : list string) (chunkIndex : nat),
    is_header h ->
    (estimateTokens (join blank (h ++ g)) <= MAX_CHUNK_TOKENS \/ List.length g <= 1) ->
    exists (new : list Chunk) (groups : list (list string)) (h' g' : list string)
           (chunkIndex' : nat),
      splitLargeSection_loop m section paragraphs chunks (h ++ g) chunkIndex
        = (chunks ++ new, h' ++ g', chunkIndex') /\
      Forall2 (fun c grp => part_of c grp /\ soft_bound c grp) new groups /\
      g ++ paragraphs = concat groups ++ g' /\
      is_header h' /\
      (estimateTokens (join blank (h' ++ g')) <= MAX_CHUNK_TOKENS \/ List.length g' <= 1).
Proof.
  induction paragraphs as [|p ps IH]; intros chunks h g idx Hh Hb.
  - exists [], [], h, g, idx. cbn.
    rewrite !app_nil_r. repeat split; auto.
  - cbn [splitLargeSection_loop].
    destruct (MAX_CHUNK_TOKENS <? estimateTokens (join blank ((h ++ g) ++ [p])))%nat eqn:E.
    + destruct (IH (chunks ++ [mkChunk m section
                        (id m +:+ "-" +:+ sec_id section +:+ "-" +:+ num idx)
                        (join blank (h ++ g))])
                   (continuedHeader m section) [p] (S idx))
        as (new & groups & h' & g' & idx' & Hloop & Hparts & Hcat & Hh' & Hb').
      { now right. }
      { right. cbn. lia. }
      exists (mkChunk m section (id m +:+ "-" +:+ sec_id section +:+ "-" +:+ num idx)
                (join blank (h ++ g)) :: new), (g :: groups), h', g', idx'.
      split; [| split; [| split; [| split]]]; auto.
      * rewrite Hloop. now rewrite <- app_assoc.
      * constructor; [| exact Hparts].
        split; [exists h; split; [exact Hh | reflexivity] |].
        split; [reflexivity | exact Hb].
      * cbn [concat]. rewrite <- app_assoc. f_equal. exact Hcat.
    + apply Nat.ltb_ge in E.
      rewrite <- app_assoc in E |- *.
      destruct (IH chunks h (g ++ [p]) idx Hh (or_introl E))
        as (new & groups & h' & g' & idx' & Hloop & Hparts & Hcat & Hh' & Hb').
      exists new, groups, h', g', idx'.
      split; [exact Hloop |]. split; [exact Hparts |].
      split; [| split; assumption].
      rewrite <- Hcat. now rewrite <- app_assoc.
Qed.

(** The chunks of a split section are parts whose paragraphs, in order,
    are the paragraphs of the section. *)
Lemma splitLargeSection_spec :
  exists groups : list (list string),
    Forall2 (fun c grp => part_of c grp /\ soft_bound c grp)
      (splitLargeSection m section) groups /\
    concat groups = split_paragraphs (content section).
Proof.
  unfold splitLargeSection.
  destruct (splitLargeSection_loop_spec (split_paragraphs (content section)) []
              (firstHeader m section) [] 0)
    as (new & groups & h' & g' & idx' & Hloop & Hparts & Hcat & Hh' & Hb').
  { now left. }
  { right. cbn. lia. }
  rewrite app_nil_r in Hloop. rewrite Hloop. cbn [app] in Hcat |- *.
  rewrite length_app, (is_header_length h' Hh').
  destruct g' as [|p g'].
  - cbn. exists groups. split; [exact Hparts |].
    now rewrite app_nil_r in Hcat.
  - replace (3 <? 3 + List.length (p :: g'))%nat with true
      by (symmetry; apply Nat.ltb_lt; cbn; lia).
    exists (groups ++ [p :: g']). split.
    + apply Forall2_app; [exact Hparts |].
      constructor; [| constructor].
      split; [exists h'; split; [exact Hh' | reflexivity] |].
      split; [reflexivity | exact Hb'].
    + rewrite concat_app. cbn. now rewrite app_nil_r.
Qed.

End Chunker.

Section ChunkerClaims.
Import GuideProcessorDocs.

(** The chunk coverage of the specification: either the one chunk of the
    section is its context header followed by the content, or the chunks
    are parts whose paragraphs, joined in order with blank lines, are
    the content. *)
Definition chunk_coverage (m : GuideMetadata) (section : Section) (chunks : list Chunk)
  : Prop :=
  (exists c, chunks = [c] /\ text c = wholeHeader m section +:+ content section) \/
  (exists groups : list (list string),
     Forall2 (part_of m section) chunks groups /\
     join blank (concat groups) = content section).

(** The token bound of the specification: within the bound, or a part
    made of one paragraph that alone exceeds it. *)
Definition token_bound (m : GuideMetadata) (section : Section) (c : Chunk) : Prop :=
  tokens c <= MAX_CHUNK_TOKENS \/
  (exists p, part_of m section c [p] /\ MAX_CHUNK_TOKENS < estimateTokens p).

(** The bound the code keeps: within the bound, or a part made of at
    most one paragraph of the section. *)
Definition token_bound_kept (m : GuideMetadata) (section : Section) (c : Chunk) : Prop :=
  tokens c = estimateTokens (text c) /\
  (tokens c <= MAX_CHUNK_TOKENS \/
   (exists g, part_of m section c g /\ List.length g <= 1 /\
              incl g (split_paragraphs (content section)))).

Lemma Forall2_Forall_l {A B} (R : A -> B -> Prop) (P : A -> Prop) (l : list A) (l' : list B) :
  Forall2 R l l' -> (forall x y, In y l' -> R x y -> P x) -> Forall P l.
Proof.
  induction 1 as [|x y l l' Hxy H IH]; intros HP; constructor.
  - apply (HP x y); [now left | exact Hxy].
  - apply IH. intros x' y' Hy'. apply HP. now right.
Qed.

Lemma Forall2_In_r {A B} (R : A -> B -> Prop) (l : list A) (l' : list B) (y : B) :
  Forall2 R l l' -> In y l' -> exists x, In x l /\ R x y.
Proof.
  induction 1 as [|x y' l l' Hxy H IH]; intros Hy; [destruct Hy |].
  destruct Hy as [<- | Hy].
  - exists x. split; [now left | exact Hxy].
  - destruct (IH Hy) as (x' & Hx' & HR). exists x'. split; [now right | exact HR].
Qed.

Lemma In_concat_incl {A} (g : list A) (groups : list (list A)) :
  In g groups -> incl g (concat groups).
Proof.
  intros Hg x Hx. apply in_concat. exists g. auto.
Qed.

Lemma createChunks_single (m : GuideMetadata) (section : Section) :
  createChunks m [section] = createChunks_section m section.
Proof. unfold createChunks. cbn. apply app_nil_r. Qed.

Lemma createChunks_section_bound (m : GuideMetadata) (section : Section) :
  Forall (token_bound_kept m section) (createChunks_section m section).
Proof.
  unfold createChunks_section.
  destruct (String.length (content section) <? 100)%nat; [constructor |].
  destruct (MAX_CHUNK_TOKENS <? estimateTokens (chunkText m section))%nat eqn:E.
  - destruct (splitLargeSection_spec m section) as (groups & Hparts & Hcat).
    eapply Forall2_Forall_l; [exact Hparts |].
    intros c g Hg [Hpart [Htok Hb]]. split; [exact Htok |].
    destruct Hb as [Hb | Hb]; [now left | right].
    exists g. split; [exact Hpart |]. split; [exact Hb |].
    rewrite <- Hcat. now apply In_concat_incl.
  - apply Nat.ltb_ge in E. constructor; [| constructor].
    split; [reflexivity | left; exact E].
Qed.

(** A string of a list is no longer than the list joined. *)
Lemma length_le_join (sep p : string) (l : list string) :
  In p l -> String.length p <= String.length (join sep l).
Proof.
  induction l as [|x l IH]; intros Hp; [destruct Hp |].
  destruct l as [|y l].
  - destruct Hp as [<- | []]. cbn. lia.
  - rewrite join_cons2, !str_length_app.
    destruct Hp as [<- | Hp]; [lia |].
    specialize (IH Hp). lia.
Qed.

Lemma estimateTokens_mono (a b : string) :
  String.length a <= String.length b -> estimateTokens a <= estimateTokens b.
Proof.
  intros H. unfold estimateTokens.
  apply Nat.Div0.div_le_mono. lia.
Qed.

(** A paragraph that alone exceeds the bound makes the section exceed
    it. *)
Lemma length_paragraph_le (s p : string) :
  In p (split_paragraphs s) -> String.length p <= String.length s.
Proof.
  intros Hp.
  pose proof (length_le_join (nl +:+ nl) p _ Hp) as H.
  now rewrite join_split_paragraphs in H.
Qed.

Lemma oversized_paragraph_alone (m : GuideMetadata) (section : Section) (p : string) :
  In p (split_paragraphs (content section)) ->
  MAX_CHUNK_TOKENS < estimateTokens p ->
  exists c, In c (createChunks_section m section) /\ part_of m section c [p].
Proof.
  intros Hp Hbig.
  pose proof (length_paragraph_le _ _ Hp) as Hlen.
  assert (4 * MAX_CHUNK_TOKENS < String.length p + 3) as Hp4.
  { unfold estimateTokens in Hbig.
    pose proof (Nat.Div0.mul_div_le (String.length p + 3) 4). lia. }
  unfold MAX_CHUNK_TOKENS in Hp4.
  unfold createChunks_section.
  replace (String.length (content section) <? 100)%nat with false
    by (symmetry; apply Nat.ltb_ge; lia).
  replace (MAX_CHUNK_TOKENS <? estimateTokens (chunkText m section))%nat with true.
  2:{ symmetry. apply Nat.ltb_lt. eapply Nat.lt_le_trans; [exact Hbig |].
      apply estimateTokens_mono. rewrite chunkText_wholeHeader, str_length_app. lia. }
  destruct (splitLargeSection_spec m section) as (groups & Hparts & Hcat).
  rewrite <- Hcat in Hp. apply in_concat in Hp as (g & Hg & Hpg).
  destruct (Forall2_In_r _ _ _ _ Hparts Hg) as (c & Hc & [Hpart [Htok Hb]]).
  exists c. split; [exact Hc |].
  assert (List.length g <= 1) as Hg1.
  { destruct Hb as [Hb | Hb]; [| exact Hb]. exfalso.
    destruct Hpart as (h & Hh & Htext).
    assert (estimateTokens p <= tokens c); [| lia].
    rewrite Htok, Htext. apply estimateTokens_mono, length_le_join.
    apply in_or_app. now right. }
  destruct g as [|q [|q' g]]; [destruct Hpg | | cbn in Hg1; lia].
  destruct Hpg as [-> | []]. exact Hpart.
Qed.

End ChunkerClaims.

(** Example inputs of the chunker. *)
Module ChunkerExamples.
Import GuideProcessorDocs.

Fixpoint repeat_char (n : nat) (c : ascii) : string :=
  match n with
  | O => ""
  | S k => String c (repeat_char k c)
  end.

Definition guide : GuideMetadata :=
  {| id := "sec-1"; title := "Security"; category := ["security"];
     subcategory := None; type := "guide"; status := "draft"; version := "1";
     last_updated := "2025-12-04"; languages := None; frameworks := None;
     platforms := None; tags := []; related_guides := [] |}.

Definition section_of (ttl body : string) : Section :=
  {| sec_id := generateSectionId ttl; level := 2; sec_title := ttl;
     content := body; codeBlocks := []; startLine := 0; endLine := 0 |}.

(** A section of eleven characters. *)
Definition short_section : Section := section_of "A" "Short note.".

(** A paragraph of 3990 characters (998 tokens) and one of 100. *)
Definition long_paragraph : string := repeat_char 3990 "a".
Definition long_section : Section :=
  section_of "B" (long_paragraph +:+ blank +:+ repeat_char 100 "b").

(** A paragraph of 4400 characters (1100 tokens). *)
Definition giant_paragraph : string := repeat_char 4400 "a".
Definition giant_section : Section := section_of "B" giant_paragraph.

End ChunkerExamples.

Section ChunkerTheorems.
Import GuideProcessorDocs ChunkerExamples.

(** A section of one paragraph of 1100 tokens: a first chunk that holds
    the context header alone, then the paragraph in a chunk of its own. *)
Example createChunks_giant_section :
  map (fun c => (chunk_id c, tokens c)) (createChunks guide [giant_section])
  = [("sec-1-b-0", 6); ("sec-1-b-1", 1110)].
Proof. vm_compute. reflexivity. Qed.

(** The two context headers of a split section give different texts. *)
Lemma headers_differ (m : GuideMetadata) (section : Section) (g g' : list string) :
  join blank (firstHeader m section ++ g) <> join blank (continuedHeader m section ++ g').
Proof.
  unfold firstHeader, continuedHeader. cbn [app].
  rewrite !join_cons2. intros H.
  apply String.app_inj in H. apply String.app_inj in H.
  rewrite !str_app_assoc in H.
  apply String.app_inj in H. apply String.app_inj in H.
  cbn in H. discriminate.
Qed.

(** The text of a part of one paragraph determines the paragraph. *)
Lemma part_single_inj (h : list string) (p q : string) :
  List.length h = 3 -> join blank (h ++ [p]) = join blank (h ++ [q]) -> p = q.
Proof.
  destruct h as [|a [|b [|c [|d h]]]]; try discriminate. intros _.
  cbn [app]. rewrite !join_cons2. intros H.
  repeat apply String.app_inj in H. exact H.
Qed.

(** C5, counterexample.  The section [long_section] yields a chunk of
    1007 tokens whose only paragraph has 998 tokens: the chunk exceeds
    the bound although its paragraph alone does not. *)
Lemma chunk_token_bound_counterexample :
  exists c, In c (createChunks guide [long_section]) /\
            ~ token_bound guide long_section c.
Proof.
  exists (mkChunk guide long_section "sec-1-b-1"
            (join blank (continuedHeader guide long_section ++ [long_paragraph]))).
  split.
  - vm_compute. right. left. reflexivity.
  - intros [Hle | (p & (h & Hh & Htext) & Hbig)].
    + apply Nat.leb_le in Hle. vm_compute in Hle. discriminate.
    + cbn [text mkChunk] in Htext.
      destruct Hh as [-> | ->].
      * symmetry in Htext. now apply headers_differ in Htext.
      * apply part_single_inj in Htext; [| reflexivity]. subst p.
        apply Nat.ltb_lt in Hbig. vm_compute in Hbig. discriminate.
Qed.

(** C5, as amended.  Every chunk of [createChunks] comes from one of the
    sections, carries the estimate of its own text, and keeps the bound
    of [MAX_CHUNK_TOKENS] unless it is a part holding at most one
    paragraph of that section; and a paragraph that alone exceeds the
    bound is emitted whole as the only paragraph of a chunk. *)
Theorem createChunks_token_bound (m : GuideMetadata) (sections : list Section) :
  Forall (fun c => exists section, In section sections /\ token_bound_kept m section c)
    (createChunks m sections) /\
  (forall section p,
     In section sections ->
     In p (split_paragraphs (content section)) ->
     MAX_CHUNK_TOKENS < estimateTokens p ->
     exists c, In c (createChunks m sections) /\ part_of m section c [p]).
Proof.
  split.
  - apply List.Forall_forall. intros c Hc.
    unfold createChunks in Hc. apply in_flat_map in Hc as (section & Hs & Hc).
    exists section. split; [exact Hs |].
    pose proof (createChunks_section_bound m section) as HF.
    rewrite List.Forall_forall in HF. now apply HF.
  - intros section p Hs Hp Hbig.
    destruct (oversized_paragraph_alone m section p Hp Hbig) as (c & Hc & Hpart).
    exists c. split; [| exact Hpart].
    unfold createChunks. apply in_flat_map. exists section. auto.
Qed.

(** The giant paragraph of [giant_section] is the only paragraph of one
    of its chunks. *)
Lemma createChunks_token_bound_witness :
  exists c, In c (createChunks guide [giant_section]) /\
            part_of guide giant_section c [giant_paragraph].
Proof.
  apply (proj2 (createChunks_token_bound guide [giant_section])).
  - now left.
  - vm_compute. left. reflexivity.
  - apply Nat.ltb_lt. vm_compute. reflexivity.
Defined.

(** C7, counterexample.  The section [short_section] has content and no
    chunk. *)
Lemma chunk_coverage_counterexample :
  ~ chunk_coverage guide short_section (createChunks guide [short_section]).
Proof.
  change (createChunks guide [short_section]) with (@nil Chunk).
  intros [(c & Hc & _) | (groups & HF & Hjoin)]; [discriminate |].
  inversion HF; subst. cbn in Hjoin. discriminate.
Qed.

(** C7, as amended.  A section of fewer than 100 characters has no
    chunk.  For any other section, either its one chunk is the context
    header followed by the content, or its chunks are parts whose
    paragraphs, joined in order with blank lines, are the content: each
    paragraph of the content is in one chunk, once, in order. *)
Theorem createChunks_coverage (m : GuideMetadata) (section : Section) :
  if (String.length (content section) <? 100)%nat
  then createChunks m [section] = []
  else chunk_coverage m section (createChunks m [section]).
Proof.
  rewrite createChunks_single. unfold createChunks_section.
  destruct (String.length (content section) <? 100)%nat; [reflexivity |].
  destruct (MAX_CHUNK_TOKENS <? estimateTokens (chunkText m section))%nat.
  - right. destruct (splitLargeSection_spec m section) as (groups & Hparts & Hcat).
    exists groups. split.
    + eapply Forall2_impl; [exact Hparts |]. now intros c g [H _].
    + rewrite Hcat. apply join_split_paragraphs.
  - left. eexists. split; [reflexivity |]. apply chunkText_wholeHeader.
Qed.

End ChunkerTheorems.

(** ** The section splitters *)

(** The lines [a], ..., [b - 1] of a list of lines. *)
Definition slice {A} (l : list A) (a b : nat) : list A := firstn (b - a) (skipn a l).

(** The lines, each followed by a line feed. *)
Definition unlines (ls : list string) : string :=
  String.concat "" (map (fun l => l +:+ nl) ls).

(** The lines from the first heading line on. *)
Fixpoint from_first_heading (lines : list string) : list string :=
  match lines with
  | [] => []
  | l :: rest =>
      match headerMatch l with
      | Some _ => lines
      | None => from_first_heading rest
      end
  end.

(** Sections that follow one another: [chain a l b] when the first
    section of [l] starts at line [a], every section ends at or after its
    start, the next one starts on the line after its end, and the line
    after the end of the last one is [b]. *)
Section Chain.
Context {A : Type} (first last : A -> nat).

Inductive chain : nat -> list A -> nat -> Prop :=
  | chain_nil a : chain a [] a
  | chain_cons a s l b :
      first s = a -> a <= last s -> chain (S (last s)) l b -> chain a (s :: l) b.

Lemma chain_snoc (a b : nat) (l : list A) (s : A) :
  chain a l b -> first s = b -> b <= last s -> chain a (l ++ [s]) (S (last s)).
Proof.
  induction 1 as [a | a s' l b Ha Hle Hc IH]; intros Hs Hb; cbn.
  - constructor; [exact Hs | exact Hb | constructor].
  - constructor; auto.
Qed.

(** In a chain every section lies between the ends of the chain, and a
    section that comes later starts after the end of an earlier one:
    the sections are ordered by start line and do not overlap. *)
Lemma chain_bounds (a b : nat) (l : list A) :
  chain a l b -> a <= b /\ Forall (fun s => a <= first s /\ last s < b) l.
Proof.
  induction 1 as [a | a s l b Ha Hle Hc [IH1 IH2]].
  - split; [lia | constructor].
  - split; [lia |]. constructor; [lia |].
    eapply List.Forall_impl; [| exact IH2]. cbn. intros x [H1 H2]. lia.
Qed.

Lemma chain_ordered (a b : nat) (l1 l2 : list A) (s t : A) :
  chain a (l1 ++ s :: l2) b -> In t l2 -> last s < first t.
Proof.
  revert a. induction l1 as [|x l1 IH]; intros a Hc Ht; cbn in Hc.
  - inversion Hc as [|? ? ? ? Ha Hle Hrest]; subst.
    apply chain_bounds in Hrest as [_ HF].
    rewrite List.Forall_forall in HF. destruct (HF t Ht). lia.
  - inversion Hc; subst. eauto.
Qed.

End Chain.

Lemma concat_empty_cons (x : string) (l : list string) :
  String.concat "" (x :: l) = x +:+ String.concat "" l.
Proof. destruct l; cbn; [now rewrite str_app_nil_r | reflexivity]. Qed.

Lemma concat_empty_app (l1 l2 : list string) :
  String.concat "" (l1 ++ l2) = String.concat "" l1 +:+ String.concat "" l2.
Proof.
  induction l1 as [|x l1 IH]; [reflexivity |].
  cbn [app]. now rewrite !concat_empty_cons, IH, str_app_assoc.
Qed.

Lemma unlines_cons (l : string) (ls : list string) :
  unlines (l :: ls) = l +:+ nl +:+ unlines ls.
Proof. unfold unlines. cbn [map]. now rewrite concat_empty_cons, str_app_assoc. Qed.

Lemma unlines_join (ls : list string) : ls <> [] -> unlines ls = join nl ls +:+ nl.
Proof.
  induction ls as [|l ls IH]; [congruence | intros _].
  rewrite unlines_cons. destruct ls as [|l' ls]; [reflexivity |].
  rewrite IH by discriminate. rewrite join_cons2. now rewrite !str_app_assoc.
Qed.

(** The lines of a text, each followed by a line feed, are the text and
    one more line feed. *)
Lemma unlines_split_lines (s : string) : unlines (split_lines s) = s +:+ nl.
Proof.
  rewrite unlines_join by apply split_on_nonempty.
  unfold split_lines, nl. now rewrite join_split_on.
Qed.

Section ParseMarkdown.
Import GuideProcessor.

(** The lines of the body. *)
Variable lines : list string.

(** The heading line of a section: the line numbered [start_line]. *)
Definition heading_line (s : Section) : string := nth (start_line s - 1) lines "".

(** A section as text: its heading line, a line feed, its content. *)
Definition render (s : Section) : string := heading_line s +:+ nl +:+ sec_content s.

Definition reconstruct (sections : list Section) : string :=
  String.concat "" (map render sections).

Lemma reconstruct_snoc (sections : list Section) (s : Section) :
  reconstruct (sections ++ [s]) = reconstruct sections +:+ render s.
Proof.
  unfold reconstruct. rewrite map_app, concat_empty_app. cbn. reflexivity.
Qed.

(** What the loop still has to add to the text of the closed sections. *)
Definition remaining (currentSection : option Section) (rest : list string) : string :=
  match currentSection with
  | Some c => render c +:+ unlines rest
  | None => unlines (from_first_heading rest)
  end.

Lemma reconstruct_pushSection (sections : list Section) (cur : option Section) (n : nat) :
  reconstruct (pushSection sections cur n) =
  reconstruct sections +:+ match cur with Some c => render c | None => "" end.
Proof.
  destruct cur as [c|]; cbn [pushSection].
  - now rewrite reconstruct_snoc.
  - now rewrite str_app_nil_r.
Qed.

Lemma parseMarkdown_loop_reconstruct (rest : list string) :
  forall (pre : list string) (sections : list Section) (cur : option Section),
    pre ++ rest = lines ->
    reconstruct (parseMarkdown_loop (List.length pre) rest sections cur) =
    reconstruct sections +:+ remaining cur rest.
Proof.
  induction rest as [|line rest IH]; intros pre sections cur Hlines.
  - cbn [parseMarkdown_loop]. rewrite reconstruct_pushSection.
    destruct cur; cbn [remaining from_first_heading]; unfold unlines; cbn;
      now rewrite ?str_app_nil_r.
  - cbn [parseMarkdown_loop]. cbn zeta.
    assert ((pre ++ [line]) ++ rest = lines) as Hlines'
      by (now rewrite <- app_assoc).
    assert (S (List.length pre) = List.length (pre ++ [line])) as Hlen
      by (rewrite length_app; cbn; lia).
    destruct (headerMatch line) as [[lvl ttl]|] eqn:Hm.
    + rewrite Hlen. rewrite (IH _ _ _ Hlines').
      rewrite reconstruct_pushSection.
      cbn [remaining]. unfold render at 2, heading_line. cbn [start_line sec_content].
      rewrite <- Hlen. replace (S (List.length pre) - 1) with (List.length pre) by lia.
      rewrite <- Hlines, nth_middle.
      rewrite !str_app_assoc. cbn [String.append]. 
      destruct cur as [c|]; cbn [remaining from_first_heading].
      * now rewrite unlines_cons.
      * now rewrite Hm, unlines_cons.
    + rewrite Hlen. rewrite (IH _ _ _ Hlines').
      destruct cur as [c|]; cbn [option_map remaining from_first_heading].
      * rewrite unlines_cons. unfold render, heading_line.
        cbn [add_content start_line sec_content].
        now rewrite ?str_app_assoc.
      * now rewrite Hm.
Qed.

End ParseMarkdown.

Section ParseMarkdownOrder.
Import GuideProcessor.

Lemma parseMarkdown_loop_chain_open (rest : list string) :
  forall (lineNum : nat) (sections : list Section) (c : Section) (a : nat),
    chain start_line end_line a sections (start_line c) ->
    start_line c <= lineNum ->
    chain start_line end_line a
      (parseMarkdown_loop lineNum rest sections (Some c))
      (S (lineNum + List.length rest)).
Proof.
  induction rest as [|line rest IH]; intros lineNum sections c a Hc Hle.
  - cbn [parseMarkdown_loop pushSection List.length]. rewrite Nat.add_0_r.
    change (S lineNum) with (S (end_line (set_end_line lineNum c))).
    eapply chain_snoc; [exact Hc | reflexivity | exact Hle].
  - cbn [parseMarkdown_loop List.length]. cbn zeta.
    replace (S (lineNum + S (List.length rest))) with (S (S lineNum + List.length rest)) by lia.
    destruct (headerMatch line) as [[lvl ttl]|].
    + apply IH; [| cbn; lia]. cbn [pushSection start_line].
      replace (S lineNum - 1) with lineNum by lia.
      change (S lineNum) with (S (end_line (set_end_line lineNum c))).
      eapply chain_snoc; [exact Hc | reflexivity | exact Hle].
    + cbn [option_map]. apply IH; [exact Hc | cbn; lia].
Qed.

Lemma parseMarkdown_loop_chain (rest : list string) :
  forall lineNum : nat,
    parseMarkdown_loop lineNum rest [] None = [] \/
    exists a, lineNum < a /\
      chain start_line end_line a (parseMarkdown_loop lineNum rest [] None)
        (S (lineNum + List.length rest)).
Proof.
  induction rest as [|line rest IH]; intros lineNum; [now left |].
  cbn [parseMarkdown_loop List.length]. cbn zeta.
  replace (S (lineNum + S (List.length rest))) with (S (S lineNum + List.length rest)) by lia.
  destruct (headerMatch line) as [[lvl ttl]|].
  - right. exists (S lineNum). split; [lia |].
    apply parseMarkdown_loop_chain_open; [constructor | cbn; lia].
  - cbn [option_map]. destruct (IH (S lineNum)) as [H | (a & Ha & Hc)]; [now left |].
    right. exists a. split; [lia | exact Hc].
Qed.

End ParseMarkdownOrder.

Lemma slice_prefix {A} (pre r : list A) (n : nat) :
  n <= List.length pre -> slice (pre ++ r) n (List.length pre) = skipn n pre.
Proof.
  intros Hn. unfold slice. rewrite skipn_app.
  replace (n - List.length pre) with 0 by lia. cbn [skipn].
  rewrite <- (length_skipn n pre). rewrite firstn_app, Nat.sub_diag, firstn_all.
  cbn [firstn]. apply app_nil_r.
Qed.

Section ExtractSections.
Import GuideProcessorDocs.

(** The lines of the body. *)
Variable lines : list string.

(** What [extractSections] records of a section: its heading line is
    the line numbered [startLine] (from 0), and its content is the lines
    after it, up to the line numbered [endLine], joined and trimmed. *)
Definition section_of_lines (s : Section) : Prop :=
  headerMatch (nth (startLine s) lines "") = Some (level s, sec_title s) /\
  sec_id s = generateSectionId (sec_title s) /\
  content s = trim (join nl (slice lines (S (startLine s)) (S (endLine s)))).

Lemma closeSection_of_lines (pre rest : list string) (c : PartialSection)
  (blocks : list CodeBlock) :
  pre ++ rest = lines ->
  p_startLine c < List.length pre ->
  headerMatch (nth (p_startLine c) lines "") = Some (p_level c, p_title c) ->
  p_id c = generateSectionId (p_title c) ->
  section_of_lines
    (closeSection c (skipn (S (p_startLine c)) pre) blocks (List.length pre - 1)).
Proof.
  intros Hl Hlt Hh Hid. unfold section_of_lines, closeSection.
  cbn [startLine level sec_title sec_id content endLine].
  split; [exact Hh |]. split; [exact Hid |].
  replace (S (List.length pre - 1)) with (List.length pre) by lia.
  rewrite <- Hl, slice_prefix by lia. reflexivity.
Qed.

Lemma extractSections_loop_open (rest : list string) :
  forall (pre : list string) (sections : list Section) (c : PartialSection)
         (sectionContent : list string) (blocks : list CodeBlock) (a : nat),
    pre ++ rest = lines ->
    Forall section_of_lines sections ->
    chain startLine endLine a sections (p_startLine c) ->
    p_startLine c < List.length pre ->
    headerMatch (nth (p_startLine c) lines "") = Some (p_level c, p_title c) ->
    p_id c = generateSectionId (p_title c) ->
    sectionContent = skipn (S (p_startLine c)) pre ->
    let out := extractSections_loop (List.length pre) rest sections (Some c)
                 sectionContent blocks in
    Forall section_of_lines out /\
    chain startLine endLine a out (List.length lines).
Proof.
  induction rest as [|line rest IH];
    intros pre sections c sectionContent blocks a Hl HF Hc Hlt Hh Hid ->; cbn zeta.
  - cbn [extractSections_loop saveSection].
    rewrite app_nil_r in Hl.
    split.
    + apply Forall_app. split; [exact HF |]. constructor; [| constructor].
      apply (closeSection_of_lines pre []); auto. now rewrite app_nil_r.
    + replace (List.length lines) with
        (S (endLine (closeSection c (skipn (S (p_startLine c)) pre) blocks
                       (List.length pre - 1))))
        by (cbn [closeSection endLine]; rewrite <- Hl; lia).
      eapply chain_snoc; [exact Hc | reflexivity | cbn; lia].
  - assert ((pre ++ [line]) ++ rest = lines) as Hl' by (now rewrite <- app_assoc).
    assert (S (List.length pre) = List.length (pre ++ [line])) as Hlen
      by (rewrite length_app; cbn; lia).
    cbn [extractSections_loop].
    destruct (headerMatch line) as [[lvl ttl]|] eqn:Hm.
    + rewrite Hlen. apply IH; auto.
      * cbn [saveSection]. apply Forall_app. split; [exact HF |].
        constructor; [| constructor].
        apply (closeSection_of_lines pre (line :: rest)); auto.
      * cbn [saveSection p_startLine].
        replace (List.length pre) with
          (S (endLine (closeSection c (skipn (S (p_startLine c)) pre) blocks
                         (List.length pre - 1)))) at 2
          by (cbn [closeSection endLine]; lia).
        eapply chain_snoc; [exact Hc | reflexivity | cbn; lia].
      * cbn. lia.
      * cbn [p_startLine p_level p_title]. rewrite <- Hl, nth_middle. exact Hm.
      * cbn [p_startLine]. symmetry. apply skipn_all2. lia.
    + rewrite Hlen. apply IH; auto; [lia |].
      rewrite skipn_app. replace (S (p_startLine c) - List.length pre) with 0 by lia.
      reflexivity.
Qed.

Lemma extractSections_loop_closed (rest : list string) :
  forall (pre sectionContent : list string) (blocks : list CodeBlock),
    pre ++ rest = lines ->
    let out := extractSections_loop (List.length pre) rest [] None sectionContent blocks in
    Forall section_of_lines out /\
    (out = [] \/ exists a, chain startLine endLine a out (List.length lines)).
Proof.
  induction rest as [|line rest IH]; intros pre sectionContent blocks Hl; cbn zeta.
  - cbn. split; [constructor | now left].
  - assert ((pre ++ [line]) ++ rest = lines) as Hl' by (now rewrite <- app_assoc).
    assert (S (List.length pre) = List.length (pre ++ [line])) as Hlen
      by (rewrite length_app; cbn; lia).
    cbn [extractSections_loop].
    destruct (headerMatch line) as [[lvl ttl]|] eqn:Hm.
    + rewrite Hlen. cbn [saveSection].
      edestruct (extractSections_loop_open rest (pre ++ [line]) []) as [H1 H2];
        [exact Hl' | constructor | constructor | | | | |
         split; [exact H1 | right; eexists; exact H2]].
      * cbn [p_startLine]. lia.
      * cbn [p_startLine p_level p_title]. rewrite <- Hl, nth_middle. exact Hm.
      * reflexivity.
      * cbn [p_startLine]. symmetry. apply skipn_all2. lia.
    + rewrite Hlen. now apply IH.
Qed.

End ExtractSections.

Section SectionCoverage.

(** The sections of [GuideParser.extractSections] as text: heading lines
    and contents, in order, one per line. *)
Definition reconstruct_docs (lines : list string)
  (sections : list GuideProcessorDocs.Section) : string :=
  join nl (flat_map (fun s => [nth (GuideProcessorDocs.startLine s) lines "";
                               GuideProcessorDocs.content s]) sections).

(** C6, counterexample.  A body that starts with a heading, followed by
    a blank line and one line of text: the sections of [parseMarkdown]
    give the body and one more line feed, those of [extractSections]
    have lost the blank line. *)
Lemma section_coverage_counterexample :
  let body := "## A" +:+ nl +:+ nl +:+ "foo" in
  let lines := split_lines body in
  from_first_heading lines = lines /\
  reconstruct lines (GuideProcessor.parseMarkdown body) = body +:+ nl /\
  reconstruct lines (GuideProcessor.parseMarkdown body) <> body /\
  reconstruct_docs lines (GuideProcessorDocs.extractSections body)
    = "## A" +:+ nl +:+ "foo" /\
  reconstruct_docs lines (GuideProcessorDocs.extractSections body) <> body.
Proof.
  vm_compute. repeat split; discriminate.
Qed.

(** C6, as amended.  With [parseMarkdown], the heading line of each
    section, a line feed and its content, concatenated in order, are the
    lines of the body from its first heading line on, each followed by a
    line feed (the whole body and one more line feed when the body starts
    with a heading); the sections follow one another from the first
    heading to the last line, numbered from 1.  With [extractSections],
    the heading of a section is the line numbered [startLine], its
    content is the lines after it up to [endLine], joined and trimmed,
    and the sections follow one another up to the last line, numbered
    from 0.  In both, a section starts after the end of the section
    before it. *)
Theorem section_coverage (body : string) :
  let lines := split_lines body in
  reconstruct lines (GuideProcessor.parseMarkdown body)
    = unlines (from_first_heading lines) /\
  unlines lines = body +:+ nl /\
  (GuideProcessor.parseMarkdown body = [] \/
   exists a, 1 <= a /\
     chain GuideProcessor.start_line GuideProcessor.end_line a
       (GuideProcessor.parseMarkdown body) (S (List.length lines))) /\
  Forall (section_of_lines lines) (GuideProcessorDocs.extractSections body) /\
  (GuideProcessorDocs.extractSections body = [] \/
   exists a,
     chain GuideProcessorDocs.startLine GuideProcessorDocs.endLine a
       (GuideProcessorDocs.extractSections body) (List.length lines)).
Proof.
  cbn zeta. split; [| split; [| split]].
  - unfold GuideProcessor.parseMarkdown.
    exact (parseMarkdown_loop_reconstruct (split_lines body) (split_lines body) []
             [] None eq_refl).
  - apply unlines_split_lines.
  - unfold GuideProcessor.parseMarkdown.
    destruct (parseMarkdown_loop_chain (split_lines body) 0) as [H | (a & Ha & Hc)];
      [now left | right].
    exists a. split; [lia | exact Hc].
  - unfold GuideProcessorDocs.extractSections.
    exact (extractSections_loop_closed (split_lines body) (split_lines body) [] [] []
             eq_refl).
Qed.

End SectionCoverage.

(** ** Stable sorting *)

Section StableSortFacts.
Context {A : Type} (goes_before : A -> A -> bool).

Lemma insert_sorted_perm (x : A) (l : list A) :
  Permutation (insert_sorted goes_before x l) (x :: l).
Proof.
  induction l as [|y l IH]; cbn; [reflexivity |].
  destruct (goes_before y x); [| reflexivity].
  rewrite IH. apply perm_swap.
Qed.

Lemma stable_sort_perm (l : list A) : Permutation (stable_sort goes_before l) l.
Proof.
  induction l as [|x l IH]; cbn; [reflexivity |].
  rewrite insert_sorted_perm. now constructor.
Qed.

(** Elements that no element goes before keep their order: filtering
    the sorted list by a class [c] of elements that do not go before one
    another gives the class in its original order. *)
Lemma insert_sorted_filter (c : A -> bool) (x : A) (l : list A) :
  (forall y, c x = true -> c y = true -> goes_before y x = false) ->
  List.filter c (insert_sorted goes_before x l) = List.filter c (x :: l).
Proof.
  intros Hc. induction l as [|y l IH]; [reflexivity |].
  cbn [insert_sorted]. destruct (goes_before y x) eqn:E; [| reflexivity].
  cbn [List.filter] in *. rewrite IH.
  destruct (c x) eqn:Hx, (c y) eqn:Hy; try reflexivity.
  rewrite (Hc y eq_refl Hy) in E. discriminate.
Qed.

Lemma stable_sort_filter (c : A -> bool) (l : list A) :
  (forall x y, c x = true -> c y = true -> goes_before y x = false) ->
  List.filter c (stable_sort goes_before l) = List.filter c l.
Proof.
  intros Hc. induction l as [|x l IH]; [reflexivity |].
  cbn [stable_sort foldr]. fold (stable_sort goes_before l).
  rewrite insert_sorted_filter by (intros y; apply Hc).
  cbn [List.filter]. now rewrite IH.
Qed.

(** The sorted list is ordered by any transitive relation that holds
    between [y] and [x] when [y] goes before [x], and between [x] and
    [y] when it does not. *)
Variable R : A -> A -> Prop.
Hypothesis R_trans : forall x y z, R x y -> R y z -> R x z.
Hypothesis R_before : forall x y, goes_before y x = true -> R y x.
Hypothesis R_stay : forall x y, goes_before y x = false -> R x y.

Lemma insert_sorted_sorted (x : A) (l : list A) :
  StronglySorted R l -> StronglySorted R (insert_sorted goes_before x l).
Proof.
  induction 1 as [|y l Hs IH Hy]; cbn; [repeat constructor |].
  destruct (goes_before y x) eqn:E.
  - constructor; [exact IH |].
    apply List.Forall_forall. intros z Hz.
    apply (Permutation_in _ (insert_sorted_perm x l)) in Hz.
    destruct Hz as [<- | Hz]; [now apply R_before |].
    rewrite List.Forall_forall in Hy. now apply Hy.
  - constructor; [now constructor |].
    constructor; [now apply R_stay |].
    eapply List.Forall_impl; [| exact Hy]. intros z Hz. cbn.
    eapply R_trans; [apply R_stay; exact E | exact Hz].
Qed.

Lemma stable_sort_sorted (l : list A) : StronglySorted R (stable_sort goes_before l).
Proof.
  induction l as [|x l IH]; cbn; [constructor |].
  now apply insert_sorted_sorted.
Qed.

End StableSortFacts.

(** ** Numbers: what rounding keeps *)

Section NumberFacts.
Import JsNumber.
Local Open Scope Q_scope.

(** The doubles are multiples of [2^-1074]. *)
Definition on_grid (x : Q) : Prop := exists k : Z, x == k # (2 ^ 1074).

Lemma nearest_even_floor (n d : Z) : (0 < d)%Z -> (n / d <= nearest_even n d)%Z.
Proof.
  intros Hd. unfold nearest_even.
  destruct (2 * (n mod d) ?= d)%Z; [destruct (Z.even (n / d)) | |]; lia.
Qed.

Lemma nearest_even_pos (n d : Z) : (0 < d <= n)%Z -> (1 <= nearest_even n d)%Z.
Proof.
  intros [Hd Hn]. pose proof (nearest_even_floor n d Hd) as Hf.
  assert (1 <= n / d)%Z; [| lia].
  apply Z.div_le_lower_bound; lia.
Qed.

Lemma ilog2_le (n d : Z) : (ilog2 n d <= Z.log2 n - Z.log2 d)%Z.
Proof. unfold ilog2. destruct (at_least_pow2 n d _); lia. Qed.

Lemma overflow_pos (x : Q) : 0 < x -> 0 < overflow x.
Proof.
  intros Hx. unfold overflow. destruct (Qle_bool infinity x); [reflexivity | exact Hx].
Qed.

Lemma to_pos_pow2 (e : Z) : (0 <= e)%Z -> Zpos (Z.to_pos (2 ^ e)) = (2 ^ e)%Z.
Proof. intros He. apply Z2Pos.id. now apply Z.pow_pos_nonneg. Qed.

(** On a positive multiple of [2^-1074] the nearest double is positive:
    the difference of two doubles does not round to zero. *)
Lemma round_pos_positive (n d k : Z) :
  (0 < n)%Z -> (0 < d)%Z -> (n * 2 ^ 1074 = k * d)%Z -> 0 < round_pos n d.
Proof.
  intros Hn Hd Hk. unfold round_pos. apply overflow_pos.
  pose proof (ilog2_le n d) as Hl.
  pose proof (Z.log2_spec n Hn) as [Hn1 Hn2].
  pose proof (Z.log2_spec d Hd) as [Hd1 Hd2].
  pose proof (Z.log2_nonneg n) as Hln. pose proof (Z.log2_nonneg d) as Hld.
  set (e := Z.max (ilog2 n d - 52) (-1074)).
  assert (e = (-1074)%Z \/ (-1074 < e /\ e <= Z.log2 n - Z.log2 d - 52)%Z) as [He | He] by lia.
  - rewrite He. change (0 <=? -1074)%Z with false. change (- -1074)%Z with 1074%Z.
    cbn iota.
    assert (0 < k)%Z as Hkpos by (assert (0 < 2 ^ 1074)%Z by (now apply Z.pow_pos_nonneg); nia).
    assert (1 <= nearest_even (n * 2 ^ 1074) d)%Z as Hm.
    { apply nearest_even_pos. split; [exact Hd |]. rewrite Hk. nia. }
    unfold Qlt. cbn [Qnum Qden]. lia.
  - destruct (0 <=? e)%Z eqn:Hs.
    + apply Z.leb_le in Hs.
      assert (0 < 2 ^ e)%Z as Hp by (now apply Z.pow_pos_nonneg).
      assert (1 <= nearest_even n (d * 2 ^ e))%Z as Hm.
      { apply nearest_even_pos. split; [nia |].
        assert (d * 2 ^ e <= 2 ^ (Z.succ (Z.log2 d)) * 2 ^ e)%Z as H1 by nia.
        rewrite <- Z.pow_add_r in H1 by lia.
        assert (2 ^ (Z.succ (Z.log2 d) + e) <= 2 ^ Z.log2 n)%Z as H2
          by (apply Z.pow_le_mono_r; lia).
        lia. }
      unfold Qlt, inject_Z. cbn [Qnum Qden]. nia.
    + apply Z.leb_gt in Hs.
      assert (0 < 2 ^ (- e))%Z as Hp by (apply Z.pow_pos_nonneg; lia).
      assert (1 <= nearest_even (n * 2 ^ (- e)) d)%Z as Hm.
      { apply nearest_even_pos. split; [exact Hd |].
        assert (2 ^ Z.log2 n * 2 ^ (- e) <= n * 2 ^ (- e))%Z as H1 by nia.
        rewrite <- Z.pow_add_r in H1 by lia.
        assert (2 ^ (Z.succ (Z.log2 d)) <= 2 ^ (Z.log2 n + - e))%Z as H2
          by (apply Z.pow_le_mono_r; lia).
        lia. }
      unfold Qlt. cbn [Qnum Qden]. lia.
Qed.

Lemma nearest_even_nonneg (n d : Z) : (0 <= n)%Z -> (0 < d)%Z -> (0 <= nearest_even n d)%Z.
Proof.
  intros Hn Hd. pose proof (nearest_even_floor n d Hd).
  pose proof (Z.div_pos n d Hn Hd). lia.
Qed.

Lemma overflow_nonneg (x : Q) : 0 <= x -> 0 <= overflow x.
Proof.
  intros Hx. unfold overflow. destruct (Qle_bool infinity x); [discriminate | exact Hx].
Qed.

Lemma round_pos_nonneg (n d : Z) : (0 < n)%Z -> (0 < d)%Z -> 0 <= round_pos n d.
Proof.
  intros Hn Hd. unfold round_pos. apply overflow_nonneg.
  set (e := Z.max (ilog2 n d - 52) (-1074)).
  destruct (0 <=? e)%Z eqn:Hs.
  - apply Z.leb_le in Hs.
    assert (0 < 2 ^ e)%Z as Hp by (now apply Z.pow_pos_nonneg).
    pose proof (nearest_even_nonneg n (d * 2 ^ e)) as Hm.
    unfold Qle, inject_Z. cbn [Qnum Qden]. nia.
  - apply Z.leb_gt in Hs.
    assert (0 < 2 ^ (- e))%Z as Hp by (apply Z.pow_pos_nonneg; lia).
    pose proof (nearest_even_nonneg (n * 2 ^ (- e)) d) as Hm.
    unfold Qle. cbn [Qnum Qden]. nia.
Qed.

Lemma overflow_on_grid (x : Q) : on_grid x -> on_grid (overflow x).
Proof.
  intros Hx. unfold overflow. destruct (Qle_bool infinity x); [| exact Hx].
  exists (2 ^ 1024 * 2 ^ 1074)%Z. unfold infinity, inject_Z, Qeq. cbn [Qnum Qden]. lia.
Qed.

Lemma round_pos_on_grid (n d : Z) : on_grid (round_pos n d).
Proof.
  unfold round_pos. apply overflow_on_grid.
  set (e := Z.max (ilog2 n d - 52) (-1074)).
  destruct (0 <=? e)%Z eqn:Hs.
  - exists (nearest_even n (d * 2 ^ e) * 2 ^ e * 2 ^ 1074)%Z.
    unfold inject_Z, Qeq. cbn [Qnum Qden]. lia.
  - apply Z.leb_gt in Hs.
    exists (nearest_even (n * 2 ^ (- e)) d * 2 ^ (1074 + e))%Z.
    unfold Qeq. cbn [Qnum Qden]. rewrite to_pos_pow2 by lia.
    change (Zpos (2 ^ 1074)) with (2 ^ 1074)%Z.
    replace (2 ^ 1074)%Z with (2 ^ (1074 + e) * 2 ^ (- e))%Z at 1
      by (rewrite <- Z.pow_add_r by lia; f_equal; lia).
    ring.
Qed.

Lemma on_grid_opp (x : Q) : on_grid x -> on_grid (- x).
Proof.
  intros [k Hk]. exists (- k)%Z. rewrite Hk. unfold Qeq, Qopp. cbn [Qnum Qden]. lia.
Qed.

Lemma on_grid_minus (x y : Q) : on_grid x -> on_grid y -> on_grid (x - y).
Proof.
  intros [k Hk] [j Hj]. exists (k - j)%Z. rewrite Hk, Hj.
  unfold Qeq, Qminus, Qplus, Qopp. cbn [Qnum Qden]. 
  rewrite Pos2Z.inj_mul. ring.
Qed.

Lemma round_on_grid (x : Q) : on_grid (round x).
Proof.
  unfold round. destruct (Qnum x).
  - exists 0%Z. reflexivity.
  - apply round_pos_on_grid.
  - apply on_grid_opp, round_pos_on_grid.
Qed.

(** Rounding keeps the sign of a difference of doubles. *)
Lemma round_sign (x : Q) : on_grid x -> (0 < round x <-> 0 < x).
Proof.
  intros [k Hk]. unfold round. destruct x as [n d]. cbn [Qnum Qden].
  unfold Qeq in Hk. cbn [Qnum Qden] in Hk.
  destruct n as [|n|n].
  - split; intros H; discriminate H.
  - split; intros _; [reflexivity |].
    apply (round_pos_positive _ _ k); [lia | lia | exact Hk].
  - split; intros H; [| discriminate H]. exfalso.
    pose proof (round_pos_nonneg (Zpos n) (Zpos d) eq_refl eq_refl) as H0. lra.
Qed.

Lemma minus_sign (x y : Q) : on_grid x -> on_grid y -> (0 < minus y x <-> x < y).
Proof.
  intros Hx Hy. unfold minus. rewrite round_sign by now apply on_grid_minus.
  split; intros H; lra.
Qed.


Lemma ilog2_lower (n d : Z) :
  (0 < n)%Z -> (0 < d)%Z ->
  if (0 <=? ilog2 n d)%Z then (d * 2 ^ ilog2 n d <= n)%Z
  else (d <= n * 2 ^ (- ilog2 n d))%Z.
Proof.
  intros Hn Hd. unfold ilog2.
  pose proof (Z.log2_spec n Hn) as [Hn1 Hn2].
  pose proof (Z.log2_spec d Hd) as [Hd1 Hd2].
  pose proof (Z.log2_nonneg n) as Hln. pose proof (Z.log2_nonneg d) as Hld.
  set (l := (Z.log2 n - Z.log2 d)%Z) in *.
  destruct (at_least_pow2 n d l) eqn:Ht.
  - unfold at_least_pow2 in Ht. destruct (0 <=? l)%Z; [now apply Z.leb_le | now apply Z.leb_le].
  - destruct (0 <=? l - 1)%Z eqn:Hs.
    + apply Z.leb_le in Hs.
      assert (0 < 2 ^ (l - 1))%Z as Hp by (apply Z.pow_pos_nonneg; lia).
      assert (d * 2 ^ (l - 1) <= 2 ^ (Z.succ (Z.log2 d)) * 2 ^ (l - 1))%Z as H1 by nia.
      rewrite <- Z.pow_add_r in H1 by lia.
      replace (Z.succ (Z.log2 d) + (l - 1))%Z with (Z.log2 n) in H1 by lia. lia.
    + apply Z.leb_gt in Hs.
      assert (0 < 2 ^ (- (l - 1)))%Z as Hp by (apply Z.pow_pos_nonneg; lia).
      assert (2 ^ Z.log2 n * 2 ^ (- (l - 1)) <= n * 2 ^ (- (l - 1)))%Z as H1 by nia.
      rewrite <- Z.pow_add_r in H1 by lia.
      replace (Z.log2 n + - (l - 1))%Z with (Z.succ (Z.log2 d)) in H1 by lia. lia.
Qed.

Lemma nearest_even_exact (m d : Z) : (0 < d)%Z -> nearest_even (m * d) d = m.
Proof.
  intros Hd. unfold nearest_even.
  rewrite Z.mod_mul by lia. rewrite Z.div_mul by lia.
  assert ((2 * 0 ?= d)%Z = Lt) as -> by (apply Z.compare_lt_iff; lia).
  reflexivity.
Qed.

Lemma overflow_below (x : Q) : x < infinity -> overflow x = x.
Proof.
  intros Hx. unfold overflow. destruct (Qle_bool infinity x) eqn:E; [| reflexivity].
  apply Qle_bool_iff in E. lra.
Qed.

(** [n / d = m * 2^e], on integers. *)
Definition scaled (n d m e : Z) : Prop :=
  if (0 <=? e)%Z then (n = m * 2 ^ e * d)%Z else (n * 2 ^ (- e) = m * d)%Z.

Lemma ilog2_upper (n d m e : Z) :
  (0 < n)%Z -> (0 < d)%Z -> (0 < m < 2 ^ 53)%Z -> scaled n d m e ->
  (ilog2 n d - 52 <= e)%Z.
Proof.
  intros Hn Hd Hm Hx.
  pose proof (ilog2_lower n d Hn Hd) as Hl.
  set (i := ilog2 n d) in *.
  assert (d * 2 ^ Z.max i 0 <= n * 2 ^ Z.max (- i) 0)%Z as Hl'.
  { destruct (0 <=? i)%Z eqn:Hs; [apply Z.leb_le in Hs | apply Z.leb_gt in Hs].
    - rewrite (Z.max_l i 0), (Z.max_r (- i) 0) by lia. cbn [Z.pow]. lia.
    - rewrite (Z.max_r i 0), (Z.max_l (- i) 0) by lia. cbn [Z.pow]. lia. }
  assert (n * 2 ^ Z.max (- e) 0 = m * d * 2 ^ Z.max e 0)%Z as Hx'.
  { unfold scaled in Hx.
    destruct (0 <=? e)%Z eqn:Hs; [apply Z.leb_le in Hs | apply Z.leb_gt in Hs].
    - rewrite (Z.max_l e 0), (Z.max_r (- e) 0) by lia. cbn [Z.pow]. lia.
    - rewrite (Z.max_r e 0), (Z.max_l (- e) 0) by lia. cbn [Z.pow]. lia. }
  clear Hl Hx.
  set (ip := Z.max i 0) in *. set (im := Z.max (- i) 0) in *.
  set (ep := Z.max e 0) in *. set (em := Z.max (- e) 0) in *.
  assert (0 < 2 ^ ip /\ 0 < 2 ^ im /\ 0 < 2 ^ ep /\ 0 < 2 ^ em)%Z as (Pip & Pim & Pep & Pem)
    by (repeat split; apply Z.pow_pos_nonneg; lia).
  assert (d * (2 ^ ip * 2 ^ em) <= d * (m * (2 ^ ep * 2 ^ im)))%Z as H1.
  { transitivity (n * 2 ^ im * 2 ^ em)%Z; [nia |].
    replace (n * 2 ^ im * 2 ^ em)%Z with (n * 2 ^ em * 2 ^ im)%Z by ring.
    rewrite Hx'. apply Z.eq_le_incl. ring. }
  apply Z.mul_le_mono_pos_l in H1; [| exact Hd].
  assert (2 ^ (ip + em) < 2 ^ (53 + (ep + im)))%Z as H2.
  { rewrite !Z.pow_add_r by lia. nia. }
  apply Z.pow_lt_mono_r_iff in H2; lia.
Qed.

(** A positive double is the double nearest to itself. *)
Lemma round_pos_exact (n d m e : Z) :
  (0 < n)%Z -> (0 < d)%Z -> (0 < m < 2 ^ 53)%Z -> (-1074 <= e <= 971)%Z ->
  scaled n d m e -> round_pos n d == n # Z.to_pos d.
Proof.
  intros Hn Hd Hm He Hx.
  pose proof (ilog2_upper n d m e Hn Hd Hm Hx) as Hle.
  unfold round_pos.
  set (e' := Z.max (ilog2 n d - 52) (-1074)).
  assert (e' <= e)%Z as Hee by lia.
  assert (0 < 2 ^ (e - e'))%Z as Pd by (apply Z.pow_pos_nonneg; lia).
  unfold scaled in Hx.
  destruct (0 <=? e')%Z eqn:Hs; [apply Z.leb_le in Hs | apply Z.leb_gt in Hs].
  - assert (0 <= e)%Z as He0 by lia. apply Z.leb_le in He0 as He0'. rewrite He0' in Hx.
    assert (0 < 2 ^ e')%Z as Pe by (now apply Z.pow_pos_nonneg).
    assert (2 ^ e = 2 ^ (e - e') * 2 ^ e')%Z as Hpow
      by (rewrite <- Z.pow_add_r by lia; f_equal; lia).
    replace n with (m * 2 ^ (e - e') * (d * 2 ^ e'))%Z at 1 by (rewrite Hx, Hpow; ring).
    rewrite nearest_even_exact by nia.
    rewrite overflow_below.
    + unfold Qeq, inject_Z. cbn [Qnum Qden]. rewrite Z2Pos.id by lia.
      rewrite Hx, Hpow. ring.
    + unfold infinity, Qlt, inject_Z. cbn [Qnum Qden].
      assert (m * 2 ^ (e - e') * 2 ^ e' = m * 2 ^ e)%Z as -> by (rewrite Hpow; ring).
      assert (2 ^ e <= 2 ^ 971)%Z by (apply Z.pow_le_mono_r; lia).
      assert (0 < 2 ^ e)%Z by (apply Z.pow_pos_nonneg; lia).
      change (2 ^ 1024)%Z with (2 ^ 53 * 2 ^ 971)%Z. nia.
  - assert (0 < 2 ^ (- e'))%Z as Pe by (apply Z.pow_pos_nonneg; lia).
    assert (n * 2 ^ (- e') = m * 2 ^ (e - e') * d)%Z as HN.
    { destruct (0 <=? e)%Z eqn:Hs'; [apply Z.leb_le in Hs' | apply Z.leb_gt in Hs'].
      - replace (2 ^ (e - e'))%Z with (2 ^ e * 2 ^ (- e'))%Z
          by (rewrite <- Z.pow_add_r by lia; f_equal; lia).
        rewrite Hx. ring.
      - replace (2 ^ (- e'))%Z with (2 ^ (- e) * 2 ^ (e - e'))%Z
          by (rewrite <- Z.pow_add_r by lia; f_equal; lia).
        rewrite Z.mul_assoc, Hx. ring. }
    rewrite HN, nearest_even_exact by exact Hd.
    rewrite overflow_below.
    + unfold Qeq. cbn [Qnum Qden]. rewrite !Z2Pos.id by lia. lia.
    + unfold infinity, Qlt, inject_Z. cbn [Qnum Qden]. rewrite Z2Pos.id by lia.
      rewrite Z.mul_1_r.
      assert (2 ^ (e - e') <= 2 ^ (971 - e'))%Z by (apply Z.pow_le_mono_r; lia).
      replace (2 ^ 1024 * 2 ^ (- e'))%Z with (2 ^ 53 * 2 ^ (971 - e'))%Z.
      * assert (0 < 2 ^ (971 - e'))%Z by (apply Z.pow_pos_nonneg; lia). nia.
      * rewrite <- !Z.pow_add_r by lia. f_equal. lia.
Qed.

Lemma finite_scaled (x : Q) :
  finite x -> exists m e, (Z.abs m < 2 ^ 53)%Z /\ (-1074 <= e <= 971)%Z /\
                     scaled (Qnum x) (Zpos (Qden x)) m e.
Proof.
  intros (m & e & Hm & He & Hx). exists m, e. split; [exact Hm |]. split; [exact He |].
  unfold scaled, pow2 in *. destruct x as [n d]. cbn [Qnum Qden].
  destruct (0 <=? e)%Z eqn:Hs.
  - unfold Qeq, Qmult, inject_Z in Hx. cbn [Qnum Qden] in Hx. lia.
  - apply Z.leb_gt in Hs. unfold Qeq, Qmult, inject_Z in Hx. cbn [Qnum Qden] in Hx.
    rewrite Pos2Z.inj_mul in Hx. rewrite Z2Pos.id in Hx by (apply Z.pow_pos_nonneg; lia).
    lia.
Qed.

(** A double is the double nearest to itself. *)
Lemma round_finite (x : Q) : finite x -> round x == x.
Proof.
  intros Hx. destruct (finite_scaled x Hx) as (m & e & Hm & He & Hs).
  unfold round. destruct x as [n d]. cbn [Qnum Qden] in *.
  assert (0 < 2 ^ Z.max e 0 /\ 0 < 2 ^ Z.max (- e) 0)%Z as [P1 P2]
    by (split; apply Z.pow_pos_nonneg; lia).
  destruct n as [|n|n].
  - reflexivity.
  - rewrite (round_pos_exact _ _ m e); [reflexivity | lia | lia | | exact He | exact Hs].
    split; [| lia].
    unfold scaled in Hs. destruct (0 <=? e)%Z eqn:E.
    + apply Z.leb_le in E. assert (0 < 2 ^ e)%Z by (now apply Z.pow_pos_nonneg). nia.
    + apply Z.leb_gt in E. assert (0 < 2 ^ (- e))%Z by (apply Z.pow_pos_nonneg; lia). nia.
  - rewrite (round_pos_exact _ _ (- m) e); [reflexivity | lia | lia | | exact He |].
    + split; [| lia].
      unfold scaled in Hs. destruct (0 <=? e)%Z eqn:E.
      * apply Z.leb_le in E. assert (0 < 2 ^ e)%Z by (now apply Z.pow_pos_nonneg). nia.
      * apply Z.leb_gt in E. assert (0 < 2 ^ (- e))%Z by (apply Z.pow_pos_nonneg; lia). nia.
    + unfold scaled in *. destruct (0 <=? e)%Z; lia.
Qed.

Lemma times_one (x : Q) : finite x -> times x 1 == x.
Proof.
  intros (m & e & Hm & He & Hx). unfold times.
  rewrite round_finite; [apply Qmult_1_r |].
  exists m, e. split; [exact Hm |]. split; [exact He |]. now rewrite Qmult_1_r.
Qed.

End NumberFacts.

(** The operations agree with those of the Standard Library's
    specification of IEEE 754, at 53 bits of precision and a largest
    exponent of 1024, on a product that is rounded up, on a difference
    and on products of the smallest double that tie. *)
Section NumberChecks.
Import JsNumber.

Definition value_of (x : SpecFloat.spec_float) : Q :=
  match x with
  | SpecFloat.S754_finite s m e =>
      (if s then - inject_Z (Zpos m) else inject_Z (Zpos m)) * pow2 e
  | _ => 0
  end.

Definition float (m : positive) (e : Z) : SpecFloat.spec_float :=
  SpecFloat.S754_finite false m e.

Example round_literal : value_of (float 4953959590107546 (-52)) == round (11 # 10).
Proof. vm_compute. reflexivity. Qed.

Example times_rounds_up :
  value_of (SpecFloat.SFmul 53 1024 (float 3 0) (float 4953959590107546 (-52)))
  == times 3 (round (11 # 10)).
Proof. vm_compute. reflexivity. Qed.

Example minus_rounds :
  value_of (SpecFloat.SFsub 53 1024 (float 1 (-1074)) (float 4953959590107546 (-52)))
  == minus (pow2 (-1074)) (round (11 # 10)).
Proof. vm_compute. reflexivity. Qed.

Example times_ties :
  value_of (SpecFloat.SFmul 53 1024 (float 1 (-1)) (float 1 (-1074)))
  == times (1 # 2) (pow2 (-1074)) /\
  value_of (SpecFloat.SFmul 53 1024 (float 3 (-1)) (float 1 (-1074)))
  == times (3 # 2) (pow2 (-1074)) /\
  value_of (SpecFloat.SFmul 53 1024 (float 5 (-1)) (float 1 (-1074)))
  == times (5 # 2) (pow2 (-1074)) /\
  value_of (SpecFloat.SFmul 53 1024 (float 9007199254740991 0) (float 9007199254740991 (-52)))
  == times (inject_Z 9007199254740991) (9007199254740991 # 4503599627370496).
Proof. vm_compute. repeat split; reflexivity. Qed.

End NumberChecks.

(** ** The merge of the hybrid search *)

Section MergeFacts.
Import GuideSearchService.

Definition tag_keyword (r : SearchResult) : Tagged := {| result := r; source := keyword |}.
Definition tag_semantic (r : SearchResult) : Tagged := {| result := r; source := semantic |}.

(** The results of both lookups with their source, keyword results
    first: the array that [mergeResults] sorts. *)
Definition tagged (keywordResults semanticResults : list SearchResult) : list Tagged :=
  map tag_keyword keywordResults ++ map tag_semantic semanticResults.

Definition pairOf (r : Tagged) : string * string :=
  (guideId (result r), sectionId (result r)).

(** The first occurrence of every key not in [seen], in order. *)
Fixpoint first_occurrences (seen : gset string) (l : list Tagged) : list Tagged :=
  match l with
  | [] => []
  | r :: rest =>
      if bool_decide (keyOf r ∈ seen) then first_occurrences seen rest
      else r :: first_occurrences ({[keyOf r]} ∪ seen) rest
  end.

(** Descending order of combined score. *)
Definition descending (l : list Tagged) : Prop :=
  StronglySorted (fun a b => (boosted b <= boosted a)%Q) l.

Definition goes_before (y x : Tagged) : bool := negb (Qle_bool (compareFn x y) 0).

(** A combined score is a double. *)
Lemma boosted_on_grid (r : Tagged) : on_grid (boosted r).
Proof. apply round_on_grid. Qed.

(** The sign of the comparator is the order of the combined scores:
    the difference of two doubles is rounded, and keeps its sign. *)
Lemma goes_before_lt (x y : Tagged) :
  goes_before y x = true <-> (boosted x < boosted y)%Q.
Proof.
  unfold goes_before, compareFn. rewrite negb_true_iff.
  rewrite <- (minus_sign (boosted x) (boosted y))
    by apply boosted_on_grid.
  split.
  - intros H. apply Qnot_le_lt. intros Hle.
    apply Qle_bool_iff in Hle. congruence.
  - intros H. destruct (Qle_bool (JsNumber.minus (boosted y) (boosted x)) 0) eqn:E;
      [| reflexivity].
    apply Qle_bool_iff in E. lra.
Qed.

Lemma goes_before_ge (x y : Tagged) :
  goes_before y x = false <-> (boosted y <= boosted x)%Q.
Proof.
  split.
  - intros H. apply Qnot_lt_le. intros Hlt.
    apply goes_before_lt in Hlt. congruence.
  - intros H. destruct (goes_before y x) eqn:E; [| reflexivity].
    apply goes_before_lt in E. lra.
Qed.

Lemma allResults_perm (kw sem : list SearchResult) :
  Permutation (allResults kw sem) (tagged kw sem).
Proof. apply stable_sort_perm. Qed.

Lemma allResults_descending (kw sem : list SearchResult) : descending (allResults kw sem).
Proof.
  apply stable_sort_sorted.
  - intros x y z H1 H2. lra.
  - intros x y H. apply goes_before_lt in H. lra.
  - intros x y H. now apply goes_before_ge in H.
Qed.

(** Results of equal combined score keep the order of [tagged]. *)
Lemma allResults_stable (kw sem : list SearchResult) (c : Q) :
  List.filter (fun r => Qeq_bool (boosted r) c) (allResults kw sem) =
  List.filter (fun r => Qeq_bool (boosted r) c) (tagged kw sem).
Proof.
  apply stable_sort_filter. intros x y Hx Hy.
  apply Qeq_bool_iff in Hx. apply Qeq_bool_iff in Hy.
  apply goes_before_ge. lra.
Qed.

(** The loop keeps the first occurrence of every key, up to the limit. *)
Lemma mergeResults_loop_spec (l : list Tagged) (limit : Z) :
  forall (seen : gset string) (merged : list Tagged),
    mergeResults_loop l limit seen merged =
    merged ++ firstn (Z.to_nat limit - List.length merged) (first_occurrences seen l).
Proof.
  induction l as [|r rest IH]; intros seen merged; cbn [mergeResults_loop first_occurrences].
  - now rewrite firstn_nil, app_nil_r.
  - destruct (bool_decide (keyOf r ∈ seen)) eqn:Hseen; cbn [negb andb]; [apply IH |].
    destruct (Z.of_nat (List.length merged) <? limit)%Z eqn:Hlim.
    + apply Z.ltb_lt in Hlim. rewrite IH, length_app. cbn [List.length].
      replace (Z.to_nat limit - List.length merged)
        with (S (Z.to_nat limit - (List.length merged + 1))) by lia.
      cbn [firstn]. now rewrite <- app_assoc.
    + apply Z.ltb_ge in Hlim. rewrite IH.
      replace (Z.to_nat limit - List.length merged) with 0 by lia.
      reflexivity.
Qed.

Lemma mergeResults_spec (kw sem : list SearchResult) (limit : Z) :
  mergeResults kw sem limit =
  firstn (Z.to_nat limit) (first_occurrences ∅ (allResults kw sem)).
Proof.
  unfold mergeResults. rewrite mergeResults_loop_spec. cbn [List.length app].
  now rewrite Nat.sub_0_r.
Qed.

Lemma first_occurrences_in (l : list Tagged) :
  forall (seen : gset string) (r : Tagged),
    In r (first_occurrences seen l) ->
    (keyOf r ∉ seen) /\
    (exists l1 l2, l = l1 ++ r :: l2 /\ Forall (fun t => keyOf t <> keyOf r) l1).
Proof.
  induction l as [|x rest IH]; intros seen r Hr; cbn in Hr; [destruct Hr |].
  destruct (bool_decide (keyOf x ∈ seen)) eqn:Hx.
  - apply bool_decide_eq_true in Hx.
    destruct (IH seen r Hr) as (Hns & l1 & l2 & Heq & HF).
    split; [exact Hns |].
    exists (x :: l1), l2. split; [cbn; now rewrite <- Heq |].
    constructor; [| exact HF]. intros Hk. rewrite Hk in Hx. contradiction.
  - apply bool_decide_eq_false in Hx.
    destruct Hr as [-> | Hr].
    + split; [exact Hx |]. exists [], rest. split; [reflexivity | constructor].
    + destruct (IH _ r Hr) as (Hns & l1 & l2 & Heq & HF).
      split; [intros H; apply Hns, elem_of_union; now right |].
      exists (x :: l1), l2. split; [cbn; now rewrite <- Heq |].
      constructor; [| exact HF].
      intros H. apply Hns, elem_of_union. left. now apply elem_of_singleton.
Qed.

Lemma first_occurrences_NoDup (l : list Tagged) :
  forall seen : gset string, NoDup (map keyOf (first_occurrences seen l)).
Proof.
  induction l as [|x rest IH]; intros seen; cbn; [constructor |].
  destruct (bool_decide (keyOf x ∈ seen)); [apply IH |].
  cbn. apply NoDup_cons. split; [| apply IH].
  intros Hin. apply list_elem_of_In, in_map_iff in Hin as (r & Hk & Hr).
  apply first_occurrences_in in Hr as [Hns _].
  rewrite Hk in Hns. apply Hns, elem_of_union. left. now apply elem_of_singleton.
Qed.

Lemma first_occurrences_sublist (l : list Tagged) :
  forall seen : gset string, sublist (first_occurrences seen l) l.
Proof.
  induction l as [|x rest IH]; intros seen; cbn; [constructor |].
  destruct (bool_decide (keyOf x ∈ seen)); [apply sublist_cons | apply sublist_skip]; apply IH.
Qed.

(** Every key of the list that was not seen before is kept. *)
Lemma first_occurrences_complete (l : list Tagged) :
  forall (seen : gset string) (t : Tagged),
    In t l -> keyOf t ∉ seen ->
    exists r, In r (first_occurrences seen l) /\ keyOf r = keyOf t.
Proof.
  induction l as [|x rest IH]; intros seen t Ht Hns; [destruct Ht |].
  cbn [first_occurrences].
  destruct (bool_decide (keyOf x ∈ seen)) eqn:Hx.
  - apply bool_decide_eq_true in Hx.
    destruct Ht as [-> | Ht]; [contradiction |].
    now apply IH.
  - destruct (decide (keyOf x = keyOf t)) as [Heq | Hne].
    + exists x. split; [now left | exact Heq].
    + destruct Ht as [-> | Ht]; [congruence |].
      destruct (IH ({[keyOf x]} ∪ seen) t Ht) as (r & Hr & Hk).
      { intros [H | H]%elem_of_union; [| contradiction].
        apply elem_of_singleton in H. congruence. }
      exists r. split; [now right | exact Hk].
Qed.

Lemma descending_sublist (l1 l2 : list Tagged) :
  sublist l1 l2 -> descending l2 -> descending l1.
Proof.
  unfold descending. induction 1 as [|x l1 l2 Hs IH | x l1 l2 Hs IH]; intros Hd.
  - constructor.
  - inversion Hd as [|? ? Hd' HF]; subst. constructor; [now apply IH |].
    rewrite List.Forall_forall in HF |- *. intros y Hy. apply HF.
    apply list_elem_of_In. eapply elem_of_sublist; [| exact Hs].
    now apply list_elem_of_In.
  - inversion Hd; subst. now apply IH.
Qed.

Lemma NoDup_map_pair (l : list Tagged) : NoDup (map keyOf l) -> NoDup (map pairOf l).
Proof.
  induction l as [|x l IH]; cbn; [constructor |].
  rewrite !NoDup_cons. intros [Hx Hl]. split; [| now apply IH].
  intros Hin. apply Hx.
  apply list_elem_of_In, in_map_iff in Hin as (y & Hp & Hy).
  apply list_elem_of_In, in_map_iff. exists y. split; [| exact Hy].
  unfold pairOf in Hp. unfold keyOf. now injection Hp as -> ->.
Qed.

End MergeFacts.

(** Example inputs of the merge. *)
Module MergeExamples.
Import GuideSearchService.

Definition hit (g s : string) (score : Q) : SearchResult :=
  {| guideId := g; sectionId := s; title := g; excerpt := "";
     relevanceScore := score;
     metadata := {| category := "security"; framework := None; language := None;
                    tags := [] |};
     url := "https://claude.ai/guide/" +:+ g +:+ "#" +:+ s |}.

Definition keyword_hits : list SearchResult := [hit "a" "1" 5; hit "b" "1" 1].
Definition semantic_hits : list SearchResult := [hit "b" "1" (1 # 2); hit "c" "2" (3 # 4)].

(** Two sections of two guides whose ids join to the same key,
    [cloudflare-workers-setup]; the second is found by both lookups. *)
Definition colliding_keyword_hits : list SearchResult :=
  [hit "cloudflare-workers" "setup" 2; hit "cloudflare" "workers-setup" 1].
Definition colliding_semantic_hits : list SearchResult :=
  [hit "cloudflare" "workers-setup" (1 # 2)].

Definition workers_query (limit : option Z) : SearchQuery :=
  {| query := "workers"; q_category := None; q_framework := None; q_language := None;
     q_tags := None; limit := limit |}.

End MergeExamples.

Section MergeTheorems.
Import GuideSearchService MergeExamples.

(** The literal [1.1] is the double [0x1.199999999999ap+0]. *)
Example boost_value : boost == 2476979795053773 # 2251799813685248.
Proof. vm_compute. reflexivity. Qed.

(** [3 * 1.1] is the double [3.3000000000000003], above the exact
    product. *)
Example boosted_rounds :
  boosted (tag_keyword (hit "b" "1" 3)) == 7430939385161319 # 2251799813685248 /\
  (3 * (11 # 10) < boosted (tag_keyword (hit "b" "1" 3)))%Q.
Proof. vm_compute. split; reflexivity. Qed.

(** A keyword result of score 1 (combined, the double 1.1) ties with a
    semantic result of that score and the same key: the keyword result
    is kept. *)
Example mergeResults_tie :
  map (fun r => (pairOf r, source r))
    (mergeResults [hit "b" "1" 1] [hit "c" "2" 3; hit "b" "1" boost] 5)
  = [(("c", "2"), semantic); (("b", "1"), keyword)].
Proof. vm_compute. reflexivity. Qed.

(** A keyword result of score 3 ties with a semantic result of score
    [3.3000000000000003] and the same key, and is the one kept. *)
Example mergeResults_rounded_tie :
  map (fun r => (pairOf r, source r))
    (mergeResults [hit "b" "1" 3]
       [hit "b" "1" (7430939385161319 # 2251799813685248)] 5)
  = [(("b", "1"), keyword)].
Proof. vm_compute. reflexivity. Qed.

Lemma StronglySorted_middle {A} (R : A -> A -> Prop) (l1 l2 : list A) (x : A) :
  StronglySorted R (l1 ++ x :: l2) -> Forall (R x) l2.
Proof.
  induction l1 as [|y l1 IH]; cbn; intros H; inversion H; subst; auto.
Qed.

(** In keyword results followed by semantic results, what follows a
    semantic result is semantic. *)
Lemma after_semantic (K S F1 F2 : list Tagged) (r t : Tagged) :
  K ++ S = F1 ++ r :: F2 ->
  Forall (fun x => source x = keyword) K ->
  Forall (fun x => source x = semantic) S ->
  source r = semantic -> In t F2 -> source t = semantic.
Proof.
  revert F1. induction K as [|k K IH]; intros F1 Heq HK HS Hr Ht.
  - cbn in Heq. subst S. rewrite List.Forall_forall in HS. apply HS.
    apply in_or_app. right. now right.
  - inversion HK as [|? ? Hk HK']; subst.
    destruct F1 as [|f F1]; cbn in Heq; injection Heq as Hhd Htl.
    + subst k. congruence.
    + now apply (IH F1).
Qed.

Lemma in_merged (kw sem : list SearchResult) (limit : Z) (r : Tagged) :
  In r (mergeResults kw sem limit) ->
  exists l1 l2, allResults kw sem = l1 ++ r :: l2 /\
                Forall (fun t => keyOf t <> keyOf r) l1.
Proof.
  rewrite mergeResults_spec. intros Hr.
  apply list_elem_of_In in Hr.
  pose proof (elem_of_sublist _ _ _ Hr (sublist_take _ _)) as Hr'.
  apply list_elem_of_In in Hr'.
  now apply first_occurrences_in in Hr' as [_ H].
Qed.

(** A merged result is, among the results of its key, one of highest
    combined score, and the one that comes first in the sorted array. *)
Lemma merged_is_highest (kw sem : list SearchResult) (limit : Z) (r t : Tagged) :
  In r (mergeResults kw sem limit) -> In t (tagged kw sem) -> keyOf t = keyOf r ->
  (boosted t <= boosted r)%Q /\
  (t = r \/ exists l1 l2, allResults kw sem = l1 ++ r :: l2 /\ In t l2).
Proof.
  intros Hr Ht Hk.
  destruct (in_merged _ _ _ _ Hr) as (l1 & l2 & Heq & HF).
  apply (Permutation_in _ (Permutation_sym (allResults_perm kw sem))) in Ht.
  rewrite Heq in Ht. apply in_app_or in Ht as [Ht | [<- | Ht]].
  - rewrite List.Forall_forall in HF. now destruct (HF t Ht).
  - split; [lra | now left].
  - pose proof (allResults_descending kw sem) as Hd. unfold descending in Hd.
    rewrite Heq in Hd. apply StronglySorted_middle in Hd.
    rewrite List.Forall_forall in Hd. split; [now apply Hd |].
    right. exists l1, l2. auto.
Qed.

(** A semantic result is merged only if it outscores every keyword
    result of its key: on a tie the keyword result is the one kept. *)
Lemma merged_semantic_outscores (kw sem : list SearchResult) (limit : Z)
  (r : Tagged) (k : SearchResult) :
  In r (mergeResults kw sem limit) -> source r = semantic ->
  In k kw -> keyOf (tag_keyword k) = keyOf r ->
  (boosted (tag_keyword k) < boosted r)%Q.
Proof.
  intros Hr Hsem Hk Hkey.
  assert (In (tag_keyword k) (tagged kw sem)) as Ht
    by (apply in_or_app; left; now apply in_map).
  destruct (merged_is_highest _ _ _ _ _ Hr Ht Hkey) as [Hle [Heq | (l1 & l2 & Hall & Hl2)]].
  { rewrite <- Heq in Hsem. discriminate. }
  destruct (Qlt_le_dec (boosted (tag_keyword k)) (boosted r)) as [Hlt | Hge]; [exact Hlt |].
  exfalso.
  pose proof (allResults_stable kw sem (boosted r)) as Hst.
  rewrite Hall in Hst. unfold tagged in Hst.
  rewrite !List.filter_app in Hst. cbn [List.filter] in Hst.
  replace (Qeq_bool (boosted r) (boosted r)) with true in Hst
    by (symmetry; apply Qeq_bool_iff; reflexivity).
  assert (source (tag_keyword k) = semantic) as Hbad; [| discriminate].
  symmetry in Hst.
  eapply (after_semantic _ _ _ _ r); [exact Hst | | | exact Hsem |].
  - apply List.Forall_forall. intros x Hx.
    apply filter_In in Hx as [Hx _]. apply in_map_iff in Hx as (y & <- & _). reflexivity.
  - apply List.Forall_forall. intros x Hx.
    apply filter_In in Hx as [Hx _]. apply in_map_iff in Hx as (y & <- & _). reflexivity.
  - apply filter_In. split; [exact Hl2 |]. apply Qeq_bool_iff. lra.
Qed.

(** What the merge keeps, by key.  The merged list holds no two results
    of the same key, hence none of the same pair of guide and section.
    A merged result has the highest combined score among the results of
    its key in both lists, and a semantic result is merged only if it
    outscores every keyword result of its key, so that on a tie the
    keyword result is kept.  When the limit is at least the number of
    results of both lists, every key of the lists is kept. *)
Lemma mergeResults_keys (kw sem : list SearchResult) (limit : Z) :
  let merged := mergeResults kw sem limit in
  NoDup (map keyOf merged) /\
  NoDup (map pairOf merged) /\
  (forall r t, In r merged -> In t (tagged kw sem) -> keyOf t = keyOf r ->
               (boosted t <= boosted r)%Q) /\
  (forall r k, In r merged -> source r = semantic -> In k kw ->
               keyOf (tag_keyword k) = keyOf r ->
               (boosted (tag_keyword k) < boosted r)%Q) /\
  ((Z.of_nat (List.length kw + List.length sem) <= limit)%Z ->
   forall t, In t (tagged kw sem) -> exists r, In r merged /\ keyOf r = keyOf t).
Proof.
  cbn zeta.
  assert (NoDup (map keyOf (mergeResults kw sem limit))) as Hnd.
  { rewrite mergeResults_spec.
    eapply sublist_NoDup; [apply (first_occurrences_NoDup (allResults kw sem) ∅) |].
    apply (fmap_sublist keyOf), sublist_take. }
  split; [exact Hnd |]. split; [now apply NoDup_map_pair |].
  split; [| split].
  - intros r t Hr Ht Hk. now destruct (merged_is_highest _ _ _ _ _ Hr Ht Hk).
  - intros r k. apply merged_semantic_outscores.
  - intros Hlim t Ht. rewrite mergeResults_spec.
    rewrite firstn_all2.
    + apply first_occurrences_complete; [| apply not_elem_of_empty].
      now apply (Permutation_in _ (Permutation_sym (allResults_perm kw sem))).
    + pose proof (sublist_length _ _ (first_occurrences_sublist (allResults kw sem) ∅)) as H1.
      pose proof (Permutation_length (allResults_perm kw sem)) as H2.
      unfold tagged in H2. rewrite length_app, !length_map in H2. lia.
Qed.

(** C3.  The section [workers-setup] of the guide [cloudflare] is found
    by both lookups, and the section [setup] of the guide
    [cloudflare-workers] by the keyword lookup with a higher score.  The
    key of all three results is [cloudflare-workers-setup].  With a
    limit of 5, [search] returns the one result of the guide
    [cloudflare-workers]: the result found by both lookups is not kept,
    though the limit is not reached and no result of its pair of guide
    and section was kept before it. *)
Theorem search_key_collision :
  let results :=
    search (fun _ _ => colliding_keyword_hits) (fun _ _ => colliding_semantic_hits)
      (workers_query (Some 5%Z)) in
  In ("cloudflare", "workers-setup") (map pairOf (tagged colliding_keyword_hits [])) /\
  In ("cloudflare", "workers-setup") (map pairOf (tagged [] colliding_semantic_hits)) /\
  map keyOf (tagged colliding_keyword_hits colliding_semantic_hits) =
    ["cloudflare-workers-setup"; "cloudflare-workers-setup"; "cloudflare-workers-setup"] /\
  map pairOf results = [("cloudflare-workers", "setup")] /\
  ~ In ("cloudflare", "workers-setup") (map pairOf results).
Proof.
  vm_compute. repeat split; auto.
  intros [H | []]. discriminate.
Qed.

(** C4, counterexample.  With a limit of 0 [search] returns three
    results, and with a limit of -1 it returns none, which is more than
    -1.  A keyword result of score 3 is returned before a semantic
    result of score [3.3000000000000003], which is more than 3 times
    1.1: the two combined scores are the same double. *)
Lemma search_limit_counterexample :
  let results limit :=
    search (fun _ _ => keyword_hits) (fun _ _ => semantic_hits) (workers_query (Some limit)) in
  let rounded :=
    search (fun _ _ => [hit "b" "1" 3])
      (fun _ _ => [hit "c" "2" (7430939385161319 # 2251799813685248)])
      (workers_query (Some 5%Z)) in
  ~ (Z.of_nat (List.length (results 0%Z)) <= 0)%Z /\
  ~ (Z.of_nat (List.length (results (-1)%Z)) <= -1)%Z /\
  map (fun r => (source r, relevanceScore (result r))) rounded =
    [(keyword, 3%Q); (semantic, 7430939385161319 # 2251799813685248)] /\
  (3 * (11 # 10) < 7430939385161319 # 2251799813685248)%Q.
Proof.
  vm_compute. split; [| split; [| split]];
    [intros H; now apply H | intros H; now apply H | reflexivity | reflexivity].
Qed.

(** C4, as amended.  For every query and every pair of lookups, the list
    that [search] returns is in descending order of combined score, the
    combined score of a keyword result being the product of its score
    and 1.1 as the doubles have it, and that of a semantic result its
    score, every score being a double.  Every result is a result of one
    of the lookups with its source.  When the limit of the query is
    positive the list holds at most that many results; when the limit is
    0 or absent it holds at most 5; when the limit is negative it is
    empty. *)
Theorem search_sorted_and_bounded
  (keywordSearch semanticSearch : SearchQuery -> Z -> list SearchResult)
  (q : SearchQuery) :
  let results := search keywordSearch semanticSearch q in
  descending results /\
  (forall r, In r results ->
     In r (tagged (keywordSearch q (limitOf q)) (semanticSearch q (limitOf q)))) /\
  (forall r, In r results -> source r = semantic ->
     JsNumber.finite (relevanceScore (result r)) ->
     boosted r == relevanceScore (result r)) /\
  (forall n, limit q = Some n -> (0 < n)%Z -> (Z.of_nat (List.length results) <= n)%Z) /\
  (limit q = None \/ limit q = Some 0%Z -> (List.length results <= 5)%nat) /\
  (forall n, limit q = Some n -> (n < 0)%Z -> results = []).
Proof.
  cbn zeta. unfold search.
  set (kw := keywordSearch q (limitOf q)). set (sem := semanticSearch q (limitOf q)).
  rewrite mergeResults_spec.
  assert (sublist (firstn (Z.to_nat (limitOf q)) (first_occurrences ∅ (allResults kw sem)))
            (allResults kw sem)) as Hsub
    by (etransitivity; [apply sublist_take | apply first_occurrences_sublist]).
  split; [| split; [| split; [| split; [| split]]]].
  - eapply descending_sublist; [exact Hsub | apply allResults_descending].
  - intros r Hr.
    apply (Permutation_in _ (allResults_perm kw sem)).
    apply list_elem_of_In. apply list_elem_of_In in Hr.
    eapply elem_of_sublist; [exact Hr | exact Hsub].
  - intros r _ Hsem Hfin. unfold boosted. rewrite Hsem. now apply times_one.
  - intros n Hn Hpos. rewrite length_take.
    assert (limitOf q = n) as -> by (unfold limitOf; rewrite Hn; destruct n; [lia | reflexivity ..]).
    lia.
  - intros Hq. rewrite length_take.
    assert (limitOf q = 5%Z) as -> by (unfold limitOf; destruct Hq as [-> | ->]; reflexivity).
    lia.
  - intros n Hn Hneg.
    assert (limitOf q = n) as -> by (unfold limitOf; rewrite Hn; destruct n; [lia | reflexivity ..]).
    now replace (Z.to_nat n) with 0 by lia.
Qed.

(** With a limit of 3 the three keys of the example are returned, the
    last of them a semantic result with its own score. *)
Lemma search_sorted_and_bounded_witness :
  let results :=
    search (fun _ _ => keyword_hits) (fun _ _ => semantic_hits) (workers_query (Some 3%Z)) in
  (Z.of_nat (List.length results) <= 3)%Z /\
  boosted (tag_semantic (hit "c" "2" (3 # 4))) == 3 # 4.
Proof.
  cbn zeta.
  destruct (search_sorted_and_bounded (fun _ _ => keyword_hits) (fun _ _ => semantic_hits)
              (workers_query (Some 3%Z))) as (_ & _ & Hsem & Hlen & _).
  split.
  - apply Hlen; [reflexivity | lia].
  - apply Hsem.
    + vm_compute. auto.
    + reflexivity.
    + exists 3%Z, (-2)%Z. split; [reflexivity |]. split; [lia | reflexivity].
Defined.

End MergeTheorems.

(** ** Effects *)

Section EffFacts.
Context {St : Type}.

Lemma for_each_modify {A} (xs : list A) (f : A -> St -> St) (s : St) :
  Eff.for_each xs (fun x => Eff.modify (f x)) s =
  (fold_left (fun s x => f x s) xs s, [], inr tt).
Proof.
  revert s. induction xs as [|x xs IH]; intros s; [reflexivity |].
  cbn [Eff.for_each fold_left]. unfold Eff.bind at 1. cbn. now rewrite IH.
Qed.

(** A property of the state that every step of a computation keeps. *)
Definition preserves {A} (P : St -> Prop) (m : Eff.M St A) : Prop :=
  forall s, P s -> P (Eff.state_of (m s)).

Lemma preserves_ret {A} (P : St -> Prop) (a : A) : preserves P (Eff.ret a).
Proof. intros s H. exact H. Qed.

Lemma preserves_console (P : St -> Prop) (c : Console) : preserves P (Eff.console c).
Proof. intros s H. exact H. Qed.

Lemma preserves_modify (P : St -> Prop) (f : St -> St) :
  (forall s, P s -> P (f s)) -> preserves P (Eff.modify f).
Proof. intros Hf s H. now apply Hf. Qed.

Lemma preserves_bind {A B} (P : St -> Prop) (m : Eff.M St A) (f : A -> Eff.M St B) :
  preserves P m -> (forall a, preserves P (f a)) -> preserves P (Eff.bind m f).
Proof.
  intros Hm Hf s H. unfold Eff.bind, Eff.state_of.
  specialize (Hm s H). unfold Eff.state_of in Hm.
  destruct (m s) as [[s1 out1] [e | a]]; cbn in *; [exact Hm |].
  specialize (Hf a s1 Hm). unfold Eff.state_of in Hf.
  now destruct (f a s1) as [[s2 out2] r].
Qed.

Lemma preserves_for_each {A} (P : St -> Prop) (xs : list A) (body : A -> Eff.M St unit) :
  (forall x, preserves P (body x)) -> preserves P (Eff.for_each xs body).
Proof.
  intros Hb. induction xs as [|x xs IH]; cbn [Eff.for_each].
  - apply preserves_ret.
  - apply preserves_bind; [apply Hb | intros _; exact IH].
Qed.

Lemma preserves_for_each_i {A} (P : St -> Prop) (xs : list A)
  (body : nat -> A -> Eff.M St unit) :
  (forall i x, preserves P (body i x)) ->
  forall i, preserves P (Eff.for_each_i i xs body).
Proof.
  intros Hb. induction xs as [|x xs IH]; intros i; cbn [Eff.for_each_i].
  - apply preserves_ret.
  - apply preserves_bind; [apply Hb | intros _; apply IH].
Qed.

(** A loop whose body never throws runs the body on every element, in
    order, and does not throw. *)
Lemma for_each_total {A} (xs : list A) (body : A -> Eff.M St unit) (s : St) :
  (forall x s', Eff.result_of (body x s') = inr tt) ->
  Eff.result_of (Eff.for_each xs body s) = inr tt /\
  Eff.state_of (Eff.for_each xs body s) =
    fold_left (fun s' x => Eff.state_of (body x s')) xs s.
Proof.
  intros Hb. revert s. induction xs as [|x xs IH]; intros s; [cbn; auto |].
  cbn [Eff.for_each fold_left].
  specialize (Hb x s). destruct (IH (Eff.state_of (body x s))) as (IH1 & IH2).
  unfold Eff.bind, Eff.result_of, Eff.state_of in *.
  destruct (body x s) as [[s1 out1] r1]. cbn in Hb. subst r1. cbn in *.
  destruct (Eff.for_each xs body s1) as [[s2 out2] r2]. cbn in *.
  split; [exact IH1 | exact IH2].
Qed.

End EffFacts.

(** ** [src/guide-processor/index.ts]: one document *)

Section GuideProcessorFacts.
Import GuideProcessor.
Variable YAML_parse : string -> option YamlValue.
Variable JSON_stringify : list string -> string.

(** The stores after [storeInD1]. *)
Definition stored (guide : D1.GuideRow) (sections : list Section) (b : Bindings) : Bindings :=
  set_db (D1.set_guides_fts (D1.fts_insert (ftsRow guide sections)))
    (set_db (D1.set_guides_fts (D1.fts_delete (D1.g_id guide)))
       (fold_left
          (fun b section =>
             set_db (D1.set_sections
                       (insert (D1.s_id (sectionRow guide section))
                               (sectionRow guide section))) b)
          sections
          (set_db (D1.set_guides (insert (D1.g_id guide) guide)) b))).

(** The stores after [uploadToR2]. *)
Definition uploaded (file : GuideFile) (b : Bindings) : Bindings :=
  set_r2 (R2.put ("guides/" +:+ guideIdOf (name file) +:+ ".md")
            {| R2.body := content file; R2.contentType := "text/markdown";
               R2.cacheControl := None; R2.customMetadata := [] |}) b.

Lemma storeInD1_run (guide : D1.GuideRow) (sections : list Section) (b : Bindings) :
  storeInD1 guide sections b = (stored guide sections b, [], inr tt).
Proof.
  unfold storeInD1, upsert_guide, upsert_section, stored.
  unfold Eff.bind at 1. cbn [Eff.modify].
  unfold Eff.bind at 1. rewrite for_each_modify.
  reflexivity.
Qed.

Lemma fold_set_db_other (f : Section -> D1.Database -> D1.Database)
  (sections : list Section) (b : Bindings) :
  r2 (fold_left (fun b section => set_db (f section) b) sections b) = r2 b /\
  vectorize (fold_left (fun b section => set_db (f section) b) sections b) = vectorize b.
Proof.
  revert b. induction sections as [|x l IH]; intros b; cbn [fold_left]; [auto |].
  destruct (IH (set_db (f x) b)) as [H1 H2]. now rewrite H1, H2.
Qed.

Lemma stored_vectorize (guide : D1.GuideRow) (sections : list Section) (b : Bindings) :
  vectorize (stored guide sections b) = vectorize b.
Proof.
  unfold stored. cbn [set_db vectorize].
  now rewrite (proj2 (fold_set_db_other _ _ _)).
Qed.

Lemma stored_r2 (guide : D1.GuideRow) (sections : list Section) (b : Bindings) :
  r2 (stored guide sections b) = r2 b.
Proof.
  unfold stored. cbn [set_db r2].
  now rewrite (proj1 (fold_set_db_other _ _ _)).
Qed.

(** What [processFile] does, case by case. *)
Lemma processFile_run (now : string) (file : GuideFile) (b : Bindings) :
  processFile YAML_parse JSON_stringify now file b =
  match extractFrontmatter YAML_parse (content file) with
  | inl e => (b, [Log ("Processing guide: " +:+ name file)], inl e)
  | inr mm =>
      match guideRow JSON_stringify now file (guideIdOf (name file))
              ("guides/" +:+ guideIdOf (name file) +:+ ".md") mm.1 with
      | inl e => (uploaded file b, [Log ("Processing guide: " +:+ name file)], inl e)
      | inr guide =>
          (stored guide (parseMarkdown mm.2) (uploaded file b),
           Log ("Processing guide: " +:+ name file) ::
           match vectorize b with
           | Some _ => [Log ("Creating vector embeddings for " +:+ guideIdOf (name file)
                             +:+ "...")]
           | None => []
           end ++ [Log ("Successfully processed: " +:+ name file)],
           inr tt)
      end
  end.
Proof.
  unfold processFile.
  unfold Eff.bind at 1. cbn [Eff.console].
  unfold Eff.bind at 1.
  destruct (extractFrontmatter YAML_parse (content file)) as [e | mm]; [reflexivity |].
  cbn [lift Eff.ret].
  unfold Eff.bind at 1. unfold uploadToR2 at 1. unfold Eff.bind at 1. cbn [Eff.modify Eff.ret].
  fold (uploaded file b).
  unfold Eff.bind at 1.
  destruct (guideRow JSON_stringify now file (guideIdOf (name file))
              ("guides/" +:+ guideIdOf (name file) +:+ ".md") mm.1) as [e | guide];
    [reflexivity |].
  cbn [lift Eff.ret].
  unfold Eff.bind at 1. rewrite storeInD1_run.
  unfold Eff.bind at 1. cbn [Eff.get].
  unfold Eff.bind at 1.
  rewrite stored_vectorize. cbn [uploaded set_r2 vectorize].
  destruct (vectorize b); reflexivity.
Qed.

End GuideProcessorFacts.

(** ** Upserts *)

(** A sequence of upserts into [sections]. *)
Definition upsert_rows (rows : list D1.SectionRow) (m : gmap string D1.SectionRow)
  : gmap string D1.SectionRow :=
  fold_left (fun m r => <[D1.s_id r := r]> m) rows m.

Lemma upsert_rows_union (rows : list D1.SectionRow) (m : gmap string D1.SectionRow) :
  upsert_rows rows m = upsert_rows rows ∅ ∪ m.
Proof.
  revert m. induction rows as [|r rows IH]; intros m; cbn [upsert_rows fold_left].
  - now rewrite (left_id_L ∅ (∪)).
  - fold (upsert_rows rows (<[D1.s_id r := r]> m)).
    fold (upsert_rows rows (<[D1.s_id r := r]> (∅ : gmap string D1.SectionRow))).
    rewrite IH, (IH (<[D1.s_id r := r]> ∅)).
    rewrite <- (assoc_L (∪)). f_equal.
    now rewrite insert_empty, <- insert_union_singleton_l.
Qed.

(** Running the same upserts again changes nothing. *)
Lemma upsert_rows_idempotent (rows : list D1.SectionRow) (m : gmap string D1.SectionRow) :
  upsert_rows rows (upsert_rows rows m) = upsert_rows rows m.
Proof.
  rewrite (upsert_rows_union rows (upsert_rows rows m)), (upsert_rows_union rows m).
  rewrite (assoc_L (∪)). f_equal. apply (idemp_L (∪)).
Qed.

Lemma filter_idempotent {A} (p : A -> bool) (l : list A) :
  List.filter p (List.filter p l) = List.filter p l.
Proof.
  induction l as [|x l IH]; [reflexivity |].
  cbn [List.filter]. destruct (p x) eqn:E; [| exact IH].
  cbn [List.filter]. now rewrite E, IH.
Qed.

(** Delete-then-insert of the row of a guide, run twice, is the same as
    run once. *)
Lemma fts_replace_idempotent (row : D1.FtsRow) (rows : list D1.FtsRow) :
  D1.fts_insert row
    (D1.fts_delete (D1.f_guide_id row)
       (D1.fts_insert row (D1.fts_delete (D1.f_guide_id row) rows)))
  = D1.fts_insert row (D1.fts_delete (D1.f_guide_id row) rows).
Proof.
  unfold D1.fts_insert, D1.fts_delete. f_equal.
  rewrite List.filter_app, filter_idempotent. cbn [List.filter].
  rewrite String.eqb_refl. cbn. apply app_nil_r.
Qed.

(** After the replacement a guide has one row in the full-text table. *)
Lemma fts_replace_one_row (row : D1.FtsRow) (rows : list D1.FtsRow) :
  List.filter (fun r => String.eqb (D1.f_guide_id r) (D1.f_guide_id row))
    (D1.fts_insert row (D1.fts_delete (D1.f_guide_id row) rows)) = [row].
Proof.
  unfold D1.fts_insert, D1.fts_delete. rewrite List.filter_app.
  cbn [List.filter]. rewrite String.eqb_refl.
  replace (List.filter _ (List.filter _ rows)) with (@nil D1.FtsRow); [reflexivity |].
  symmetry. induction rows as [|x l IH]; [reflexivity |].
  cbn [List.filter].
  destruct (String.eqb (D1.f_guide_id x) (D1.f_guide_id row)) eqn:E; cbn [negb List.filter].
  - exact IH.
  - now rewrite E.
Qed.

Section GuideProcessorIdempotence.
Import GuideProcessor.
Variable YAML_parse : string -> option YamlValue.
Variable JSON_stringify : list string -> string.

Lemma fold_upsert_sections (guide : D1.GuideRow) (sections : list Section) (b : Bindings) :
  fold_left
    (fun b section =>
       set_db (D1.set_sections
                 (insert (D1.s_id (sectionRow guide section)) (sectionRow guide section))) b)
    sections b
  = set_db (D1.set_sections (upsert_rows (map (sectionRow guide) sections))) b.
Proof.
  revert b. induction sections as [|x l IH]; intros b; cbn [fold_left map].
  - now destruct b as [r [g s c f] v].
  - rewrite IH. reflexivity.
Qed.

(** The stores after [storeInD1], table by table. *)
Lemma stored_tables (guide : D1.GuideRow) (sections : list Section) (b : Bindings) :
  stored guide sections b =
  {| r2 := r2 b;
     db := {| D1.guides := <[D1.g_id guide := guide]> (D1.guides (db b));
              D1.sections := upsert_rows (map (sectionRow guide) sections)
                               (D1.sections (db b));
              D1.code_examples := D1.code_examples (db b);
              D1.guides_fts := D1.fts_insert (ftsRow guide sections)
                                 (D1.fts_delete (D1.g_id guide) (D1.guides_fts (db b))) |};
     vectorize := vectorize b |}.
Proof. unfold stored. rewrite fold_upsert_sections. reflexivity. Qed.

(** Two rows of the same guide that differ at most in [last_updated]
    write the same sections and the same full-text row. *)
Lemma stored_twice (g1 g2 : D1.GuideRow) (sections : list Section) (file : GuideFile)
  (b : Bindings) :
  D1.g_id g1 = D1.g_id g2 -> D1.g_title g1 = D1.g_title g2 ->
  D1.g_tags g1 = D1.g_tags g2 ->
  let b1 := stored g1 sections (uploaded file b) in
  let b2 := stored g2 sections (uploaded file b1) in
  r2 b2 = r2 b1 /\
  D1.sections (db b2) = D1.sections (db b1) /\
  D1.guides_fts (db b2) = D1.guides_fts (db b1) /\
  D1.code_examples (db b2) = D1.code_examples (db b1) /\
  vectorize b2 = vectorize b1 /\
  D1.guides (db b2) = <[D1.g_id g2 := g2]> (D1.guides (db b1)).
Proof.
  intros Hid Htitle Htags. cbn zeta. rewrite !stored_tables.
  cbn [r2 db vectorize uploaded set_r2 D1.guides D1.sections D1.guides_fts D1.code_examples].
  assert (forall s, sectionRow g2 s = sectionRow g1 s) as Hrow
    by (intros s; unfold sectionRow; now rewrite Hid).
  assert (ftsRow g2 sections = ftsRow g1 sections) as Hfts
    by (unfold ftsRow; now rewrite Hid, Htitle, Htags).
  split; [apply insert_insert_eq |].
  split; [rewrite (map_ext _ _ Hrow); apply upsert_rows_idempotent |].
  split; [| auto].
  rewrite Hfts, <- Hid.
  change (D1.g_id g1) with (D1.f_guide_id (ftsRow g1 sections)).
  apply fts_replace_idempotent.
Qed.

End GuideProcessorIdempotence.

(** ** [docs/guide-processor.ts]: one document *)

Section EffRuns.
Context {St : Type}.

Lemma bind_throws {A B} (m : Eff.M St A) (f : A -> Eff.M St B) (s s1 : St)
  (out : list Console) (e : Exception) :
  m s = (s1, out, inl e) -> Eff.bind m f s = (s1, out, inl e).
Proof. intros H. unfold Eff.bind. now rewrite H. Qed.

Lemma bind_returns {A B} (m : Eff.M St A) (f : A -> Eff.M St B) (s s1 : St)
  (out : list Console) (a : A) :
  m s = (s1, out, inr a) ->
  Eff.bind m f s = ((f a s1).1.1, out ++ (f a s1).1.2, (f a s1).2).
Proof.
  intros H. unfold Eff.bind. rewrite H. now destruct (f a s1) as [[s2 out2] r].
Qed.

(** If [m] takes a state of [P] to a state of [Q], whether it throws or
    not, and what follows keeps [Q], the sequence takes [P] to [Q]. *)
Lemma bind_establishes {A B} (P Q : St -> Prop) (m : Eff.M St A) (f : A -> Eff.M St B) :
  (forall s, P s -> Q (Eff.state_of (m s))) ->
  (forall a, preserves Q (f a)) ->
  forall s, P s -> Q (Eff.state_of (Eff.bind m f s)).
Proof.
  intros Hm Hf s H. specialize (Hm s H).
  unfold Eff.bind, Eff.state_of in *.
  destruct (m s) as [[s1 out1] [e | a]]; cbn in *; [exact Hm |].
  specialize (Hf a s1 Hm). unfold Eff.state_of in Hf.
  now destruct (f a s1) as [[s2 out2] r].
Qed.

End EffRuns.

Section GuideProcessorDocsFacts.
Import GuideProcessorDocs.
Variable yaml_parse : string -> option ParsedYaml.
Variable foreign_keys : bool.

Lemma extractFrontmatter_error (markdown : string) (e : Exception) :
  extractFrontmatter markdown = inl e -> e = Error "No frontmatter found in markdown".
Proof.
  unfold extractFrontmatter.
  destruct (startsWith ("---" +:+ nl) markdown); [| now intros [= <-]].
  destruct (string_drop 4 markdown) as [|c rest]; [now intros [= <-] |].
  destruct (lazy_any_until _ _ rest) as [[f body]|]; [discriminate | now intros [= <-]].
Qed.

(** A text that does not start with three hyphens and a line feed has no
    frontmatter. *)
Lemma extractFrontmatter_needs_delimiter (markdown : string) :
  startsWith ("---" +:+ nl) markdown = false ->
  extractFrontmatter markdown = inl (Error "No frontmatter found in markdown").
Proof. intros H. unfold extractFrontmatter. now rewrite H. Qed.

(** The stores after [uploadToR2]. *)
Definition uploaded_docs (guide : ProcessedGuide) (c : UploadConfig) : UploadConfig :=
  set_r2 (R2.put ("guides/" +:+ id (pg_metadata guide) +:+ ".md")
    {| R2.body := pg_markdown guide;
       R2.contentType := "text/markdown";
       R2.cacheControl := Some "public, max-age=3600";
       R2.customMetadata := [("guideId", id (pg_metadata guide));
                             ("version", version (pg_metadata guide));
                             ("lastUpdated", last_updated (pg_metadata guide))] |}) c.

(** A document without frontmatter: the error is thrown before any
    store is written. *)
Lemma processFile_no_frontmatter (file : GuideFile) (c : UploadConfig) (e : Exception) :
  extractFrontmatter (file_content file) = inl e ->
  processFile yaml_parse foreign_keys file c =
  (c, [Log ("Processing: " +:+ name file)],
   inl (Error "No frontmatter found in markdown")).
Proof.
  intros H. pose proof (extractFrontmatter_error _ _ H) as ->.
  unfold processFile, parse. rewrite H. reflexivity.
Qed.

(** The [catch] clause turns every exception into a line of the console. *)
Lemma processFile_caught_run (file : GuideFile) (c : UploadConfig) :
  processFile_caught yaml_parse foreign_keys file c =
  (Eff.state_of (processFile yaml_parse foreign_keys file c),
   Eff.output_of (processFile yaml_parse foreign_keys file c) ++
   match Eff.result_of (processFile yaml_parse foreign_keys file c) with
   | inl e => [ErrorLog ("Error processing " +:+ name file +:+ ":") e]
   | inr _ => []
   end,
   inr tt).
Proof.
  unfold processFile_caught, Eff.try_catch, Eff.state_of, Eff.output_of, Eff.result_of.
  destruct (processFile yaml_parse foreign_keys file c) as [[s1 out1] [e | []]]; cbn.
  - reflexivity.
  - now rewrite app_nil_r.
Qed.

(** Once the row of the guide is in [guides], what is left of the
    processing keeps it there and keeps the object store. *)
Definition guide_present (guide : ProcessedGuide) (bucket : R2.Bucket) (c : UploadConfig)
  : Prop :=
  r2 c = bucket /\ is_Some (D1.guides (db c) !! id (pg_metadata guide)).

Lemma insert_section_keeps (guide : ProcessedGuide) (bucket : R2.Bucket)
  (row : D1.SectionRow) :
  preserves (guide_present guide bucket) (insert_section foreign_keys row).
Proof.
  intros c H. unfold insert_section, Eff.bind, Eff.get, Eff.state_of.
  destruct (D1.sections (db c) !! D1.s_id row); [exact H |].
  destruct (foreign_keys && _); exact H.
Qed.

Lemma insert_code_example_keeps (guide : ProcessedGuide) (bucket : R2.Bucket)
  (row : D1.CodeExampleRow) :
  preserves (guide_present guide bucket) (insert_code_example foreign_keys row).
Proof.
  intros c H. unfold insert_code_example, Eff.bind, Eff.get, Eff.state_of.
  destruct (D1.code_examples (db c) !! D1.e_id row); [exact H |].
  destruct (foreign_keys && _); exact H.
Qed.

Lemma insert_guide_establishes (guide : ProcessedGuide) (c : UploadConfig) :
  guide_present guide (r2 c)
    (Eff.state_of (insert_guide (guideRow (pg_metadata guide)) c)).
Proof.
  unfold insert_guide, Eff.bind, Eff.get, Eff.state_of. cbn [guideRow D1.g_id].
  destruct (D1.guides (db c) !! id (pg_metadata guide)) as [row|] eqn:E; cbn.
  - split; [reflexivity |]. rewrite E. eauto.
  - split; [reflexivity |]. cbn [set_db db D1.set_guides D1.guides].
    rewrite lookup_insert_eq. eauto.
Qed.

Lemma storeInD1_establishes (guide : ProcessedGuide) (c : UploadConfig) :
  guide_present guide (r2 c) (Eff.state_of (storeInD1 foreign_keys guide c)).
Proof.
  unfold storeInD1.
  apply (bind_establishes (fun s => s = c) (guide_present guide (r2 c)));
    [| | reflexivity].
  - intros s ->. apply insert_guide_establishes.
  - intros _. apply preserves_bind.
    + apply preserves_for_each. intros x. apply insert_section_keeps.
    + intros _. apply preserves_bind.
      * apply preserves_for_each_i. intros i x. apply insert_code_example_keeps.
      * intros _. apply preserves_bind; [| intros _; apply preserves_console].
        apply preserves_modify. now intros s H.
Qed.

Lemma upload_establishes (guide : ProcessedGuide) (c : UploadConfig) :
  guide_present guide (r2 (uploaded_docs guide c))
    (Eff.state_of (upload foreign_keys guide c)).
Proof.
  unfold upload.
  rewrite (bind_returns _ _ c c [Log ("Uploading guide: " +:+ title (pg_metadata guide))] tt)
    by reflexivity.
  cbn [Eff.state_of fst].
  rewrite (bind_returns _ _ c (uploaded_docs guide c)
             [Log ("  Uploaded to R2: " +:+ "guides/" +:+ id (pg_metadata guide) +:+ ".md")]
             tt) by reflexivity.
  cbn [fst].
  apply (bind_establishes (fun s => s = uploaded_docs guide c)
           (guide_present guide (r2 (uploaded_docs guide c)))); [| | reflexivity].
  - intros s ->. apply storeInD1_establishes.
  - intros _. apply preserves_bind; [| intros _; apply preserves_console].
    unfold vectorize_guide.
    apply preserves_bind; [| intros _; apply preserves_console].
    apply preserves_modify. now intros s H.
Qed.

End GuideProcessorDocsFacts.

Section GuideProcessorDocsTwice.
Import GuideProcessorDocs.
Variable yaml_parse : string -> option ParsedYaml.
Variable foreign_keys : bool.

(** [INSERT INTO guides] fails on a guide that is already there: the
    upload stops after the object store. *)
Lemma upload_rejected (guide : ProcessedGuide) (c : UploadConfig) (row : D1.GuideRow) :
  D1.guides (db c) !! id (pg_metadata guide) = Some row ->
  Eff.state_of (upload foreign_keys guide c) = uploaded_docs guide c /\
  Eff.result_of (upload foreign_keys guide c)
    = inl (ConstraintError "guides" (id (pg_metadata guide))).
Proof.
  intros Hrow. unfold upload.
  rewrite (bind_returns _ _ c c [Log ("Uploading guide: " +:+ title (pg_metadata guide))] tt)
    by reflexivity.
  rewrite (bind_returns _ _ c (uploaded_docs guide c)
             [Log ("  Uploaded to R2: " +:+ "guides/" +:+ id (pg_metadata guide) +:+ ".md")]
             tt) by reflexivity.
  assert (insert_guide (guideRow (pg_metadata guide)) (uploaded_docs guide c)
          = (uploaded_docs guide c, [],
             inl (ConstraintError "guides" (id (pg_metadata guide))))) as Hins.
  { unfold insert_guide, Eff.bind, Eff.get. cbn [guideRow D1.g_id].
    cbn [uploaded_docs set_r2 db]. now rewrite Hrow. }
  unfold storeInD1.
  rewrite (bind_throws _ _ _ _ _ _
             (bind_throws _ _ _ _ _ _ Hins)).
  split; reflexivity.
Qed.

Lemma processFile_docs_state (file : GuideFile) (c : UploadConfig) :
  Eff.state_of (processFile yaml_parse foreign_keys file c) =
  match parse yaml_parse (file_content file) with
  | inl _ => c
  | inr guide => Eff.state_of (upload foreign_keys guide c)
  end.
Proof.
  unfold processFile.
  rewrite (bind_returns _ _ c c [Log ("Processing: " +:+ name file)] tt) by reflexivity.
  destruct (parse yaml_parse (file_content file)) as [e | guide]; [reflexivity |].
  rewrite (bind_returns _ _ c c [] guide) by reflexivity.
  unfold Eff.bind, Eff.state_of.
  destruct (upload foreign_keys guide c) as [[s1 out1] [e | []]]; reflexivity.
Qed.

(** Processing a document again leaves the stores as they are. *)
Lemma processFile_docs_twice (file : GuideFile) (c : UploadConfig) :
  let c1 := Eff.state_of (processFile yaml_parse foreign_keys file c) in
  Eff.state_of (processFile yaml_parse foreign_keys file c1) = c1.
Proof.
  cbn zeta. rewrite !processFile_docs_state.
  destruct (parse yaml_parse (file_content file)) as [e | guide]; [reflexivity |].
  destruct (upload_establishes foreign_keys guide c) as [Hr2 [row Hrow]].
  destruct (upload_rejected guide _ row Hrow) as [-> _].
  set (c1 := Eff.state_of (upload foreign_keys guide c)) in *.
  unfold uploaded_docs, set_r2, R2.put in *. cbn [r2] in Hr2.
  destruct c1 as [bucket d v]. cbn [r2 db vectorize] in *.
  f_equal. rewrite Hr2. apply insert_insert_eq.
Qed.

End GuideProcessorDocsTwice.

Section GuideProcessorTwice.
Import GuideProcessor.
Variable YAML_parse : string -> option YamlValue.
Variable JSON_stringify : list string -> string.

Lemma uploaded_twice (file : GuideFile) (b : Bindings) :
  uploaded file (uploaded file b) = uploaded file b.
Proof.
  unfold uploaded, set_r2, R2.put. cbn [r2 db vectorize]. f_equal. apply insert_insert_eq.
Qed.

Lemma bindings_ext (a b : Bindings) :
  r2 a = r2 b -> D1.guides (db a) = D1.guides (db b) ->
  D1.sections (db a) = D1.sections (db b) ->
  D1.code_examples (db a) = D1.code_examples (db b) ->
  D1.guides_fts (db a) = D1.guides_fts (db b) ->
  vectorize a = vectorize b -> a = b.
Proof.
  destruct a as [ra [ga sa ca fa] va], b as [rb [gb sb cb fb] vb]. cbn.
  now intros -> -> -> -> -> ->.
Qed.

(** Processing a document again with [processFile]: the object store,
    the sections, the full-text rows, the code examples and the vector
    index are as after the first run; so is the row of the guide when the
    clock reads the same. *)
Lemma processFile_twice (now1 now2 : string) (file : GuideFile) (b : Bindings) :
  let b1 := Eff.state_of (processFile YAML_parse JSON_stringify now1 file b) in
  let b2 := Eff.state_of (processFile YAML_parse JSON_stringify now2 file b1) in
  r2 b2 = r2 b1 /\
  D1.sections (db b2) = D1.sections (db b1) /\
  D1.guides_fts (db b2) = D1.guides_fts (db b1) /\
  D1.code_examples (db b2) = D1.code_examples (db b1) /\
  vectorize b2 = vectorize b1 /\
  (now1 = now2 -> b2 = b1).
Proof.
  cbn zeta. rewrite !processFile_run.
  destruct (extractFrontmatter YAML_parse (content file)) as [e | [metadata markdown]].
  { cbn. auto 10. }
  cbn [fst snd]. destruct metadata as [|m]; cbn [guideRow Eff.state_of fst].
  { rewrite uploaded_twice. auto 10. }
  match goal with
  | |- context [stored ?g2 _ (uploaded _ (stored ?g1 _ _))] =>
      destruct (stored_twice g1 g2 (parseMarkdown markdown) file b
                  eq_refl eq_refl eq_refl) as (H1 & H2 & H3 & H4 & H5 & H6)
  end.
  repeat (split; [assumption |]).
  intros <-. apply bindings_ext; try assumption.
  rewrite H6, stored_tables. cbn [db D1.guides]. apply insert_insert_eq.
Qed.

End GuideProcessorTwice.

(** ** Documents, batches and stores *)

(** Example documents and stand-ins for the libraries. *)
Module PipelineExamples.

(** A stand-in for [YAML.parse]: it throws on an unclosed flow sequence,
    returns [null] on an empty document and an object without
    properties otherwise. *)
Definition toy_yaml (s : string) : option GuideProcessor.YamlValue :=
  if String.eqb s "tags: [" then None
  else if String.eqb s "" then Some GuideProcessor.YamlNull
  else Some (GuideProcessor.YamlObject GuideProcessor.no_metadata).

(** A stand-in for [JSON.stringify] on arrays of words. *)
Definition toy_json (l : list string) : string := "[" +:+ join "," l +:+ "]".

(** A stand-in for [JSON.parse]: every column holds the empty array. *)
Definition toy_json_parse (s : string) : option (list string) := Some [].

Definition now : string := "2025-12-04T00:00:00.000Z".

(** A document without frontmatter. *)
Definition plain_file : GuideProcessor.GuideFile :=
  {| GuideProcessor.name := "notes.md";
     GuideProcessor.content := "# Notes" +:+ nl +:+ "plain text" |}.

(** A document whose frontmatter is not YAML. *)
Definition bad_file : GuideProcessor.GuideFile :=
  {| GuideProcessor.name := "bad.md";
     GuideProcessor.content :=
       "---" +:+ nl +:+ "tags: [" +:+ nl +:+ "---" +:+ nl +:+ "# Bad" +:+ nl |}.

Definition good_file : GuideProcessor.GuideFile :=
  {| GuideProcessor.name := "good.md";
     GuideProcessor.content :=
       "---" +:+ nl +:+ "title: Good" +:+ nl +:+ "---" +:+ nl +:+
       "# Good" +:+ nl +:+ "body" |}.

Definition no_stores : GuideProcessor.Bindings :=
  {| GuideProcessor.r2 := ∅; GuideProcessor.db := D1.empty;
     GuideProcessor.vectorize := None |}.

(** A database with the guide [sec-1] and one of its sections, and the
    bucket with its body. *)
Definition security_row : D1.GuideRow :=
  {| D1.g_id := "sec-1"; D1.g_title := "Security"; D1.g_category := "security";
     D1.g_subcategory := None; D1.g_type := "guide"; D1.g_status := "finalized";
     D1.g_version := "1.0"; D1.g_last_updated := "2025-12-04"; D1.g_tags := "[]";
     D1.g_related_guides := None; D1.g_markdown_url := "guides/sec-1.md" |}.

Definition security_section : D1.SectionRow :=
  {| D1.s_id := "section-1"; D1.s_guide_id := "sec-1"; D1.s_level := 2;
     D1.s_title := "A"; D1.s_content := "text"; D1.s_start_line := 1;
     D1.s_end_line := 2 |}.

Definition one_guide : D1.Database :=
  {| D1.guides := {[ "sec-1" := security_row ]};
     D1.sections := {[ "section-1" := security_section ]};
     D1.code_examples := ∅;
     D1.guides_fts := [] |}.

Definition one_body : R2.Bucket :=
  {[ "guides/sec-1.md" :=
       {| R2.body := "## A" +:+ nl +:+ "text"; R2.contentType := "text/markdown";
          R2.cacheControl := None; R2.customMetadata := [] |} ]}.

End PipelineExamples.

Section PipelineTheorems.
Import PipelineExamples.

(** C1, counterexample.  [plain_file] does not start with a frontmatter;
    [processFile] of [index.ts] does not fail on it and writes its text
    to the object store and a row to [guides]. *)
Lemma missing_header_counterexample :
  GuideProcessor.frontmatterRegex (GuideProcessor.content plain_file) = None /\
  let run := GuideProcessor.processFile toy_yaml toy_json now plain_file no_stores in
  Eff.result_of run = inr tt /\
  option_map R2.body (GuideProcessor.r2 (Eff.state_of run) !! "guides/notes.md")
    = Some (GuideProcessor.content plain_file) /\
  option_map D1.g_title (D1.guides (GuideProcessor.db (Eff.state_of run)) !! "notes")
    = Some "notes.md".
Proof. vm_compute. auto. Qed.

(** C1, as amended.  With [GuideParser], a document whose text has no
    frontmatter (in particular one that does not start with three
    hyphens and a line feed) fails with the error [No frontmatter found
    in markdown]; the error is logged under the name of the document
    and the three stores are left as they were.  With [index.ts], such a
    document is processed with no metadata and its whole text as body:
    it is uploaded and stored under the defaults of the missing
    properties, and no error is raised. *)
Theorem missing_header :
  (forall yaml_parse foreign_keys file c e,
     GuideProcessorDocs.extractFrontmatter (GuideProcessorDocs.file_content file) = inl e ->
     GuideProcessorDocs.processFile_caught yaml_parse foreign_keys file c =
     (c,
      [Log ("Processing: " +:+ GuideProcessorDocs.name file);
       ErrorLog ("Error processing " +:+ GuideProcessorDocs.name file +:+ ":")
         (Error "No frontmatter found in markdown")],
      inr tt)) /\
  (forall markdown,
     startsWith ("---" +:+ nl) markdown = false ->
     GuideProcessorDocs.extractFrontmatter markdown
       = inl (Error "No frontmatter found in markdown")) /\
  (forall YAML_parse JSON_stringify now file b,
     GuideProcessor.frontmatterRegex (GuideProcessor.content file) = None ->
     exists guide,
       GuideProcessor.guideRow JSON_stringify now file
         (GuideProcessor.guideIdOf (GuideProcessor.name file))
         ("guides/" +:+ GuideProcessor.guideIdOf (GuideProcessor.name file) +:+ ".md")
         (GuideProcessor.YamlObject GuideProcessor.no_metadata) = inr guide /\
       D1.g_title guide = GuideProcessor.name file /\
       D1.g_category guide = "uncategorized" /\
       Eff.result_of (GuideProcessor.processFile YAML_parse JSON_stringify now file b)
         = inr tt /\
       Eff.state_of (GuideProcessor.processFile YAML_parse JSON_stringify now file b)
         = stored guide (GuideProcessor.parseMarkdown (GuideProcessor.content file))
             (uploaded file b)).
Proof.
  split; [| split].
  - intros yaml_parse foreign_keys file c e H.
    rewrite processFile_caught_run.
    now rewrite (processFile_no_frontmatter yaml_parse foreign_keys file c e H).
  - apply extractFrontmatter_needs_delimiter.
  - intros YAML_parse JSON_stringify now file b H.
    eexists. split; [reflexivity |].
    rewrite processFile_run. unfold GuideProcessor.extractFrontmatter. rewrite H.
    cbn. destruct (GuideProcessor.name file); auto.
Qed.

Lemma missing_header_witness :
  Eff.state_of (GuideProcessorDocs.processFile_caught (fun _ => None) true
     {| GuideProcessorDocs.name := "notes.md";
        GuideProcessorDocs.file_content := "# Notes" +:+ nl +:+ "plain text" |}
     {| GuideProcessorDocs.r2 := ∅; GuideProcessorDocs.db := D1.empty;
        GuideProcessorDocs.vectorize := ∅ |})
  = {| GuideProcessorDocs.r2 := ∅; GuideProcessorDocs.db := D1.empty;
       GuideProcessorDocs.vectorize := ∅ |}.
Proof.
  rewrite (proj1 missing_header (fun _ => None) true _ _
             (Error "No frontmatter found in markdown")); reflexivity.
Defined.

(** The [catch] clause of [index.ts] logs the exception and throws it
    again. *)
Lemma processFile_caught_index_run YAML_parse JSON_stringify (now : string)
  (file : GuideProcessor.GuideFile) (b : GuideProcessor.Bindings) :
  GuideProcessor.processFile_caught YAML_parse JSON_stringify now file b =
  let first := GuideProcessor.processFile YAML_parse JSON_stringify now file b in
  match Eff.result_of first with
  | inl e => (Eff.state_of first,
              Eff.output_of first ++
              [ErrorLog ("Error processing " +:+ GuideProcessor.name file +:+ ":") e],
              inl e)
  | inr a => (Eff.state_of first, Eff.output_of first, inr a)
  end.
Proof.
  unfold GuideProcessor.processFile_caught, Eff.try_catch. cbn zeta.
  unfold Eff.result_of, Eff.state_of, Eff.output_of.
  destruct (GuideProcessor.processFile YAML_parse JSON_stringify now file b)
    as [[s1 out1] [e | a]]; reflexivity.
Qed.

(** C2, counterexample.  In a batch of [bad_file] and [good_file],
    [processAndUploadGuides] of [index.ts] throws the error of the first
    and never processes the second, which alone would have been
    uploaded. *)
Lemma batch_abort_counterexample :
  let batch := GuideProcessor.processAndUploadGuides toy_yaml toy_json (fun _ => now)
                 [bad_file; good_file] no_stores in
  let alone := GuideProcessor.processAndUploadGuides toy_yaml toy_json (fun _ => now)
                 [good_file] no_stores in
  Eff.result_of batch = inl YamlParseError /\
  GuideProcessor.r2 (Eff.state_of batch) !! "guides/good.md" = None /\
  Eff.result_of alone = inr tt /\
  option_map R2.body (GuideProcessor.r2 (Eff.state_of alone) !! "guides/good.md")
    = Some (GuideProcessor.content good_file).
Proof. vm_compute. auto. Qed.

(** C2, as amended.  With [docs/guide-processor.ts] a batch never
    throws: every document is processed in turn on the stores left by
    the documents before it, whether or not these failed, and a failure
    is logged once, under the name of the failing document, in its own
    turn.  With [index.ts] the failure of a document is logged and
    thrown again: the documents after it are not processed, those before
    it have been. *)
Theorem batch_failures :
  (forall yaml_parse foreign_keys files c,
     let step := fun c file =>
       Eff.state_of (GuideProcessorDocs.processFile yaml_parse foreign_keys file c) in
     Eff.result_of
       (GuideProcessorDocs.processAndUploadGuides yaml_parse foreign_keys files c)
       = inr tt /\
     Eff.state_of
       (GuideProcessorDocs.processAndUploadGuides yaml_parse foreign_keys files c)
       = fold_left step files c) /\
  (forall yaml_parse foreign_keys file c,
     GuideProcessorDocs.processFile_caught yaml_parse foreign_keys file c =
     (Eff.state_of (GuideProcessorDocs.processFile yaml_parse foreign_keys file c),
      Eff.output_of (GuideProcessorDocs.processFile yaml_parse foreign_keys file c) ++
      match Eff.result_of (GuideProcessorDocs.processFile yaml_parse foreign_keys file c)
      with
      | inl e => [ErrorLog ("Error processing " +:+ GuideProcessorDocs.name file +:+ ":") e]
      | inr _ => []
      end,
      inr tt)) /\
  (forall YAML_parse JSON_stringify clock file rest b,
     let first := GuideProcessor.processFile YAML_parse JSON_stringify (clock 0) file b in
     let batch := GuideProcessor.processAndUploadGuides YAML_parse JSON_stringify clock
                    (file :: rest) b in
     match Eff.result_of first with
     | inl e =>
         batch = (Eff.state_of first,
                  Eff.output_of first ++
                  [ErrorLog ("Error processing " +:+ GuideProcessor.name file +:+ ":") e],
                  inl e)
     | inr _ =>
         Eff.state_of batch =
         Eff.state_of
           (Eff.for_each_i 1 rest
              (fun i f => GuideProcessor.processFile_caught YAML_parse JSON_stringify
                            (clock i) f)
              (Eff.state_of first))
     end).
Proof.
  split; [| split].
  - intros yaml_parse foreign_keys files c step.
    unfold GuideProcessorDocs.processAndUploadGuides.
    destruct (for_each_total files
                (GuideProcessorDocs.processFile_caught yaml_parse foreign_keys) c)
      as (Hres & Hst).
    { intros x s'. now rewrite processFile_caught_run. }
    unfold Eff.bind, Eff.console, Eff.result_of, Eff.state_of in *.
    destruct (Eff.for_each files _ c) as [[s1 out1] r1]. cbn in Hres, Hst. subst r1.
    cbn. split; [reflexivity |]. rewrite Hst. clear.
    revert c. induction files as [|f files IH]; intros c; cbn [fold_left]; [reflexivity |].
    rewrite processFile_caught_run. cbn [fst]. apply IH.
  - intros. apply processFile_caught_run.
  - intros YAML_parse JSON_stringify clock file rest b. cbn zeta.
    unfold GuideProcessor.processAndUploadGuides. cbn [Eff.for_each_i].
    pose proof (processFile_caught_index_run YAML_parse JSON_stringify (clock 0) file b)
      as Hc.
    destruct (GuideProcessor.processFile YAML_parse JSON_stringify (clock 0) file b)
      as [[s1 out1] [e | []]]; cbn [Eff.result_of Eff.state_of Eff.output_of fst snd] in *.
    + now rewrite (bind_throws _ _ _ _ _ _ Hc).
    + now rewrite (bind_returns _ _ _ _ _ _ Hc).
Qed.

(** C8.  Processing a document again under the same guide id leaves the
    stores as the first processing left them: with [index.ts] the object
    store, the sections, the full-text rows, the code examples and the
    vector index are the same, whatever the two readings of the clock,
    and the whole stores are the same when the clock reads the same; a
    guide that was stored has exactly one full-text row.  With
    [docs/guide-processor.ts] the stores are the same too. *)
Theorem reprocessing_idempotent :
  (forall YAML_parse JSON_stringify now1 now2 file b,
     let b1 := Eff.state_of
                 (GuideProcessor.processFile YAML_parse JSON_stringify now1 file b) in
     let b2 := Eff.state_of
                 (GuideProcessor.processFile YAML_parse JSON_stringify now2 file b1) in
     GuideProcessor.r2 b2 = GuideProcessor.r2 b1 /\
     D1.sections (GuideProcessor.db b2) = D1.sections (GuideProcessor.db b1) /\
     D1.guides_fts (GuideProcessor.db b2) = D1.guides_fts (GuideProcessor.db b1) /\
     D1.code_examples (GuideProcessor.db b2) = D1.code_examples (GuideProcessor.db b1) /\
     GuideProcessor.vectorize b2 = GuideProcessor.vectorize b1 /\
     (now1 = now2 -> b2 = b1)) /\
  (forall YAML_parse JSON_stringify now file b,
     let run := GuideProcessor.processFile YAML_parse JSON_stringify now file b in
     Eff.result_of run = inr tt ->
     exists row,
       List.filter
         (fun r => String.eqb (D1.f_guide_id r)
                     (GuideProcessor.guideIdOf (GuideProcessor.name file)))
         (D1.guides_fts (GuideProcessor.db (Eff.state_of run))) = [row]) /\
  (forall yaml_parse foreign_keys file c,
     let c1 := Eff.state_of
                 (GuideProcessorDocs.processFile_caught yaml_parse foreign_keys file c) in
     Eff.state_of (GuideProcessorDocs.processFile_caught yaml_parse foreign_keys file c1)
       = c1).
Proof.
  split; [| split].
  - intros. apply processFile_twice.
  - intros YAML_parse JSON_stringify now file b. cbn zeta.
    rewrite processFile_run.
    destruct (GuideProcessor.extractFrontmatter YAML_parse (GuideProcessor.content file))
      as [e | [metadata markdown]]; [discriminate |].
    cbn [fst snd]. destruct metadata as [|m]; [discriminate |].
    cbn [GuideProcessor.guideRow Eff.result_of Eff.state_of fst snd]. intros _.
    rewrite stored_tables. cbn [GuideProcessor.db D1.guides_fts D1.g_id].
    eexists.
    match goal with
    | |- context [D1.fts_insert ?row _] =>
        change (GuideProcessor.guideIdOf (GuideProcessor.name file))
          with (D1.f_guide_id row)
    end.
    apply fts_replace_one_row.
  - intros yaml_parse foreign_keys file c. cbn zeta.
    rewrite !processFile_caught_run. cbn [Eff.state_of fst].
    apply processFile_docs_twice.
Qed.

Lemma reprocessing_idempotent_witness :
  let b1 := Eff.state_of (GuideProcessor.processFile toy_yaml toy_json now good_file
                            no_stores) in
  Eff.state_of (GuideProcessor.processFile toy_yaml toy_json now good_file b1) = b1 /\
  exists row,
    List.filter (fun r => String.eqb (D1.f_guide_id r) "good")
      (D1.guides_fts (GuideProcessor.db b1)) = [row].
Proof.
  split.
  - apply (proj1 reprocessing_idempotent toy_yaml toy_json now now good_file no_stores).
    reflexivity.
  - apply (proj1 (proj2 reprocessing_idempotent) toy_yaml toy_json now good_file no_stores).
    vm_compute. reflexivity.
Defined.

(** C9, counterexample.  The route of [GuideSearchService], asked for
    the section [section-1] of the guide [sec-1], succeeds and returns
    the whole body of the guide; and the worker answers the empty guide
    id, which is not in the store, with 400 and not with 404. *)
Lemma get_guide_counterexample :
  (exists guide,
     GuideSearchService.get_guide one_guide one_body "sec-1" (Some "section-1")
       = GuideSearchService.Ok guide /\
     GuideSearchService.markdown guide = "## A" +:+ nl +:+ "text") /\
  D1.guides one_guide !! "" = None /\
  WorkerRoutes.get_guide toy_json_parse (fun s => s) one_guide one_body (Some "") None
    = WorkerRoutes.BadRequest "guideId parameter is required".
Proof.
  split; [| split].
  - eexists. split; reflexivity.
  - reflexivity.
  - reflexivity.
Qed.

(** C9, as amended.  Both routes answer a guide id that is not in
    [guides] with the 404 response [Guide not found], never with a
    success; the worker does so for a guide id that is not empty, and
    answers 400 when the guide id is empty or absent.  When the worker
    succeeds and a section was asked for, its response holds no
    markdown, and otherwise it holds the body of the object store.  When
    the route of [GuideSearchService] succeeds, its response holds the
    body of the object store, or the empty text when there is none,
    whether a section was asked for or not. *)
Theorem get_guide_responses :
  (forall JSON_parse parse_error db bucket guideId sectionId,
     guideId <> "" ->
     D1.guides db !! guideId = None ->
     WorkerRoutes.get_guide JSON_parse parse_error db bucket (Some guideId) sectionId
       = WorkerRoutes.NotFound "Guide not found") /\
  (forall JSON_parse parse_error db bucket guideId sectionId,
     WorkerRoutes.truthy guideId = false ->
     WorkerRoutes.get_guide JSON_parse parse_error db bucket guideId sectionId
       = WorkerRoutes.BadRequest "guideId parameter is required") /\
  (forall JSON_parse parse_error db bucket guideId sectionId guide sections markdown,
     WorkerRoutes.get_guide JSON_parse parse_error db bucket guideId sectionId
       = WorkerRoutes.Success guide sections markdown ->
     if WorkerRoutes.truthy sectionId then markdown = None
     else markdown = option_map R2.body (bucket !! D1.g_markdown_url (WorkerRoutes.row guide))) /\
  (forall db bucket guideId sectionId,
     D1.guides db !! guideId = None ->
     GuideSearchService.get_guide db bucket guideId sectionId
       = GuideSearchService.NotFound "Guide not found") /\
  (forall db bucket guideId sectionId meta,
     D1.guides db !! guideId = Some meta ->
     exists guide,
       GuideSearchService.get_guide db bucket guideId sectionId = GuideSearchService.Ok guide /\
       GuideSearchService.markdown guide =
         default "" (option_map R2.body (bucket !! D1.g_markdown_url meta))).
Proof.
  split; [| split; [| split; [| split]]].
  - intros JSON_parse parse_error db bucket guideId sectionId Hne Hnone.
    unfold WorkerRoutes.get_guide. rewrite Hnone.
    destruct guideId; [congruence | reflexivity].
  - intros JSON_parse parse_error db bucket guideId sectionId Hfalsy.
    unfold WorkerRoutes.get_guide.
    destruct guideId as [[|c gid]|]; [reflexivity | discriminate | reflexivity].
  - intros JSON_parse parse_error db bucket guideId sectionId guide sections markdown.
    unfold WorkerRoutes.get_guide.
    destruct guideId as [[|c gid]|]; try discriminate.
    destruct (D1.guides db !! String c gid) as [row|]; [| discriminate].
    destruct (JSON_parse _) as [tags|]; [| discriminate].
    destruct (match D1.g_related_guides row with
              | Some "" | None => Some []
              | Some r => JSON_parse r
              end) as [related|]; [| discriminate].
    intros [= <- <- <-]. cbn [WorkerRoutes.row].
    destruct (WorkerRoutes.truthy sectionId); reflexivity.
  - intros db bucket guideId sectionId Hnone.
    unfold GuideSearchService.get_guide, GuideSearchService.getGuide.
    now rewrite Hnone.
  - intros db bucket guideId sectionId meta Hsome.
    unfold GuideSearchService.get_guide, GuideSearchService.getGuide.
    rewrite Hsome. eexists. split; [reflexivity |].
    cbn [GuideSearchService.markdown].
    now destruct (bucket !! D1.g_markdown_url meta).
Qed.

(** The store with the guide [sec-1]: a guide that is missing, a
    section of the guide through both routes, and a request without a
    guide id. *)
Lemma get_guide_responses_witness :
  WorkerRoutes.get_guide toy_json_parse (fun s => s) one_guide one_body
    (Some "missing-id") None = WorkerRoutes.NotFound "Guide not found" /\
  WorkerRoutes.get_guide toy_json_parse (fun s => s) one_guide one_body
    None (Some "section-1") = WorkerRoutes.BadRequest "guideId parameter is required" /\
  (exists guide sections,
     WorkerRoutes.get_guide toy_json_parse (fun s => s) one_guide one_body
       (Some "sec-1") (Some "section-1") = WorkerRoutes.Success guide sections None) /\
  GuideSearchService.get_guide one_guide one_body "missing-id" None
    = GuideSearchService.NotFound "Guide not found" /\
  (exists guide,
     GuideSearchService.get_guide one_guide one_body "sec-1" (Some "section-1")
       = GuideSearchService.Ok guide /\
     GuideSearchService.markdown guide = "## A" +:+ nl +:+ "text").
Proof.
  destruct get_guide_responses as (H404 & H400 & Hmarkdown & Hmissing & Hbody).
  split; [| split; [| split; [| split]]].
  - apply H404; [discriminate | reflexivity].
  - apply H400. reflexivity.
  - destruct (WorkerRoutes.get_guide toy_json_parse (fun s => s) one_guide one_body
                (Some "sec-1") (Some "section-1")) as [e | e | e | guide sections markdown] eqn:E;
      try (vm_compute in E; discriminate).
    exists guide, sections.
    now rewrite (Hmarkdown _ _ _ _ _ _ _ _ _ E).
  - apply Hmissing. reflexivity.
  - destruct (Hbody one_guide one_body "sec-1" (Some "section-1") security_row eq_refl)
      as (guide & Hok & Hmd).
    exists guide. split; [exact Hok |]. rewrite Hmd. reflexivity.
Defined.

End PipelineTheorems.

(** * Further properties of the sources *)

(** ** Patterns: what a match says about the text *)

Section PatternFacts.

(** All characters of a string are white space. *)
Definition all_space (s : string) : bool := forallb_char is_space s.

Fixpoint hashes (n : nat) : string :=
  match n with
  | O => ""
  | S k => String "#" (hashes k)
  end.

Lemma startsWith_spec (p s : string) :
  startsWith p s = true -> s = p +:+ string_drop (String.length p) s.
Proof.
  revert s. induction p as [|a p IH]; intros s H; [reflexivity |].
  destruct s as [|b s]; [discriminate |]. cbn in H |- *.
  destruct (Ascii.eqb_spec a b) as [->|]; [| discriminate].
  f_equal. now apply IH.
Qed.

Lemma startsWith_app (p r : string) : startsWith p (p +:+ r) = true.
Proof.
  induction p as [|a p IH]; [reflexivity |]. cbn. now rewrite Ascii.eqb_refl.
Qed.

Lemma string_drop_app (p r : string) : string_drop (String.length p) (p +:+ r) = r.
Proof. induction p as [|a p IH]; [reflexivity | exact IH]. Qed.

Context {R : Type}.

Lemma lazy_any_until_sound (sep : string) (k : string -> option R) (s f : string) (x : R) :
  lazy_any_until sep k s = Some (f, x) ->
  exists r, s = f +:+ sep +:+ r /\ k r = Some x.
Proof.
  revert f. induction s as [|c s IH]; intros f; cbn [lazy_any_until].
  - destruct (startsWith sep "") eqn:E.
    + destruct (k (string_drop (String.length sep) "")) as [y|] eqn:Ek; [| discriminate].
      intros [= <- <-]. exists (string_drop (String.length sep) "").
      split; [now apply startsWith_spec | exact Ek].
    + discriminate.
  - destruct (if startsWith sep (String c s)
              then k (string_drop (String.length sep) (String c s)) else None) as [y|] eqn:Ek.
    + intros [= <- <-].
      destruct (startsWith sep (String c s)) eqn:E; [| discriminate].
      exists (string_drop (String.length sep) (String c s)).
      split; [now apply startsWith_spec | exact Ek].
    + destruct (lazy_any_until sep k s) as [[f' y]|] eqn:El; [| discriminate].
      intros [= <- <-]. destruct (IH f' eq_refl) as (r & -> & Hk).
      exists r. split; [reflexivity | exact Hk].
Qed.

(** The match is lazy: it exists whenever some split of the text fits,
    and its prefix is the shortest. *)
Lemma lazy_any_until_complete (sep : string) (k : string -> option R) (f r : string) (x : R) :
  k r = Some x ->
  exists f' x', lazy_any_until sep k (f +:+ sep +:+ r) = Some (f', x') /\
                String.length f' <= String.length f.
Proof.
  intros Hk. induction f as [|c f IH].
  - exists "", x. split; [| cbn; lia].
    cbn [String.append].
    destruct (sep +:+ r) as [|c s] eqn:E; cbn [lazy_any_until];
      rewrite <- E, startsWith_app, string_drop_app, Hk; reflexivity.
  - destruct IH as (f' & x' & Hl & Hlen).
    cbn [String.append lazy_any_until].
    destruct (if startsWith sep (String c (f +:+ sep +:+ r))
              then k (string_drop (String.length sep) (String c (f +:+ sep +:+ r)))
              else None) as [y|].
    + exists "", y. split; [reflexivity | cbn; lia].
    + rewrite Hl. exists (String c f'), x'. split; [reflexivity | cbn; lia].
Qed.

Lemma greedy_ws_then_lf_sound (k : string -> option R) (s : string) (x : R) :
  greedy_ws_then_lf k s = Some x ->
  exists w r, s = w +:+ nl +:+ r /\ all_space w = true /\ k r = Some x.
Proof.
  induction s as [|c s IH]; cbn [greedy_ws_then_lf]; [discriminate |].
  destruct (is_space c) eqn:Hc; [| discriminate].
  destruct (greedy_ws_then_lf k s) as [y|].
  - intros [= <-]. destruct (IH eq_refl) as (w & r & -> & Hw & Hk).
    exists (String c w), r. repeat split; [| exact Hk]. cbn. now rewrite Hc.
  - destruct (Ascii.eqb_spec c LF) as [->|]; [| discriminate].
    intros Hk. exists "", s. repeat split. exact Hk.
Qed.

Lemma greedy_ws_then_lf_complete (k : string -> option R) (w r : string) (x : R) :
  all_space w = true -> k r = Some x ->
  exists x', greedy_ws_then_lf k (w +:+ nl +:+ r) = Some x'.
Proof.
  intros Hw Hk. induction w as [|c w IH].
  - cbn. destruct (greedy_ws_then_lf k r) as [y|]; eauto.
  - cbn in Hw. apply andb_true_iff in Hw as [Hc Hw].
    destruct (IH Hw) as (x' & Hx'). cbn [String.append greedy_ws_then_lf].
    rewrite Hc, Hx'. eauto.
Qed.

Lemma greedy_ws_plus_sound (k : string -> option R) (s : string) (x : R) :
  greedy_ws_plus k s = Some x ->
  exists w r, s = w +:+ r /\ w <> "" /\ all_space w = true /\ k r = Some x.
Proof.
  induction s as [|c s IH]; cbn [greedy_ws_plus]; [discriminate |].
  destruct (is_space c) eqn:Hc; [| discriminate].
  destruct (greedy_ws_plus k s) as [y|].
  - intros [= <-]. destruct (IH eq_refl) as (w & r & -> & _ & Hw & Hk).
    exists (String c w), r. repeat split; [discriminate | | exact Hk].
    cbn. now rewrite Hc.
  - intros Hk. exists (String c ""), s. repeat split; [discriminate | | exact Hk].
    cbn. now rewrite Hc.
Qed.

Lemma greedy_ws_plus_complete (k : string -> option R) (w r : string) (x : R) :
  w <> "" -> all_space w = true -> k r = Some x ->
  exists x', greedy_ws_plus k (w +:+ r) = Some x'.
Proof.
  intros Hne Hw Hk. induction w as [|c w IH]; [congruence |].
  cbn in Hw. apply andb_true_iff in Hw as [Hc Hw].
  cbn [String.append greedy_ws_plus]. rewrite Hc.
  destruct w as [|d w].
  - cbn [String.append]. destruct (greedy_ws_plus k r); [eauto |]. rewrite Hk. eauto.
  - destruct (IH ltac:(discriminate) Hw) as (x' & Hx'). rewrite Hx'. eauto.
Qed.

End PatternFacts.

(** ** The header block of a guide file *)

Section FrontmatterFacts.

Import GuideProcessorDocs.

(** A document made of a header block [f] and a body, as the draft parser
    reads it. *)
Definition with_frontmatter (f body : string) : string :=
  "---" +:+ nl +:+ f +:+ nl +:+ "---" +:+ nl +:+ body.

Definition nonempty (r : string) : option string :=
  match r with "" => None | _ => Some r end.

Lemma nonempty_some (r x : string) : nonempty r = Some x -> x = r /\ r <> "".
Proof. destruct r; [discriminate |]. intros [= <-]. split; [reflexivity | discriminate]. Qed.

Lemma extractFrontmatter_unfold (c : ascii) (rest : string) :
  extractFrontmatter ("---" +:+ nl +:+ String c rest) =
  match lazy_any_until (nl +:+ "---" +:+ nl) nonempty rest with
  | Some (f, body) => inr (String c f, body)
  | None => inl (Error "No frontmatter found in markdown")
  end.
Proof. reflexivity. Qed.

Lemma extractFrontmatter_prefix (markdown : string) (r : string * string) :
  extractFrontmatter markdown = inr r ->
  exists c rest, markdown = "---" +:+ nl +:+ String c rest.
Proof.
  unfold extractFrontmatter. intros H.
  destruct (startsWith ("---" +:+ nl) markdown) eqn:Hs; [| discriminate].
  apply startsWith_spec in Hs. cbn [String.length String.append nl] in Hs.
  destruct (string_drop 4 markdown) as [|c rest] eqn:Hd; [discriminate |].
  exists c, rest. rewrite Hs. reflexivity.
Qed.

(** X1.  When the draft parser accepts a document, the document is the
    opening line of three hyphens, the header block, a line of three
    hyphens and the body, in this order; the header block and the body
    are not empty, and the header block is the shortest one that splits
    the document this way. *)
Theorem extractFrontmatter_splits (markdown f body : string) :
  extractFrontmatter markdown = inr (f, body) ->
  markdown = with_frontmatter f body /\ f <> "" /\ body <> "" /\
  forall f' body', f' <> "" -> body' <> "" ->
    markdown = with_frontmatter f' body' -> String.length f <= String.length f'.
Proof.
  intros H. destruct (extractFrontmatter_prefix _ _ H) as (c & rest & ->).
  rewrite extractFrontmatter_unfold in H.
  destruct (lazy_any_until (nl +:+ "---" +:+ nl) nonempty rest) as [[f0 b0]|] eqn:Hl;
    [| discriminate].
  injection H as <- <-.
  destruct (lazy_any_until_sound _ _ _ _ _ Hl) as (r & -> & Hr).
  apply nonempty_some in Hr as [-> Hne].
  repeat split; [discriminate | exact Hne |].
  intros f' body' Hf' Hb' E.
  destruct f' as [|c' f'']; [congruence |].
  unfold with_frontmatter in E. cbn in E. injection E as -> E.
  assert (Hk : nonempty body' = Some body') by (destruct body'; [congruence | reflexivity]).
  destruct (lazy_any_until_complete (nl +:+ "---" +:+ nl) nonempty f'' body' body' Hk)
    as (f1 & x1 & Hl1 & Hlen).
  cbn in Hl, Hl1. rewrite E in Hl. rewrite Hl in Hl1. injection Hl1 as <- <-.
  cbn. lia.
Qed.

Lemma extractFrontmatter_splits_witness :
  let markdown := with_frontmatter "id: a" ("# A" +:+ nl +:+ "---" +:+ nl +:+ "text") in
  extractFrontmatter markdown = inr ("id: a", "# A" +:+ nl +:+ "---" +:+ nl +:+ "text") /\
  String.length "id: a" <= String.length ("id: a" +:+ nl +:+ "---" +:+ nl +:+ "# A").
Proof.
  cbv zeta.
  assert (H : extractFrontmatter
                (with_frontmatter "id: a" ("# A" +:+ nl +:+ "---" +:+ nl +:+ "text")) =
              inr ("id: a", "# A" +:+ nl +:+ "---" +:+ nl +:+ "text")) by reflexivity.
  split; [exact H |].
  refine (proj2 (proj2 (proj2 (extractFrontmatter_splits _ _ _ H)))
            ("id: a" +:+ nl +:+ "---" +:+ nl +:+ "# A") "text" _ _ _);
    [discriminate | discriminate | reflexivity].
Defined.

(** X2.  Every document that has an opening line of three hyphens, a
    header block of at least one character, a line of three hyphens and a
    body of at least one character is accepted by the draft parser, with a
    header block that is not longer than the one given. *)
Theorem extractFrontmatter_accepts (f body : string) :
  f <> "" -> body <> "" ->
  exists f' body', extractFrontmatter (with_frontmatter f body) = inr (f', body') /\
                   String.length f' <= String.length f.
Proof.
  intros Hf Hb. destruct f as [|c f]; [congruence |].
  assert (Hk : nonempty body = Some body) by (destruct body; [congruence | reflexivity]).
  destruct (lazy_any_until_complete (nl +:+ "---" +:+ nl) nonempty f body body Hk)
    as (f1 & x1 & Hl1 & Hlen).
  exists (String c f1), x1.
  change (with_frontmatter (String c f) body)
    with ("---" +:+ nl +:+ String c (f +:+ (nl +:+ "---" +:+ nl) +:+ body)).
  rewrite extractFrontmatter_unfold, Hl1. split; [reflexivity | cbn; lia].
Qed.

Lemma extractFrontmatter_accepts_witness :
  exists f' body', extractFrontmatter (with_frontmatter "id: a" "text") = inr (f', body') /\
                   String.length f' <= String.length "id: a".
Proof. apply extractFrontmatter_accepts; discriminate. Defined.

End FrontmatterFacts.

Section FrontmatterRegexFacts.

Import GuideProcessor.

(** A file with a header block as the deployed processor reads it: white
    space may follow each line of three hyphens. *)
Definition fenced (w1 f w2 md : string) : string :=
  "---" +:+ w1 +:+ nl +:+ f +:+ nl +:+ "---" +:+ w2 +:+ nl +:+ md.

(** X3.  The deployed processor finds a header block exactly in the files
    that start with three hyphens, white space and a line feed, and
    contain later a line feed, three hyphens, white space and a line feed;
    the two groups are the text between these delimiters and the text
    after them.  The header block and the body may be empty. *)
Theorem frontmatterRegex_shape (content : string) :
  (forall f md, frontmatterRegex content = Some (f, md) ->
     exists w1 w2, content = fenced w1 f w2 md /\
                   all_space w1 = true /\ all_space w2 = true) /\
  (forall w1 f w2 md, all_space w1 = true -> all_space w2 = true ->
     content = fenced w1 f w2 md -> frontmatterRegex content <> None).
Proof.
  split.
  - intros f md. unfold frontmatterRegex.
    destruct (startsWith "---" content) eqn:Hs; [| discriminate].
    apply startsWith_spec in Hs. cbn [String.length] in Hs. intros H.
    apply greedy_ws_then_lf_sound in H as (w1 & r & Hr & Hw1 & H).
    apply lazy_any_until_sound in H as (r2 & -> & H).
    apply greedy_ws_then_lf_sound in H as (w2 & r3 & -> & Hw2 & [= ->]).
    exists w1, w2. repeat split; [| exact Hw1 | exact Hw2].
    rewrite Hs, Hr. reflexivity.
  - intros w1 f w2 md Hw1 Hw2 ->. unfold frontmatterRegex, fenced.
    rewrite startsWith_app.
    change (String.length "---") with 3.
    rewrite (string_drop_app "---").
    destruct (greedy_ws_then_lf_complete Some w2 md md Hw2 eq_refl) as (x2 & H2).
    destruct (lazy_any_until_complete (nl +:+ "---") (greedy_ws_then_lf Some)
                f (w2 +:+ nl +:+ md) x2 H2) as (f' & x' & H1 & _).
    destruct (greedy_ws_then_lf_complete
                (lazy_any_until (nl +:+ "---") (greedy_ws_then_lf Some))
                w1 (f +:+ (nl +:+ "---") +:+ w2 +:+ nl +:+ md) (f', x') Hw1 H1) as (x & H).
    cbn [String.append nl] in H |- *. rewrite H. discriminate.
Qed.

Lemma frontmatterRegex_shape_witness :
  frontmatterRegex (fenced " " "" "" "") = Some ("", "") /\
  frontmatterRegex (fenced " " "" "" "") <> None.
Proof.
  split; [reflexivity |].
  exact (proj2 (frontmatterRegex_shape (fenced " " "" "" "")) " " "" "" ""
           eq_refl eq_refl eq_refl).
Defined.

End FrontmatterRegexFacts.

(** ** Heading lines *)

Section HeadingFacts.

Lemma leading_hashes_spec (s r : string) (n : nat) :
  leading_hashes s = (n, r) -> s = hashes n +:+ r.
Proof.
  revert n r. induction s as [|c s IH]; intros n r H.
  - cbn in H. now injection H as <- <-.
  - cbn [leading_hashes] in H.
    destruct (Ascii.eqb_spec c "#") as [->|Hc].
    + destruct (leading_hashes s) as [m r'] eqn:E. injection H as <- <-.
      cbn. f_equal. now apply IH.
    + assert (E : (n, r) = (0, String c s)).
      { rewrite <- H. destruct c as [[] [] [] [] [] [] [] []]; try reflexivity.
        contradiction Hc. reflexivity. }
      injection E as -> ->. reflexivity.
Qed.

Lemma leading_hashes_app (n : nat) (c : ascii) (r : string) :
  c <> "#"%char -> leading_hashes (hashes n +:+ String c r) = (n, String c r).
Proof.
  intros Hc. induction n as [|n IH].
  - cbn. destruct c as [[] [] [] [] [] [] [] []]; try reflexivity.
    contradiction Hc. reflexivity.
  - cbn [hashes String.append leading_hashes]. now rewrite IH.
Qed.

Lemma dots_to_end_some (s t : string) :
  dots_to_end s = Some t -> t = s /\ s <> "" /\ forallb_char is_dot s = true.
Proof.
  unfold dots_to_end. destruct s as [|c s]; [discriminate |].
  destruct (forallb_char is_dot (String c s)) eqn:E; [| discriminate].
  intros [= <-]. repeat split. discriminate.
Qed.

Lemma headerMatch_sound (line title : string) (n : nat) :
  headerMatch line = Some (n, title) ->
  1 <= n <= 6 /\ title <> "" /\ forallb_char is_dot title = true /\
  exists ws, ws <> "" /\ all_space ws = true /\ line = hashes n +:+ ws +:+ title.
Proof.
  unfold headerMatch. destruct (leading_hashes line) as [m rest] eqn:Hl.
  destruct ((1 <=? m)%nat && (m <=? 6)%nat) eqn:Hm; [| discriminate].
  destruct (greedy_ws_plus dots_to_end rest) as [t|] eqn:Hg; [| discriminate].
  intros [= <- <-].
  apply andb_true_iff in Hm as [H1 H6].
  apply Nat.leb_le in H1. apply Nat.leb_le in H6.
  apply greedy_ws_plus_sound in Hg as (w & r & -> & Hne & Hw & Hd).
  apply dots_to_end_some in Hd as (-> & Hr & Hdots).
  apply leading_hashes_spec in Hl.
  repeat split; try assumption. exists w. repeat split; assumption.
Qed.

(** X4.  A line is a heading for both parsers when it is a run of one to
    six number signs, at least one white space, and a title of at least
    one character without line terminator: the level is the length of the
    run and the title is what follows the white space. *)
Theorem headerMatch_splits (line title : string) (n : nat) :
  headerMatch line = Some (n, title) ->
  1 <= n <= 6 /\ title <> "" /\ forallb_char is_dot title = true /\
  exists ws, ws <> "" /\ all_space ws = true /\ line = hashes n +:+ ws +:+ title.
Proof. apply headerMatch_sound. Qed.

Lemma headerMatch_splits_witness :
  1 <= 2 <= 6 /\ "Set up" <> "" /\ forallb_char is_dot "Set up" = true /\
  exists ws, ws <> "" /\ all_space ws = true /\ "##  Set up" = hashes 2 +:+ ws +:+ "Set up".
Proof. apply (headerMatch_splits "##  Set up" "Set up" 2). reflexivity. Defined.

Lemma all_space_not_hash (c : ascii) : is_space c = true -> c <> "#"%char.
Proof. intros H ->. discriminate. Qed.

(** X5.  Conversely every line made of one to six number signs, white
    space and a title without line terminator is read as a heading of that
    level; a run of seven or more number signs is no heading. *)
Theorem headerMatch_accepts (n : nat) (ws title : string) :
  ws <> "" -> all_space ws = true -> title <> "" -> forallb_char is_dot title = true ->
  (1 <= n <= 6 -> exists title', headerMatch (hashes n +:+ ws +:+ title) = Some (n, title')) /\
  (6 < n -> headerMatch (hashes n +:+ ws +:+ title) = None).
Proof.
  intros Hne Hw Ht Hd.
  assert (Hl : leading_hashes (hashes n +:+ ws +:+ title) = (n, ws +:+ title)).
  { destruct ws as [|c ws]; [congruence |]. cbn in Hw.
    apply andb_true_iff in Hw as [Hc _].
    apply (leading_hashes_app n c (ws +:+ title)). now apply all_space_not_hash. }
  split; intros Hn; unfold headerMatch; rewrite Hl.
  - assert (Hk : dots_to_end title = Some title).
    { unfold dots_to_end. rewrite Hd. destruct title; [congruence | reflexivity]. }
    destruct (greedy_ws_plus_complete dots_to_end ws title title Hne Hw Hk) as (t & Hg).
    rewrite Hg.
    replace ((1 <=? n)%nat && (n <=? 6)%nat) with true; [eauto |].
    symmetry. apply andb_true_iff. split; apply Nat.leb_le; lia.
  - replace (n <=? 6)%nat with false; [now rewrite andb_false_r |].
    symmetry. apply Nat.leb_gt. lia.
Qed.

Lemma headerMatch_accepts_witness :
  (exists title', headerMatch (hashes 3 +:+ " " +:+ "Use") = Some (3, title')) /\
  headerMatch (hashes 7 +:+ " " +:+ "Use") = None.
Proof.
  split.
  - apply (proj1 (headerMatch_accepts 3 " " "Use" ltac:(discriminate) eq_refl
                    ltac:(discriminate) eq_refl)). lia.
  - apply (proj2 (headerMatch_accepts 7 " " "Use" ltac:(discriminate) eq_refl
                    ltac:(discriminate) eq_refl)). lia.
Defined.

End HeadingFacts.

(** ** Sections and heading lines *)

Section SectionHeadings.

(** The headings of a text: level and title of every line that is a
    heading, in the order of the lines. *)
Definition headings (lines : list string) : list (nat * string) := omap headerMatch lines.

Definition open_list {A B} (f : A -> B) (cur : option A) : list B :=
  match cur with
  | Some c => [f c]
  | None => []
  end.

Definition heading_of (s : GuideProcessor.Section) : nat * string :=
  (GuideProcessor.level s, GuideProcessor.sec_title s).

Definition heading_of_docs (s : GuideProcessorDocs.Section) : nat * string * string :=
  (GuideProcessorDocs.level s, GuideProcessorDocs.sec_title s, GuideProcessorDocs.sec_id s).

Definition heading_of_partial (p : GuideProcessorDocs.PartialSection)
  : nat * string * string :=
  (GuideProcessorDocs.p_level p, GuideProcessorDocs.p_title p, GuideProcessorDocs.p_id p).

Definition with_id (h : nat * string) : nat * string * string :=
  (fst h, snd h, GuideProcessorDocs.generateSectionId (snd h)).

Lemma pushSection_map {B} (f : GuideProcessor.Section -> B)
  (sections : list GuideProcessor.Section) (cur : option GuideProcessor.Section) (n : nat) :
  (forall c, f (GuideProcessor.set_end_line n c) = f c) ->
  map f (GuideProcessor.pushSection sections cur n) = map f sections ++ open_list f cur.
Proof.
  intros Hf. destruct cur as [c|]; cbn.
  - now rewrite map_app, <- Hf.
  - now rewrite app_nil_r.
Qed.

Lemma parseMarkdown_loop_headings (rest : list string) :
  forall lineNum sections cur,
    map heading_of (GuideProcessor.parseMarkdown_loop lineNum rest sections cur) =
    map heading_of sections ++ open_list heading_of cur ++ headings rest.
Proof.
  induction rest as [|line rest IH]; intros lineNum sections cur.
  - cbn [GuideProcessor.parseMarkdown_loop headings omap list_omap].
    rewrite app_nil_r. now apply pushSection_map.
  - cbn [GuideProcessor.parseMarkdown_loop]. cbn zeta.
    unfold headings. cbn [omap list_omap].
    destruct (headerMatch line) as [[lvl ttl]|].
    + rewrite IH. rewrite pushSection_map by reflexivity.
      cbn [open_list]. rewrite <- !app_assoc. reflexivity.
    + rewrite IH. destruct cur; reflexivity.
Qed.

Lemma saveSection_map (sections : list GuideProcessorDocs.Section)
  (cur : option GuideProcessorDocs.PartialSection) sc cb (n : nat) :
  map heading_of_docs (GuideProcessorDocs.saveSection sections cur sc cb n) =
  map heading_of_docs sections ++ open_list heading_of_partial cur.
Proof.
  destruct cur as [c|]; cbn.
  - now rewrite map_app.
  - now rewrite app_nil_r.
Qed.

Lemma extractSections_loop_headings (rest : list string) :
  forall i sections cur sc cb,
    map heading_of_docs (GuideProcessorDocs.extractSections_loop i rest sections cur sc cb) =
    map heading_of_docs sections ++ open_list heading_of_partial cur ++
    map with_id (headings rest).
Proof.
  induction rest as [|line rest IH]; intros i sections cur sc cb.
  - cbn [GuideProcessorDocs.extractSections_loop headings omap list_omap map].
    rewrite app_nil_r. apply saveSection_map.
  - cbn [GuideProcessorDocs.extractSections_loop].
    unfold headings. cbn [omap list_omap].
    destruct (headerMatch line) as [[lvl ttl]|].
    + rewrite IH, saveSection_map. cbn [open_list map]. rewrite <- !app_assoc. reflexivity.
    + now rewrite IH.
Qed.

(** X6.  Both parsers make one section for each heading line of the
    text, in the order of the lines and with the heading's level and
    title; no line is exempt, so a line that looks like a heading inside a
    code fence starts a section as well.  The draft parser derives the
    section id from the title alone. *)
Theorem sections_follow_headings (text : string) :
  map heading_of (GuideProcessor.parseMarkdown text) = headings (split_lines text) /\
  map heading_of_docs (GuideProcessorDocs.extractSections text) =
  map with_id (headings (split_lines text)).
Proof.
  split.
  - unfold GuideProcessor.parseMarkdown. now rewrite parseMarkdown_loop_headings.
  - unfold GuideProcessorDocs.extractSections. now rewrite extractSections_loop_headings.
Qed.

Definition numbered_id (i : nat) : string := "section-" +:+ num i.

Lemma numbered_id_inj (i j : nat) : numbered_id i = numbered_id j -> i = j.
Proof.
  unfold numbered_id, num. cbn. intros [= H].
  exact (pretty_nat_inj _ _ H).
Qed.

Lemma parseMarkdown_loop_ids (rest : list string) :
  forall lineNum sections cur,
    map GuideProcessor.sec_id (GuideProcessor.parseMarkdown_loop lineNum rest sections cur) =
    map GuideProcessor.sec_id sections ++ open_list GuideProcessor.sec_id cur ++
    map numbered_id
      (seq (List.length sections + List.length (open_list GuideProcessor.sec_id cur) + 1)
           (List.length (headings rest))).
Proof.
  induction rest as [|line rest IH]; intros lineNum sections cur.
  - cbn [GuideProcessor.parseMarkdown_loop headings omap list_omap List.length seq map].
    rewrite app_nil_r. now apply pushSection_map.
  - cbn [GuideProcessor.parseMarkdown_loop]. cbn zeta.
    unfold headings. cbn [omap list_omap].
    destruct (headerMatch line) as [[lvl ttl]|].
    + rewrite IH. rewrite pushSection_map by reflexivity.
      cbn [open_list GuideProcessor.sec_id List.length seq map].
      rewrite <- !app_assoc. f_equal. f_equal.
      assert (E : List.length (GuideProcessor.pushSection sections cur (S lineNum - 1)) =
                  List.length sections + List.length (open_list GuideProcessor.sec_id cur)).
      { destruct cur; cbn; [rewrite length_app; cbn; lia | lia]. }
      rewrite E. cbn [app]. f_equal. f_equal. f_equal. lia.
    + rewrite IH. destruct cur; reflexivity.
Qed.

Lemma parseMarkdown_numbered (markdown : string) :
  map GuideProcessor.sec_id (GuideProcessor.parseMarkdown markdown) =
    map numbered_id (seq 1 (List.length (GuideProcessor.parseMarkdown markdown))) /\
  List.NoDup (map GuideProcessor.sec_id (GuideProcessor.parseMarkdown markdown)).
Proof.
  assert (H : map GuideProcessor.sec_id (GuideProcessor.parseMarkdown markdown) =
              map numbered_id (seq 1 (List.length (headings (split_lines markdown))))).
  { unfold GuideProcessor.parseMarkdown. now rewrite parseMarkdown_loop_ids. }
  assert (L : List.length (GuideProcessor.parseMarkdown markdown) =
              List.length (headings (split_lines markdown))).
  { rewrite <- (length_map heading_of).
    unfold GuideProcessor.parseMarkdown. now rewrite parseMarkdown_loop_headings. }
  split.
  - now rewrite L.
  - rewrite H. apply Finite.Injective_map_NoDup.
    + intros i j. apply numbered_id_inj.
    + apply List.seq_NoDup.
Qed.

(** X7.  The deployed parser numbers its sections: the ids are
    [section-1], [section-2], ... in the order of the sections, so no two
    sections of one text share an id. *)
Theorem parseMarkdown_ids (markdown : string) :
  let sections := GuideProcessor.parseMarkdown markdown in
  map GuideProcessor.sec_id sections = map numbered_id (seq 1 (List.length sections)) /\
  List.NoDup (map GuideProcessor.sec_id sections).
Proof. exact (parseMarkdown_numbered markdown). Qed.

End SectionHeadings.

(** ** Trimmed content and identifiers *)

Section TrimFacts.

Definition starts_with_space (s : string) : bool :=
  match s with
  | "" => false
  | String c _ => is_space c
  end.

Fixpoint ends_with_space (s : string) : bool :=
  match s with
  | "" => false
  | String c s' =>
      match s' with
      | "" => is_space c
      | _ => ends_with_space s'
      end
  end.

Lemma trimStart_starts (s : string) : starts_with_space (trimStart s) = false.
Proof.
  induction s as [|c s IH]; [reflexivity |]. cbn [trimStart].
  destruct (is_space c) eqn:Hc; [exact IH | cbn; exact Hc].
Qed.

Lemma trimEnd_starts (s : string) :
  starts_with_space s = false -> starts_with_space (trimEnd s) = false.
Proof.
  destruct s as [|c s]; [reflexivity |]. cbn [starts_with_space trimEnd]. intros Hc.
  rewrite Hc. destruct (trimEnd s); cbn; exact Hc.
Qed.

Lemma trimEnd_ends (s : string) : ends_with_space (trimEnd s) = false.
Proof.
  induction s as [|c s IH]; [reflexivity |]. cbn [trimEnd].
  destruct (trimEnd s) as [|d r] eqn:E.
  - destruct (is_space c) eqn:Hc; [reflexivity | cbn; exact Hc].
  - exact IH.
Qed.

Lemma trim_trimmed (s : string) :
  starts_with_space (trim s) = false /\ ends_with_space (trim s) = false.
Proof.
  unfold trim. split; [apply trimEnd_starts, trimStart_starts | apply trimEnd_ends].
Qed.

Lemma trimStart_fixed (s : string) : starts_with_space s = false -> trimStart s = s.
Proof. destruct s as [|c s]; [reflexivity |]. cbn. now intros ->. Qed.

Lemma trimEnd_fixed (s : string) : ends_with_space s = false -> trimEnd s = s.
Proof.
  induction s as [|c s IH]; [reflexivity |]. cbn [ends_with_space trimEnd].
  destruct s as [|d s].
  - cbn. now intros ->.
  - intros H. rewrite (IH H). reflexivity.
Qed.

Definition trimmed (s : string) : Prop :=
  starts_with_space s = false /\ ends_with_space s = false.

Lemma extractSections_loop_trimmed (rest : list string) :
  forall i sections cur sc cb,
    Forall (fun s => trimmed (GuideProcessorDocs.content s)) sections ->
    Forall (fun s => trimmed (GuideProcessorDocs.content s))
      (GuideProcessorDocs.extractSections_loop i rest sections cur sc cb).
Proof.
  assert (Hsave : forall sections cur sc cb n,
    Forall (fun s => trimmed (GuideProcessorDocs.content s)) sections ->
    Forall (fun s => trimmed (GuideProcessorDocs.content s))
      (GuideProcessorDocs.saveSection sections cur sc cb n)).
  { intros sections [c|] sc cb n H; cbn; [| exact H].
    apply Forall_app. split; [exact H |]. constructor; [| constructor].
    cbn. apply trim_trimmed. }
  induction rest as [|line rest IH]; intros i sections cur sc cb H.
  - cbn. now apply Hsave.
  - cbn [GuideProcessorDocs.extractSections_loop].
    destruct (headerMatch line) as [[lvl ttl]|]; apply IH; [now apply Hsave | exact H].
Qed.

(** X8.  The content of every section of the draft parser is trimmed: it
    neither starts nor ends with white space, and trimming it again
    changes nothing. *)
Theorem extractSections_trimmed (text : string) :
  Forall (fun s => trimmed (GuideProcessorDocs.content s) /\
                   trim (GuideProcessorDocs.content s) = GuideProcessorDocs.content s)
    (GuideProcessorDocs.extractSections text).
Proof.
  eapply List.Forall_impl; [| apply extractSections_loop_trimmed; constructor].
  intros s [Hs He]. split; [now split |].
  unfold trim. rewrite (trimStart_fixed _ Hs). now apply trimEnd_fixed.
Qed.

End TrimFacts.

Section IdentifierFacts.

Import GuideProcessorDocs.

Definition is_hyphen (c : ascii) : bool := Ascii.eqb c "-".

(** A character of a section id: a lower case letter, a digit or a hyphen. *)
Definition is_id_char (c : ascii) : bool := is_lower_alnum c || is_hyphen c.

(** No two hyphens in a row; [prev] tells that a hyphen precedes. *)
Fixpoint single_hyphens (prev : bool) (s : string) : bool :=
  match s with
  | "" => true
  | String c s' =>
      if is_hyphen c then negb prev && single_hyphens true s'
      else single_hyphens false s'
  end.

Fixpoint ends_with_hyphen (s : string) : bool :=
  match s with
  | "" => false
  | String c s' =>
      match s' with
      | "" => is_hyphen c
      | _ => ends_with_hyphen s'
      end
  end.

Lemma lower_alnum_not_hyphen (c : ascii) : is_lower_alnum c = true -> is_hyphen c = false.
Proof.
  unfold is_hyphen. destruct (Ascii.eqb_spec c "-") as [->|]; [discriminate | reflexivity].
Qed.

Lemma hyphenate_go_chars (s : string) :
  forall b, forallb_char is_id_char (hyphenate_go b s) = true.
Proof.
  induction s as [|c s IH]; intros b; [reflexivity |]. cbn [hyphenate_go].
  destruct (is_lower_alnum c) eqn:Hc.
  - cbn. unfold is_id_char at 1. now rewrite Hc, IH.
  - destruct b; [apply IH |]. cbn. apply IH.
Qed.

Lemma hyphenate_go_single (s : string) :
  forall b, single_hyphens b (hyphenate_go b s) = true.
Proof.
  induction s as [|c s IH]; intros b; [reflexivity |]. cbn [hyphenate_go].
  destruct (is_lower_alnum c) eqn:Hc.
  - cbn [single_hyphens]. rewrite (lower_alnum_not_hyphen _ Hc). apply IH.
  - destruct b; [apply IH |]. cbn. apply IH.
Qed.

Lemma single_hyphens_weaken (s : string) :
  single_hyphens true s = true ->
  single_hyphens false s = true /\ startsWith "-" s = false.
Proof.
  destruct s as [|c s]; [now split |]. cbn [single_hyphens startsWith negb andb].
  unfold is_hyphen. rewrite (Ascii.eqb_sym "-" c).
  destruct (Ascii.eqb c "-"); [discriminate | now split].
Qed.

Lemma strip_leading_hyphen_single (s : string) :
  single_hyphens false s = true ->
  single_hyphens false (strip_leading_hyphen s) = true /\
  startsWith "-" (strip_leading_hyphen s) = false.
Proof.
  destruct s as [|c s]; [now split |].
  destruct (Ascii.eqb_spec c "-") as [->|Hc].
  - cbn. apply single_hyphens_weaken.
  - intros H. replace (strip_leading_hyphen (String c s)) with (String c s).
    + split; [exact H |]. cbn [startsWith]. rewrite Ascii.eqb_sym.
      destruct (Ascii.eqb_spec c "-"); [contradiction | reflexivity].
    + destruct c as [[] [] [] [] [] [] [] []]; try reflexivity. contradiction Hc. reflexivity.
Qed.

Lemma strip_leading_hyphen_chars (s : string) :
  forallb_char is_id_char s = true -> forallb_char is_id_char (strip_leading_hyphen s) = true.
Proof.
  destruct s as [|c s]; [reflexivity |]. intros H.
  assert (Hs : forallb_char is_id_char s = true) by (cbn in H; now apply andb_true_iff in H).
  destruct c as [[] [] [] [] [] [] [] []]; first [exact H | exact Hs].
Qed.

Lemma strip_trailing_hyphen_chars (s : string) :
  forallb_char is_id_char s = true -> forallb_char is_id_char (strip_trailing_hyphen s) = true.
Proof.
  induction s as [|c s IH]; [reflexivity |]. cbn [forallb_char strip_trailing_hyphen].
  intros H. apply andb_true_iff in H as [Hc Hs]. destruct s as [|d s].
  - destruct (Ascii.eqb c "-"); [reflexivity | cbn; now rewrite Hc].
  - cbn [forallb_char]. rewrite Hc. now apply IH.
Qed.

Lemma strip_trailing_hyphen_single (s : string) :
  forall b, single_hyphens b s = true -> single_hyphens b (strip_trailing_hyphen s) = true.
Proof.
  induction s as [|c s IH]; intros b; [reflexivity |].
  cbn [single_hyphens strip_trailing_hyphen]. destruct s as [|d s].
  - unfold is_hyphen. destruct (Ascii.eqb c "-") eqn:Hc; [reflexivity |].
    cbn. unfold is_hyphen. now rewrite Hc.
  - cbn [single_hyphens]. destruct (is_hyphen c).
    + intros H. apply andb_true_iff in H as [Hb H]. rewrite Hb. now apply IH.
    + apply IH.
Qed.

Lemma strip_trailing_hyphen_starts (s : string) :
  startsWith "-" s = false -> startsWith "-" (strip_trailing_hyphen s) = false.
Proof.
  destruct s as [|c s]; [reflexivity |]. cbn [startsWith strip_trailing_hyphen].
  rewrite (Ascii.eqb_sym "-" c). destruct (Ascii.eqb c "-") eqn:Hc; [discriminate |].
  intros _. destruct s; cbn [startsWith]; now rewrite (Ascii.eqb_sym "-" c), Hc.
Qed.

Lemma strip_trailing_hyphen_empty (s : string) :
  strip_trailing_hyphen s = "" -> s = "" \/ s = "-".
Proof.
  destruct s as [|c s]; [now left |]. cbn [strip_trailing_hyphen].
  destruct s as [|d s]; [| discriminate].
  destruct (Ascii.eqb_spec c "-") as [->|]; [now right | discriminate].
Qed.

Lemma strip_trailing_hyphen_ends (s : string) :
  forall b, single_hyphens b s = true -> ends_with_hyphen (strip_trailing_hyphen s) = false.
Proof.
  induction s as [|c s IH]; intros b; [reflexivity |].
  cbn [single_hyphens strip_trailing_hyphen]. destruct s as [|d s].
  - unfold is_hyphen. destruct (Ascii.eqb c "-") eqn:Hc; [reflexivity |].
    intros _. cbn. unfold is_hyphen. exact Hc.
  - intros H. cbn [ends_with_hyphen].
    destruct (strip_trailing_hyphen (String d s)) as [|e r] eqn:E.
    + apply strip_trailing_hyphen_empty in E as [E|E]; [discriminate |].
      injection E as -> ->. cbn in H.
      destruct (is_hyphen c); [destruct b; discriminate | reflexivity].
    + destruct (is_hyphen c).
      * apply andb_true_iff in H as [_ H]. exact (IH _ H).
      * exact (IH _ H).
Qed.

Lemma endsWith_hyphen (s : string) : endsWith s "-" = ends_with_hyphen s.
Proof.
  induction s as [|c s IH]; [reflexivity |]. cbn [endsWith ends_with_hyphen].
  rewrite IH. unfold is_hyphen. destruct s as [|d s].
  - cbn [String.eqb ends_with_hyphen]. destruct (Ascii.eqb c "-"); reflexivity.
  - cbn [String.eqb]. destruct (Ascii.eqb c "-"); reflexivity.
Qed.

Lemma single_hyphens_includes (s : string) :
  forall b, single_hyphens b s = true -> includes s "--" = false.
Proof.
  induction s as [|c s IH]; intros b; [reflexivity |].
  cbn [single_hyphens includes startsWith]. unfold is_hyphen.
  rewrite (Ascii.eqb_sym "-" c). destruct (Ascii.eqb c "-").
  - intros H. apply andb_true_iff in H as [_ H]. rewrite (IH _ H), orb_false_r.
    apply single_hyphens_weaken in H as [_ H]. destruct s as [|d s]; [reflexivity |].
    cbn [startsWith] in H |- *. destruct (Ascii.eqb "-" d); [discriminate | reflexivity].
  - intros H. now rewrite (IH _ H).
Qed.

(** X9.  A section id made from a title consists of lower case ASCII
    letters, digits and hyphens only; it neither starts nor ends with a
    hyphen and has no two hyphens in a row. *)
Theorem generateSectionId_shape (title : string) :
  let i := generateSectionId title in
  forallb_char is_id_char i = true /\ startsWith "-" i = false /\
  endsWith i "-" = false /\ includes i "--" = false.
Proof.
  cbv zeta. unfold generateSectionId.
  pose proof (hyphenate_go_chars (toLowerCase title) false) as Hc.
  pose proof (hyphenate_go_single (toLowerCase title) false) as Hs.
  apply strip_leading_hyphen_single in Hs as [Hs Hl].
  apply strip_leading_hyphen_chars in Hc.
  repeat split.
  - now apply strip_trailing_hyphen_chars.
  - now apply strip_trailing_hyphen_starts.
  - rewrite endsWith_hyphen. now apply (strip_trailing_hyphen_ends _ false).
  - apply (single_hyphens_includes _ false). now apply strip_trailing_hyphen_single.
Qed.

End IdentifierFacts.

Section GuideIdFacts.

Import GuideProcessor.

Lemma toLowerChar_idempotent (c : ascii) : toLowerChar (toLowerChar c) = toLowerChar c.
Proof. destruct c as [[] [] [] [] [] [] [] []]; vm_compute; reflexivity. Qed.

Lemma toLowerChar_space (c : ascii) : is_space (toLowerChar c) = is_space c.
Proof. destruct c as [[] [] [] [] [] [] [] []]; vm_compute; reflexivity. Qed.

Lemma toLowerCase_idempotent (s : string) : toLowerCase (toLowerCase s) = toLowerCase s.
Proof.
  unfold toLowerCase. induction s as [|c s IH]; [reflexivity |].
  cbn [map_chars]. now rewrite toLowerChar_idempotent, IH.
Qed.

Lemma replace_ws_go_lower (s : string) :
  forall b, toLowerCase (replace_ws_go "-" b s) = replace_ws_go "-" b (toLowerCase s).
Proof.
  unfold toLowerCase. induction s as [|c s IH]; intros b; [reflexivity |].
  cbn [map_chars replace_ws_go]. rewrite toLowerChar_space.
  destruct (is_space c).
  - destruct b; [apply IH |]. cbn [String.append map_chars]. now rewrite IH.
  - cbn [map_chars]. now rewrite IH.
Qed.

Lemma replace_ws_go_no_space (s : string) :
  forall b, existsb_char is_space (replace_ws_go "-" b s) = false.
Proof.
  induction s as [|c s IH]; intros b; [reflexivity |]. cbn [replace_ws_go].
  destruct (is_space c) eqn:Hc.
  - destruct b; [apply IH |]. cbn [String.append existsb_char]. now rewrite IH.
  - cbn [existsb_char]. now rewrite Hc, IH.
Qed.

Lemma endsWith_app (n p : string) : endsWith (n +:+ p) p = true.
Proof.
  induction n as [|c n IH].
  - cbn [String.append]. destruct p; cbn [endsWith]; now rewrite String.eqb_refl.
  - cbn [String.append endsWith]. now rewrite IH, orb_true_r.
Qed.

Lemma drop_end_app (n p : string) : drop_end (String.length p) (n +:+ p) = n.
Proof.
  induction n as [|c n IH].
  - cbn [String.append]. destruct p as [|d p]; [reflexivity |].
    cbn [drop_end String.length].
    replace (String.length p <? S (String.length p))%nat with true; [reflexivity |].
    symmetry. apply Nat.ltb_lt. lia.
  - cbn [String.append drop_end].
    replace (String.length (n +:+ p) <? String.length p)%nat with false; [now rewrite IH |].
    symmetry. apply Nat.ltb_ge. rewrite str_length_app. lia.
Qed.

(** X10.  The guide id the deployed processor derives from a file name
    has no white space and no upper case letter; the extension [.md] is
    dropped when the name ends with it in lower case, so the id of
    [n.md] is [n] in lower case with every run of white space replaced by
    one hyphen. *)
Theorem guideIdOf_shape (name : string) :
  existsb_char is_space (guideIdOf name) = false /\
  toLowerCase (guideIdOf name) = guideIdOf name /\
  guideIdOf (name +:+ ".md") = replace_ws "-" (toLowerCase name).
Proof.
  unfold guideIdOf, replace_ws. repeat split.
  - apply replace_ws_go_no_space.
  - now rewrite replace_ws_go_lower, toLowerCase_idempotent.
  - rewrite endsWith_app. change 3 with (String.length ".md"). now rewrite drop_end_app.
Qed.

End GuideIdFacts.

(** ** Chunk identifiers *)

Section ChunkIds.

Import GuideProcessorDocs.

Variable m : GuideMetadata.
Variable section : Section.

(** The id of the [i]-th part of a split section. *)
Definition part_id (i : nat) : string :=
  id m +:+ "-" +:+ sec_id section +:+ "-" +:+ num i.

(** What every chunk of the section carries besides its text. *)
Definition belongs (c : Chunk) : Prop :=
  guideId c = id m /\ sectionId c = sec_id section /\
  tokens c = estimateTokens (text c) /\ metadata c = chunkMetadata m section.

Lemma str_app_inj_l (p a b : string) : p +:+ a = p +:+ b -> a = b.
Proof. induction p as [|c p IH]; [trivial |]. cbn. intros [= H]. now apply IH. Qed.

Lemma part_id_inj (i j : nat) : part_id i = part_id j -> i = j.
Proof.
  unfold part_id. intros H.
  do 4 apply str_app_inj_l in H. exact (pretty_nat_inj _ _ H).
Qed.

Lemma splitLargeSection_loop_ids (paragraphs : list string) :
  forall (chunks : list Chunk) (currentChunk : list string) (chunkIndex : nat),
    exists (new : list Chunk) (currentChunk' : list string),
      splitLargeSection_loop m section paragraphs chunks currentChunk chunkIndex
        = (chunks ++ new, currentChunk', chunkIndex + List.length new) /\
      map chunk_id new = map part_id (seq chunkIndex (List.length new)) /\
      Forall belongs new.
Proof.
  induction paragraphs as [|p ps IH]; intros chunks cur idx.
  - exists [], cur. cbn. rewrite app_nil_r, Nat.add_0_r. repeat split. constructor.
  - cbn [splitLargeSection_loop].
    destruct (MAX_CHUNK_TOKENS <? estimateTokens (join blank (cur ++ [p])))%nat.
    + destruct (IH (chunks ++ [mkChunk m section
                        (id m +:+ "-" +:+ sec_id section +:+ "-" +:+ num idx)
                        (join blank cur)])
                   (continuedHeader m section ++ [p]) (S idx))
        as (new & cur' & Hloop & Hids & Hb).
      exists (mkChunk m section (part_id idx) (join blank cur) :: new), cur'.
      split; [| split].
      * rewrite Hloop, <- app_assoc. cbn [app List.length].
        replace (idx + S (List.length new)) with (S idx + List.length new) by lia.
        reflexivity.
      * cbn [map List.length seq chunk_id mkChunk]. now rewrite Hids.
      * constructor; [repeat split | exact Hb].
    + apply IH.
Qed.

(** X11.  The parts of a split section are numbered from 0 in their
    order, the number being the last component of the chunk id; the chunks
    of one section have pairwise different ids, and each names the guide
    and the section it comes from and the token estimate of its own
    text. *)
Theorem createChunks_section_ids :
  map chunk_id (splitLargeSection m section) =
    map part_id (seq 0 (List.length (splitLargeSection m section))) /\
  List.NoDup (map chunk_id (createChunks_section m section)) /\
  Forall belongs (createChunks_section m section).
Proof.
  assert (H : map chunk_id (splitLargeSection m section) =
                map part_id (seq 0 (List.length (splitLargeSection m section))) /\
              Forall belongs (splitLargeSection m section)).
  { unfold splitLargeSection.
    destruct (splitLargeSection_loop_ids (split_paragraphs (content section)) []
                (firstHeader m section) 0) as (new & cur' & Hloop & Hids & Hb).
    rewrite Hloop. cbn [app Nat.add].
    destruct (3 <? List.length cur')%nat; [| now split].
    split.
    - rewrite map_app, length_app, seq_app, map_app, Hids. reflexivity.
    - apply Forall_app. split; [exact Hb |]. constructor; [repeat split | constructor]. }
  destruct H as [Hids Hb]. split; [exact Hids |].
  unfold createChunks_section.
  destruct (String.length (content section) <? 100)%nat; [split; constructor |].
  destruct (MAX_CHUNK_TOKENS <? estimateTokens (chunkText m section))%nat.
  - split; [| exact Hb]. rewrite Hids.
    apply Finite.Injective_map_NoDup; [intros i j; apply part_id_inj | apply List.seq_NoDup].
  - split.
    + cbn. constructor; [intros [] | constructor].
    + constructor; [repeat split | constructor].
Qed.

End ChunkIds.

(** ** Code examples *)

Section CodeExamples.

Import GuideProcessorDocs.

(** The code blocks that start at the lines of a text: one for each line
    that opens a fence with a language, with the lines that follow it up
    to the next fence line or the end of the text. *)
Fixpoint fence_blocks (lines : list string) : list CodeBlock :=
  match lines with
  | [] => []
  | line :: rest =>
      match extractCodeBlock line rest with
      | Some b => b :: fence_blocks rest
      | None => fence_blocks rest
      end
  end.

Lemma headerMatch_first (line : string) (h : nat * string) :
  headerMatch line = Some h -> startsWith "#" line = true.
Proof.
  destruct h as [n title]. intros H.
  apply headerMatch_sound in H as ((Hn & _) & _ & _ & ws & _ & _ & ->).
  destruct n as [|n]; [lia | reflexivity].
Qed.

Lemma extractCodeBlock_heading (line : string) (rest : list string) (h : nat * string) :
  headerMatch line = Some h -> extractCodeBlock line rest = None.
Proof.
  intros H. apply headerMatch_first in H. unfold extractCodeBlock.
  destruct line as [|c line]; [discriminate |]. cbn [startsWith] in H |- *.
  destruct (Ascii.eqb_spec "#" c) as [<-|]; [reflexivity | discriminate].
Qed.

Lemma extractCodeBlock_fence (line : string) (rest : list string) (cb : list CodeBlock) :
  (if startsWith "```" line
   then match extractCodeBlock line rest with
        | Some b => cb ++ [b]
        | None => cb
        end
   else cb) =
  cb ++ match extractCodeBlock line rest with Some b => [b] | None => [] end.
Proof.
  unfold extractCodeBlock. destruct (startsWith "```" line); [| now rewrite app_nil_r].
  destruct (take_word (string_drop 3 line)); [now rewrite app_nil_r | reflexivity].
Qed.

Lemma saveSection_blocks (sections : list Section) (cur : option PartialSection)
  sc cb (n : nat) :
  extractCodeExamples (saveSection sections cur sc cb n) =
  extractCodeExamples sections ++ match cur with Some _ => cb | None => [] end.
Proof.
  unfold extractCodeExamples. destruct cur as [c|]; cbn [saveSection].
  - rewrite flat_map_app. cbn. now rewrite app_nil_r.
  - now rewrite app_nil_r.
Qed.

Lemma extractSections_loop_blocks (rest : list string) :
  forall i sections cur sc cb,
    extractCodeExamples (extractSections_loop i rest sections cur sc cb) =
    extractCodeExamples sections ++
    match cur with
    | Some _ => cb ++ fence_blocks rest
    | None => fence_blocks (from_first_heading rest)
    end.
Proof.
  induction rest as [|line rest IH]; intros i sections cur sc cb.
  - cbn [extractSections_loop]. rewrite saveSection_blocks.
    destruct cur; cbn; now rewrite ?app_nil_r.
  - cbn [extractSections_loop from_first_heading fence_blocks].
    destruct (headerMatch line) as [[lvl ttl]|] eqn:Hm.
    + rewrite IH, saveSection_blocks, ?(extractCodeBlock_heading _ _ _ Hm).
      rewrite <- app_assoc. destruct cur; cbn [fence_blocks app];
        rewrite ?(extractCodeBlock_heading _ _ _ Hm); reflexivity.
    + rewrite IH, extractCodeBlock_fence. destruct cur as [c|]; [| reflexivity].
      rewrite <- app_assoc. destruct (extractCodeBlock line rest); reflexivity.
Qed.

Lemma take_word_word (s : string) : forallb_char is_word (take_word s) = true.
Proof.
  induction s as [|c s IH]; [reflexivity |]. cbn [take_word].
  destruct (is_word c) eqn:Hc; [| reflexivity]. cbn. now rewrite Hc.
Qed.

Lemma take_until_fence_free (lines : list string) :
  Forall (fun l => startsWith "```" l = false) (take_until_fence lines).
Proof.
  induction lines as [|l rest IH]; [constructor |]. cbn [take_until_fence].
  destruct (startsWith "```" l) eqn:E; [constructor | now constructor].
Qed.

(** A block as [extractCodeBlock] makes it from the lines [rest]. *)
Definition well_formed_block (b : CodeBlock) : Prop :=
  language b <> "" /\ forallb_char is_word (language b) = true /\ caption b = None /\
  exists codeLines, code b = join nl codeLines /\
                    Forall (fun l => startsWith "```" l = false) codeLines.

Lemma extractCodeBlock_well_formed (line : string) (rest : list string) (b : CodeBlock) :
  extractCodeBlock line rest = Some b -> well_formed_block b.
Proof.
  unfold extractCodeBlock. destruct (startsWith "```" line); [| discriminate].
  pose proof (take_word_word (string_drop 3 line)) as Hw.
  destruct (take_word (string_drop 3 line)) as [|c w]; [discriminate |].
  intros [= <-]. repeat split; [discriminate | exact Hw |].
  exists (take_until_fence rest). split; [reflexivity | apply take_until_fence_free].
Qed.

Lemma fence_blocks_well_formed (lines : list string) :
  Forall well_formed_block (fence_blocks lines).
Proof.
  induction lines as [|l rest IH]; [constructor |]. cbn [fence_blocks].
  destruct (extractCodeBlock l rest) eqn:E; [| exact IH].
  constructor; [now apply extractCodeBlock_well_formed in E | exact IH].
Qed.

(** X12.  The code examples of a guide are, in the order of the text, the
    blocks that start at the fence lines with a language tag at or after
    the first heading; fences before the first heading and fences without
    a language tag give no example.  Every example has a language made of
    word characters, no caption, and code lines none of which is a fence
    line. *)
Theorem extractCodeExamples_fences (text : string) :
  extractCodeExamples (extractSections text) =
    fence_blocks (from_first_heading (split_lines text)) /\
  Forall well_formed_block (extractCodeExamples (extractSections text)).
Proof.
  assert (H : extractCodeExamples (extractSections text) =
              fence_blocks (from_first_heading (split_lines text))).
  { unfold extractSections. now rewrite extractSections_loop_blocks. }
  split; [exact H |]. rewrite H. apply fence_blocks_well_formed.
Qed.

End CodeExamples.

(** ** From the processor to the worker *)

Section SortedLists.
Context {A : Type} (f : A -> nat).

(** A list in strictly increasing order has one arrangement in order. *)
Lemma sorted_perm_unique (l2 : list A) :
  forall l1, Permutation l1 l2 ->
    StronglySorted (fun x y => f x <= f y) l1 ->
    StronglySorted (fun x y => f x < f y) l2 -> l1 = l2.
Proof.
  induction l2 as [|x l2 IH]; intros l1 Hp H1 H2.
  - now apply Permutation_nil, Permutation_sym.
  - destruct l1 as [|y l1]; [now apply Permutation_nil_cons in Hp |].
    apply StronglySorted_inv in H1 as [H1 HF1], H2 as [H2 HF2].
    rewrite List.Forall_forall in HF1, HF2.
    assert (y = x) as ->.
    { assert (Hy : In y (x :: l2)) by (apply (Permutation_in _ Hp); now left).
      assert (Hx : In x (y :: l1))
        by (apply (Permutation_in _ (Permutation_sym Hp)); now left).
      destruct Hy as [Hy | Hy]; [now symmetry |].
      destruct Hx as [Hx | Hx]; [exact Hx |].
      specialize (HF1 _ Hx). specialize (HF2 _ Hy). lia. }
    f_equal. apply IH; [now apply Permutation_cons_inv in Hp | exact H1 | exact H2].
Qed.

Lemma chain_strict (last : A -> nat) (a b : nat) (l : list A) :
  chain f last a l b -> StronglySorted (fun x y => f x < f y) l.
Proof.
  induction 1 as [a | a s l b Ha Hle Hc IH]; constructor; [exact IH |].
  apply chain_bounds in Hc as [_ HF].
  eapply List.Forall_impl; [| exact HF]. cbn. intros t [Ht _]. lia.
Qed.

End SortedLists.

Lemma filter_map_comm {A B} (p : B -> bool) (g : A -> B) (l : list A) :
  List.filter p (map g l) = map g (List.filter (fun x => p (g x)) l).
Proof.
  induction l as [|x l IH]; [reflexivity |]. cbn [map List.filter].
  destruct (p (g x)); cbn [map]; now rewrite IH.
Qed.

Lemma upsert_rows_other (rows : list D1.SectionRow) (m : gmap string D1.SectionRow)
  (k : string) :
  ~ In k (map D1.s_id rows) -> upsert_rows rows m !! k = m !! k.
Proof.
  revert m. induction rows as [|r rows IH]; intros m Hk; [reflexivity |].
  cbn [upsert_rows fold_left]. fold (upsert_rows rows (<[D1.s_id r := r]> m)).
  cbn [map In] in Hk. rewrite IH by tauto.
  apply lookup_insert_ne. tauto.
Qed.

Lemma upsert_rows_present (rows : list D1.SectionRow) (m : gmap string D1.SectionRow)
  (r : D1.SectionRow) :
  List.NoDup (map D1.s_id rows) -> In r rows -> upsert_rows rows m !! D1.s_id r = Some r.
Proof.
  revert m. induction rows as [|r0 rows IH]; intros m Hnd Hr; [destruct Hr |].
  cbn [upsert_rows fold_left]. fold (upsert_rows rows (<[D1.s_id r0 := r0]> m)).
  cbn [map] in Hnd. apply List.NoDup_cons_iff in Hnd as [Hnew Hnd].
  destruct Hr as [-> | Hr].
  - rewrite upsert_rows_other by exact Hnew. apply lookup_insert_eq.
  - now apply IH.
Qed.

Section ServedSections.

Variable gid : string.
Variable rows : list D1.SectionRow.
Variable old : gmap string D1.SectionRow.

Hypothesis rows_keys : List.NoDup (map D1.s_id rows).
Hypothesis rows_guide : forall r, In r rows -> D1.s_guide_id r = gid.
Hypothesis rows_ordered :
  StronglySorted (fun x y => D1.s_start_line x < D1.s_start_line y) rows.
Hypothesis old_rows : forall key row,
  old !! key = Some row -> D1.s_guide_id row = gid -> In key (map D1.s_id rows).

Lemma stored_rows_of_guide :
  Permutation
    (List.filter (fun s => String.eqb (D1.s_guide_id s) gid && true)
       (map snd (map_to_list (upsert_rows rows old))))
    rows.
Proof.
  rewrite filter_map_comm.
  replace rows with (map snd (map (fun r => (D1.s_id r, r)) rows)) at 2
    by (rewrite map_map; apply map_id).
  apply Permutation_map. apply Permutation.NoDup_Permutation.
  - apply List.NoDup_filter, NoDup_ListNoDup, NoDup_map_to_list.
  - apply (List.NoDup_map_inv fst). rewrite map_map. exact rows_keys.
  - intros [k r]. rewrite List.filter_In, <- list_elem_of_In.
    rewrite elem_of_map_to_list, List.in_map_iff. cbn [snd]. split.
    + intros [Hl Hg]. rewrite andb_true_r in Hg. apply String.eqb_eq in Hg.
      destruct (In_dec string_dec k (map D1.s_id rows)) as [Hin | Hout].
      * apply List.in_map_iff in Hin as (r' & <- & Hr').
        rewrite (upsert_rows_present _ _ _ rows_keys Hr') in Hl.
        injection Hl as <-. now exists r'.
      * rewrite (upsert_rows_other _ _ _ Hout) in Hl.
        destruct (Hout (old_rows _ _ Hl Hg)).
    + intros (r' & [= <- <-] & Hr'). split.
      * now apply upsert_rows_present.
      * rewrite (rows_guide _ Hr'), String.eqb_refl. reflexivity.
Qed.

Lemma select_sections_stored (d : D1.Database) :
  D1.sections d = upsert_rows rows old ->
  WorkerRoutes.select_sections d gid None = rows.
Proof.
  intros Hd. unfold WorkerRoutes.select_sections. rewrite Hd.
  apply (sorted_perm_unique D1.s_start_line).
  - rewrite stable_sort_perm. apply stored_rows_of_guide.
  - apply stable_sort_sorted.
    + intros x y z. lia.
    + intros x y H. apply Nat.ltb_lt in H. lia.
    + intros x y H. apply Nat.ltb_ge in H. lia.
  - exact rows_ordered.
Qed.

End ServedSections.

Lemma StronglySorted_map_lt {A B} (g : A -> B) (f : B -> nat) (l : list A) :
  StronglySorted (fun x y => f (g x) < f (g y)) l ->
  StronglySorted (fun x y => f x < f y) (map g l).
Proof.
  induction 1 as [|x l Hs IH HF]; cbn [map]; constructor; [exact IH |].
  apply List.Forall_map. exact HF.
Qed.

Lemma parseMarkdown_ordered (markdown : string) :
  StronglySorted
    (fun x y => GuideProcessor.start_line x < GuideProcessor.start_line y)
    (GuideProcessor.parseMarkdown markdown).
Proof.
  unfold GuideProcessor.parseMarkdown.
  destruct (parseMarkdown_loop_chain (split_lines markdown) 0) as [-> | (a & _ & Hc)].
  - constructor.
  - exact (chain_strict _ _ _ _ _ Hc).
Qed.

Section ProcessorToWorker.

Import GuideProcessor.

Variable YAML_parse : string -> option YamlValue.
Variable JSON_stringify : list string -> string.
Variable JSON_parse : string -> option (list string).
Variable parse_error : string -> string.

(** The row of a guide whose header block parsed to an object. *)
Definition rowOf (now : string) (file : GuideFile) (m : PartialGuideMetadata) : D1.GuideRow :=
  {| D1.g_id := guideIdOf (name file);
     D1.g_title := or_else (title m) (name file);
     D1.g_category := match category m with
                      | Some (ArrayOf l) => join ", " l
                      | Some (OneString s) => or_else (Some s) "uncategorized"
                      | None => "uncategorized"
                      end;
     D1.g_subcategory := or_null (subcategory m);
     D1.g_type := or_else (type m) "guide";
     D1.g_status := or_else (status m) "draft";
     D1.g_version := or_else (version m) "1.0";
     D1.g_last_updated := or_else (last_updated m) now;
     D1.g_tags := JSON_stringify (default [] (tags m));
     D1.g_related_guides := option_map JSON_stringify (related_guides m);
     D1.g_markdown_url := "guides/" +:+ guideIdOf (name file) +:+ ".md" |}.

Lemma processFile_stored (now : string) (file : GuideFile) (b : Bindings)
  (m : PartialGuideMetadata) (md : string) :
  extractFrontmatter YAML_parse (content file) = inr (YamlObject m, md) ->
  Eff.result_of (processFile YAML_parse JSON_stringify now file b) = inr tt /\
  Eff.state_of (processFile YAML_parse JSON_stringify now file b) =
    stored (rowOf now file m) (parseMarkdown md) (uploaded file b).
Proof.
  intros H. rewrite processFile_run, H. cbn [fst snd guideRow]. split; reflexivity.
Qed.

(** X13.  What the deployed processor stores, the worker serves: after a
    file with a header block that parses to an object is processed,
    [get_guide] for its guide id answers with the row of the guide, the
    tags and related guides of the header, the sections of the body in
    the order of the text and the whole file as markdown.  This needs a
    guide id that is not empty, a [JSON.parse] that reads back what
    [JSON.stringify] wrote, and a table that holds no other section rows
    of this guide. *)
Theorem processed_guide_is_served (now : string) (file : GuideFile) (b : Bindings)
  (m : PartialGuideMetadata) (md : string) :
  let run := processFile YAML_parse JSON_stringify now file b in
  extractFrontmatter YAML_parse (content file) = inr (YamlObject m, md) ->
  guideIdOf (name file) <> "" ->
  (forall key row, D1.sections (db b) !! key = Some row ->
     D1.s_guide_id row = guideIdOf (name file) ->
     In key (map sec_id (parseMarkdown md))) ->
  JSON_stringify (default [] (tags m)) <> "" ->
  JSON_parse (JSON_stringify (default [] (tags m))) = Some (default [] (tags m)) ->
  (forall r, related_guides m = Some r ->
     JSON_stringify r <> "" /\ JSON_parse (JSON_stringify r) = Some r) ->
  Eff.result_of run = inr tt /\
  WorkerRoutes.get_guide JSON_parse parse_error
    (db (Eff.state_of run)) (r2 (Eff.state_of run)) (Some (guideIdOf (name file))) None =
  WorkerRoutes.Success
    {| WorkerRoutes.row := rowOf now file m;
       WorkerRoutes.tags := default [] (tags m);
       WorkerRoutes.related_guides := default [] (related_guides m) |}
    (map (sectionRow (rowOf now file m)) (parseMarkdown md))
    (Some (content file)).
Proof.
  cbv zeta. intros Hfm Hgid Hold Htags Htags_parse Hrel.
  destruct (processFile_stored now file b m md Hfm) as [Hres ->].
  split; [exact Hres |].
  rewrite stored_tables.
  cbn [db r2 uploaded set_r2].
  unfold WorkerRoutes.get_guide.
  destruct (guideIdOf (name file)) as [|c gid] eqn:Eg; [congruence |]. rewrite <- Eg.
  cbn [D1.guides].
  replace (D1.g_id (rowOf now file m)) with (guideIdOf (name file)) by reflexivity.
  rewrite lookup_insert_eq. cbn zeta.
  rewrite (select_sections_stored (guideIdOf (name file))
             (map (sectionRow (rowOf now file m)) (parseMarkdown md))
             (D1.sections (db b))).
  - cbn [rowOf D1.g_tags D1.g_related_guides D1.g_markdown_url WorkerRoutes.truthy].
    unfold R2.put. rewrite lookup_insert_eq. cbn [option_map R2.body].
    destruct (JSON_stringify (default [] (tags m))) as [|t ts] eqn:Et; [congruence |].
    rewrite Htags_parse.
    destruct (related_guides m) as [r|]; [| reflexivity].
    cbn [option_map default].
    destruct (Hrel r eq_refl) as [Hne Hparse].
    destruct (JSON_stringify r) as [|u us] eqn:Er; [congruence |].
    rewrite Hparse. reflexivity.
  - rewrite map_map. exact (proj2 (parseMarkdown_numbered md)).
  - intros r Hr. apply List.in_map_iff in Hr as (s & <- & _). reflexivity.
  - apply StronglySorted_map_lt. cbn [sectionRow D1.s_start_line]. apply parseMarkdown_ordered.
  - intros key row Hl Hg. rewrite map_map. rewrite Eg in Hg. exact (Hold key row Hl Hg).
  - reflexivity.
Qed.

End ProcessorToWorker.

Lemma processed_guide_is_served_witness :
  let run := GuideProcessor.processFile PipelineExamples.toy_yaml PipelineExamples.toy_json
               PipelineExamples.now PipelineExamples.good_file PipelineExamples.no_stores in
  Eff.result_of run = inr tt /\
  WorkerRoutes.get_guide PipelineExamples.toy_json_parse (fun s => s)
    (GuideProcessor.db (Eff.state_of run)) (GuideProcessor.r2 (Eff.state_of run))
    (Some "good") None =
  WorkerRoutes.Success
    {| WorkerRoutes.row := rowOf PipelineExamples.toy_json PipelineExamples.now
                             PipelineExamples.good_file GuideProcessor.no_metadata;
       WorkerRoutes.tags := [];
       WorkerRoutes.related_guides := [] |}
    (map (GuideProcessor.sectionRow
            (rowOf PipelineExamples.toy_json PipelineExamples.now
               PipelineExamples.good_file GuideProcessor.no_metadata))
       (GuideProcessor.parseMarkdown ("# Good" +:+ nl +:+ "body")))
    (Some (GuideProcessor.content PipelineExamples.good_file)).
Proof.
  apply (processed_guide_is_served PipelineExamples.toy_yaml PipelineExamples.toy_json
           PipelineExamples.toy_json_parse (fun s => s) PipelineExamples.now
           PipelineExamples.good_file PipelineExamples.no_stores
           GuideProcessor.no_metadata ("# Good" +:+ nl +:+ "body")).
  - reflexivity.
  - discriminate.
  - intros key row H. cbn in H. rewrite lookup_empty in H. discriminate.
  - discriminate.
  - reflexivity.
  - intros r H. discriminate.
Defined.

Section ProcessorWrites.

Import GuideProcessor.

Variable YAML_parse : string -> option YamlValue.
Variable JSON_stringify : list string -> string.

Lemma fts_replace_others (row : D1.FtsRow) (rows : list D1.FtsRow) :
  List.filter (fun r => negb (String.eqb (D1.f_guide_id r) (D1.f_guide_id row)))
    (D1.fts_insert row (D1.fts_delete (D1.f_guide_id row) rows)) =
  List.filter (fun r => negb (String.eqb (D1.f_guide_id r) (D1.f_guide_id row))) rows.
Proof.
  unfold D1.fts_insert, D1.fts_delete.
  rewrite List.filter_app, filter_idempotent. cbn [List.filter].
  rewrite String.eqb_refl. cbn. apply app_nil_r.
Qed.

(** X14.  The deployed processor keys the rows of [sections] by the
    number of the section alone.  After a file with [n] sections is
    processed, the rows [section-1] to [section-n] belong to its guide,
    whichever guide they belonged to before; every other section row,
    the rows of the other guides, their full-text rows in their order,
    the code examples and the other objects of the bucket are as they
    were. *)
Theorem processFile_overwrites (now : string) (file : GuideFile) (b : Bindings)
  (m : PartialGuideMetadata) (md : string) :
  let after := Eff.state_of (processFile YAML_parse JSON_stringify now file b) in
  let gid := guideIdOf (name file) in
  let n := List.length (parseMarkdown md) in
  extractFrontmatter YAML_parse (content file) = inr (YamlObject m, md) ->
  (forall k, 1 <= k <= n ->
     exists row, D1.sections (db after) !! numbered_id k = Some row /\
                 D1.s_guide_id row = gid) /\
  (forall key, (forall k, 1 <= k <= n -> key <> numbered_id k) ->
     D1.sections (db after) !! key = D1.sections (db b) !! key) /\
  (forall g, g <> gid -> D1.guides (db after) !! g = D1.guides (db b) !! g) /\
  List.filter (fun r => negb (String.eqb (D1.f_guide_id r) gid)) (D1.guides_fts (db after)) =
    List.filter (fun r => negb (String.eqb (D1.f_guide_id r) gid)) (D1.guides_fts (db b)) /\
  D1.code_examples (db after) = D1.code_examples (db b) /\
  (forall key, key <> "guides/" +:+ gid +:+ ".md" -> r2 after !! key = r2 b !! key).
Proof.
  cbv zeta. intros Hfm.
  destruct (processFile_stored YAML_parse JSON_stringify now file b m md Hfm) as [_ ->].
  rewrite stored_tables.
  cbn [db r2 uploaded set_r2 D1.sections D1.guides D1.guides_fts D1.code_examples].
  destruct (parseMarkdown_numbered md) as [Hids Hnd].
  assert (Hkeys : map D1.s_id (map (sectionRow (rowOf JSON_stringify now file m))
                                 (parseMarkdown md)) =
                  map numbered_id (seq 1 (List.length (parseMarkdown md)))).
  { rewrite map_map. exact Hids. }
  repeat split.
  - intros k Hk.
    assert (Hin : In (numbered_id k) (map sec_id (parseMarkdown md))).
    { rewrite Hids. apply List.in_map. apply List.in_seq. lia. }
    apply List.in_map_iff in Hin as (s & Hs & Hin).
    exists (sectionRow (rowOf JSON_stringify now file m) s). split; [| reflexivity].
    rewrite <- Hs.
    change (sec_id s) with (D1.s_id (sectionRow (rowOf JSON_stringify now file m) s)).
    apply upsert_rows_present; [rewrite map_map; exact Hnd | now apply List.in_map].
  - intros key Hkey. apply upsert_rows_other. rewrite Hkeys.
    intros Hin. apply List.in_map_iff in Hin as (k & Hk & Hin).
    apply List.in_seq in Hin. apply (Hkey k); [lia | now symmetry].
  - intros g Hg. apply lookup_insert_ne. cbn. congruence.
  - change (D1.g_id (rowOf JSON_stringify now file m))
      with (D1.f_guide_id (ftsRow (rowOf JSON_stringify now file m) (parseMarkdown md))).
    change (guideIdOf (name file))
      with (D1.f_guide_id (ftsRow (rowOf JSON_stringify now file m) (parseMarkdown md))).
    apply fts_replace_others.
  - intros key Hkey. unfold R2.put. apply lookup_insert_ne. congruence.
Qed.

(** X15.  A file that fails in the deployed processor leaves the database
    and the vector index as they were.  It fails either while the header
    block is parsed, before anything is written, or on a header block
    that parses to [null], after the object of the guide in the bucket
    has been replaced by the content of the file. *)
Theorem processFile_failure (now : string) (file : GuideFile) (b : Bindings)
  (e : Exception) :
  let run := processFile YAML_parse JSON_stringify now file b in
  Eff.result_of run = inl e ->
  db (Eff.state_of run) = db b /\ vectorize (Eff.state_of run) = vectorize b /\
  ((e = YamlParseError /\ Eff.state_of run = b) \/
   (e = TypeError /\ Eff.state_of run = uploaded file b /\
    exists md, extractFrontmatter YAML_parse (content file) = inr (YamlNull, md))).
Proof.
  cbv zeta. rewrite processFile_run.
  destruct (extractFrontmatter YAML_parse (content file)) as [e' | [metadata md]] eqn:Hfm.
  - cbn. intros [= <-]. repeat split. left. split; [| reflexivity].
    unfold extractFrontmatter in Hfm.
    destruct (frontmatterRegex (content file)) as [[f body]|]; [| discriminate].
    destruct (YAML_parse f); [discriminate | now injection Hfm as <-].
  - cbn [fst snd]. destruct metadata as [|m]; cbn; [| discriminate].
    intros [= <-]. repeat split. right. repeat split. now exists md.
Qed.

End ProcessorWrites.

Section ProcessorWritesExamples.

Import GuideProcessor.

Lemma processFile_overwrites_witness :
  let after := Eff.state_of
                 (processFile PipelineExamples.toy_yaml PipelineExamples.toy_json
                    PipelineExamples.now PipelineExamples.good_file
                    {| r2 := PipelineExamples.one_body; db := PipelineExamples.one_guide;
                       vectorize := None |}) in
  (exists row, D1.sections (db after) !! "section-1" = Some row /\
               D1.s_guide_id row = "good") /\
  D1.guides (db after) !! "sec-1" = Some PipelineExamples.security_row.
Proof.
  cbv zeta.
  pose proof (processFile_overwrites PipelineExamples.toy_yaml PipelineExamples.toy_json
                PipelineExamples.now PipelineExamples.good_file
                {| r2 := PipelineExamples.one_body; db := PipelineExamples.one_guide;
                   vectorize := None |}
                no_metadata ("# Good" +:+ nl +:+ "body") eq_refl)
    as (Hsec & _ & Hguides & _).
  split.
  - exact (Hsec 1 ltac:(cbn; lia)).
  - rewrite (Hguides "sec-1") by discriminate. reflexivity.
Defined.

Lemma processFile_failure_witness :
  let run := processFile PipelineExamples.toy_yaml PipelineExamples.toy_json
               PipelineExamples.now PipelineExamples.bad_file PipelineExamples.no_stores in
  db (Eff.state_of run) = D1.empty /\ Eff.state_of run = PipelineExamples.no_stores.
Proof.
  cbv zeta.
  destruct (processFile_failure PipelineExamples.toy_yaml PipelineExamples.toy_json
              PipelineExamples.now PipelineExamples.bad_file PipelineExamples.no_stores
              YamlParseError eq_refl) as (Hdb & _ & [[_ Hs] | [He _]]).
  - split; [exact Hdb | exact Hs].
  - discriminate He.
Defined.

End ProcessorWritesExamples.

(** ** The draft uploader: what it adds and when it stops *)

Section UploaderAdds.

Import GuideProcessorDocs.

Variable yaml_parse : string -> option ParsedYaml.
Variable foreign_keys : bool.

(** The stores [c] hold everything the stores [c0] hold in the database
    and in the vector index, unchanged, and the full-text rows of [c0]
    come first. *)
Definition extends (c0 c : UploadConfig) : Prop :=
  D1.guides (db c0) ⊆ D1.guides (db c) /\
  D1.sections (db c0) ⊆ D1.sections (db c) /\
  D1.code_examples (db c0) ⊆ D1.code_examples (db c) /\
  (exists more, D1.guides_fts (db c) = D1.guides_fts (db c0) ++ more) /\
  vectorize c0 ⊆ vectorize c.

Lemma extends_refl (c : UploadConfig) : extends c c.
Proof. repeat split; try reflexivity. exists []. now rewrite app_nil_r. Qed.

Lemma insert_one_subseteq (idx : Vectorize.Index) (iv : string * Vectorize.Vector) :
  idx ⊆ Vectorize.insert_one idx iv.
Proof.
  unfold Vectorize.insert_one. destruct (idx !! iv.1) eqn:E; [reflexivity |].
  now apply insert_subseteq.
Qed.

Lemma vectorize_insert_subseteq (vectors : list (string * Vectorize.Vector))
  (idx : Vectorize.Index) :
  idx ⊆ Vectorize.insert vectors idx.
Proof.
  unfold Vectorize.insert. revert idx.
  induction vectors as [|iv vectors IH]; intros idx; [reflexivity |].
  cbn [fold_left]. etransitivity; [apply insert_one_subseteq | apply IH].
Qed.

Lemma insert_guide_extends (c0 : UploadConfig) (row : D1.GuideRow) :
  preserves (extends c0) (insert_guide row).
Proof.
  intros c H. unfold insert_guide, Eff.bind, Eff.get, Eff.state_of.
  destruct (D1.guides (db c) !! D1.g_id row) eqn:E; [exact H |].
  destruct H as (Hg & Hs & He & Hf & Hv). cbn. repeat split; try assumption.
  etransitivity; [exact Hg | now apply insert_subseteq].
Qed.

Lemma insert_section_extends (c0 : UploadConfig) (row : D1.SectionRow) :
  preserves (extends c0) (insert_section foreign_keys row).
Proof.
  intros c H. unfold insert_section, Eff.bind, Eff.get, Eff.state_of.
  destruct (D1.sections (db c) !! D1.s_id row) eqn:E; [exact H |].
  destruct (foreign_keys && _); [exact H |].
  destruct H as (Hg & Hs & He & Hf & Hv). cbn. repeat split; try assumption.
  etransitivity; [exact Hs | now apply insert_subseteq].
Qed.

Lemma insert_code_example_extends (c0 : UploadConfig) (row : D1.CodeExampleRow) :
  preserves (extends c0) (insert_code_example foreign_keys row).
Proof.
  intros c H. unfold insert_code_example, Eff.bind, Eff.get, Eff.state_of.
  destruct (D1.code_examples (db c) !! D1.e_id row) eqn:E; [exact H |].
  destruct (foreign_keys && _); [exact H |].
  destruct H as (Hg & Hs & He & Hf & Hv). cbn. repeat split; try assumption.
  etransitivity; [exact He | now apply insert_subseteq].
Qed.

Lemma storeInD1_extends (c0 : UploadConfig) (guide : ProcessedGuide) :
  preserves (extends c0) (storeInD1 foreign_keys guide).
Proof.
  unfold storeInD1. apply preserves_bind; [apply insert_guide_extends | intros _].
  apply preserves_bind.
  { apply preserves_for_each. intros x. apply insert_section_extends. }
  intros _. apply preserves_bind.
  { apply preserves_for_each_i. intros i x. apply insert_code_example_extends. }
  intros _. apply preserves_bind; [| intros _; apply preserves_console].
  apply preserves_modify. intros c (Hg & Hs & He & (more & Hf) & Hv).
  cbn. repeat split; try assumption.
  exists (more ++ [ftsRow guide]).
  cbn [set_db db D1.set_guides_fts D1.guides_fts]. unfold D1.fts_insert.
  now rewrite Hf, app_assoc.
Qed.

Lemma upload_extends (c0 : UploadConfig) (guide : ProcessedGuide) :
  preserves (extends c0) (upload foreign_keys guide).
Proof.
  unfold upload. apply preserves_bind; [apply preserves_console | intros _].
  apply preserves_bind.
  { unfold uploadToR2. apply preserves_bind; [| intros _; apply preserves_console].
    apply preserves_modify. now intros c H. }
  intros _. apply preserves_bind; [apply storeInD1_extends | intros _].
  apply preserves_bind; [| intros _; apply preserves_console].
  unfold vectorize_guide. apply preserves_bind; [| intros _; apply preserves_console].
  apply preserves_modify. intros c (Hg & Hs & He & Hf & Hv).
  cbn. repeat split; try assumption.
  etransitivity; [exact Hv | apply vectorize_insert_subseteq].
Qed.

Lemma processFile_caught_extends (c0 : UploadConfig) (file : GuideFile) :
  preserves (extends c0) (processFile_caught yaml_parse foreign_keys file).
Proof.
  intros c H. rewrite processFile_caught_run. cbn [Eff.state_of fst].
  rewrite processFile_docs_state.
  destruct (parse yaml_parse (file_content file)) as [e | guide]; [exact H |].
  now apply upload_extends.
Qed.

(** X16.  The draft uploader only adds to the database and to the vector
    index: after a batch, whatever happened to its documents, every row
    of [guides], [sections] and [code_examples] and every vector that
    was there before is still there, unchanged, and the full-text rows
    that were there come first in their order.  It never replaces or
    deletes a row. *)
Theorem processAndUploadGuides_only_adds (markdownFiles : list GuideFile)
  (c : UploadConfig) :
  extends c
    (Eff.state_of (processAndUploadGuides yaml_parse foreign_keys markdownFiles c)).
Proof.
  assert (H : preserves (extends c)
                (processAndUploadGuides yaml_parse foreign_keys markdownFiles)).
  { unfold processAndUploadGuides.
    apply preserves_bind; [apply preserves_console | intros _].
    apply preserves_bind; [| intros _; apply preserves_console].
    apply preserves_for_each. intros file. apply processFile_caught_extends. }
  apply H, extends_refl.
Qed.

End UploaderAdds.

Section EffResults.
Context {St : Type}.

Lemma bind_result {A B} (m : Eff.M St A) (f : A -> Eff.M St B) (s : St) :
  Eff.result_of (Eff.bind m f s) =
  match Eff.result_of (m s) with
  | inl e => inl e
  | inr a => Eff.result_of (f a (Eff.state_of (m s)))
  end.
Proof.
  unfold Eff.bind, Eff.result_of, Eff.state_of.
  destruct (m s) as [[s1 out1] [e | a]]; cbn; [reflexivity |].
  now destruct (f a s1) as [[s2 out2] r].
Qed.

Lemma bind_state {A B} (m : Eff.M St A) (f : A -> Eff.M St B) (s : St) :
  Eff.state_of (Eff.bind m f s) =
  match Eff.result_of (m s) with
  | inl e => Eff.state_of (m s)
  | inr a => Eff.state_of (f a (Eff.state_of (m s)))
  end.
Proof.
  unfold Eff.bind, Eff.result_of, Eff.state_of.
  destruct (m s) as [[s1 out1] [e | a]]; cbn; [reflexivity |].
  now destruct (f a s1) as [[s2 out2] r].
Qed.

Lemma for_each_map {A B} (g : A -> B) (body : B -> Eff.M St unit) (xs : list A) (s : St) :
  Eff.for_each xs (fun x => body (g x)) s = Eff.for_each (map g xs) body s.
Proof.
  revert s. induction xs as [|x xs IH]; intros s; [reflexivity |].
  cbn [map Eff.for_each]. unfold Eff.bind.
  destruct (body (g x) s) as [[s1 out1] [e | a]]; [reflexivity |]. now rewrite IH.
Qed.

End EffResults.

Section UploaderStops.

Import GuideProcessorDocs.

Variable yaml_parse : string -> option ParsedYaml.
Variable foreign_keys : bool.

Lemma processFile_docs_result (file : GuideFile) (c : UploadConfig) :
  Eff.result_of (processFile yaml_parse foreign_keys file c) =
  match parse yaml_parse (file_content file) with
  | inl e => inl e
  | inr guide => Eff.result_of (upload foreign_keys guide c)
  end.
Proof.
  unfold processFile.
  rewrite (bind_returns _ _ c c [Log ("Processing: " +:+ name file)] tt) by reflexivity.
  destruct (parse yaml_parse (file_content file)) as [e | guide]; [reflexivity |].
  rewrite (bind_returns _ _ c c [] guide) by reflexivity.
  unfold Eff.bind, Eff.result_of.
  destruct (upload foreign_keys guide c) as [[s1 out1] [e | []]]; reflexivity.
Qed.

(** X17.  The draft uploader cannot store a second version of a guide.
    When a row with the id of the guide is already in [guides], the
    document fails with the constraint error of that table; the database
    and the vector index stay as they were, but the object of the guide
    in the bucket has already been replaced by the new text. *)
Theorem processFile_existing_guide (file : GuideFile) (c : UploadConfig)
  (guide : ProcessedGuide) (row : D1.GuideRow) :
  let run := processFile yaml_parse foreign_keys file c in
  parse yaml_parse (file_content file) = inr guide ->
  D1.guides (db c) !! id (pg_metadata guide) = Some row ->
  Eff.result_of run = inl (ConstraintError "guides" (id (pg_metadata guide))) /\
  db (Eff.state_of run) = db c /\
  vectorize (Eff.state_of run) = vectorize c /\
  r2 (Eff.state_of run) =
    <["guides/" +:+ id (pg_metadata guide) +:+ ".md" :=
        {| R2.body := file_content file;
           R2.contentType := "text/markdown";
           R2.cacheControl := Some "public, max-age=3600";
           R2.customMetadata := [("guideId", id (pg_metadata guide));
                                 ("version", version (pg_metadata guide));
                                 ("lastUpdated", last_updated (pg_metadata guide))] |}]>
      (r2 c).
Proof.
  cbv zeta. intros Hparse Hrow.
  rewrite processFile_docs_result, processFile_docs_state, Hparse.
  destruct (upload_rejected foreign_keys guide c row Hrow) as [-> ->].
  repeat split.
  assert (Hmd : pg_markdown guide = file_content file).
  { unfold parse in Hparse.
    destruct (extractFrontmatter (file_content file)) as [e | [f body]]; [discriminate |].
    destruct (yaml_parse f); [| discriminate]. now injection Hparse as <-. }
  unfold uploaded_docs, set_r2, R2.put. cbn [r2]. now rewrite Hmd.
Qed.

(** What [insert_section] does, case by case. *)
Lemma insert_section_run (row : D1.SectionRow) (c : UploadConfig) :
  insert_section foreign_keys row c =
  match D1.sections (db c) !! D1.s_id row with
  | Some _ => (c, [], inl (ConstraintError "sections" (D1.s_id row)))
  | None =>
      if foreign_keys &&
         negb (bool_decide (is_Some (D1.guides (db c) !! D1.s_guide_id row)))
      then (c, [], inl (ConstraintError "sections" (D1.s_guide_id row)))
      else (set_db (D1.set_sections (insert (D1.s_id row) row)) c, [], inr tt)
  end.
Proof.
  unfold insert_section, Eff.bind, Eff.get.
  destruct (D1.sections (db c) !! D1.s_id row); [reflexivity |].
  destruct (foreign_keys && _); reflexivity.
Qed.

(** A row of [rows] meets a row that is already in the table, or two
    rows of [rows] have the same key. *)
Definition clash (rows : list D1.SectionRow) (c : UploadConfig) : Prop :=
  (exists r, In r rows /\ is_Some (D1.sections (db c) !! D1.s_id r)) \/
  ~ List.NoDup (map D1.s_id rows).

Lemma insert_sections_clash (rows : list D1.SectionRow) :
  forall c, clash rows c ->
    exists key, Eff.result_of (Eff.for_each rows (insert_section foreign_keys) c)
                = inl (ConstraintError "sections" key).
Proof.
  induction rows as [|r rows IH]; intros c Hc.
  - destruct Hc as [(r & [] & _) | Hnd]. destruct Hnd. constructor.
  - cbn [Eff.for_each]. rewrite bind_result, insert_section_run.
    destruct (D1.sections (db c) !! D1.s_id r) as [old|] eqn:Hold; [cbn; eauto |].
    destruct (foreign_keys && _); [cbn; eauto |].
    cbn [Eff.result_of Eff.state_of fst snd]. apply IH.
    destruct (In_dec string_dec (D1.s_id r) (map D1.s_id rows)) as [Hin | Hout].
    + left. apply List.in_map_iff in Hin as (r' & Hid & Hr').
      exists r'. split; [exact Hr' |]. cbn [set_db db D1.set_sections D1.sections].
      rewrite Hid, lookup_insert_eq. eauto.
    + destruct Hc as [(r' & [<- | Hr'] & Hsome) | Hnd].
      * rewrite Hold in Hsome. now destruct Hsome.
      * left. exists r'. split; [exact Hr' |].
        cbn [set_db db D1.set_sections D1.sections].
        destruct Hsome as [x Hx]. destruct (decide (D1.s_id r = D1.s_id r')) as [E | E].
        -- rewrite E, lookup_insert_eq. eauto.
        -- rewrite lookup_insert_ne by exact E. eauto.
      * right. intros Hnd'. apply Hnd. cbn [map]. now constructor.
Qed.

(** The part of the stores that [insert_section] leaves alone. *)
Definition outside_sections (c0 c : UploadConfig) : Prop :=
  r2 c = r2 c0 /\ D1.guides (db c) = D1.guides (db c0) /\
  D1.guides_fts (db c) = D1.guides_fts (db c0) /\ vectorize c = vectorize c0.

Lemma insert_section_outside (c0 : UploadConfig) (row : D1.SectionRow) :
  preserves (outside_sections c0) (insert_section foreign_keys row).
Proof.
  intros c H. rewrite insert_section_run.
  destruct (D1.sections (db c) !! D1.s_id row); [exact H |].
  destruct (foreign_keys && _); exact H.
Qed.

Lemma storeInD1_duplicate_sections (guide : ProcessedGuide) (c0 : UploadConfig) :
  D1.guides (db c0) !! id (pg_metadata guide) = None ->
  ~ List.NoDup (map sec_id (pg_sections guide)) ->
  exists key,
    Eff.result_of (storeInD1 foreign_keys guide c0) = inl (ConstraintError "sections" key) /\
    outside_sections
      (set_db (D1.set_guides (insert (id (pg_metadata guide))
                                (guideRow (pg_metadata guide)))) c0)
      (Eff.state_of (storeInD1 foreign_keys guide c0)).
Proof.
  intros Hnew Hdup.
  set (m := pg_metadata guide) in *.
  set (c1 := set_db (D1.set_guides (insert (id m) (guideRow m))) c0).
  assert (Hins : insert_guide (guideRow m) c0 = (c1, [], inr tt)).
  { unfold insert_guide, Eff.bind, Eff.get. cbn [guideRow D1.g_id]. now rewrite Hnew. }
  assert (Hclash : clash (map (sectionRow m) (pg_sections guide)) c1).
  { right. intros Hnd. apply Hdup.
    rewrite map_map in Hnd. cbn [sectionRow D1.s_id] in Hnd.
    rewrite <- (map_map sec_id (fun x => id m +:+ "-" +:+ x)) in Hnd.
    exact (List.NoDup_map_inv _ _ Hnd). }
  destruct (insert_sections_clash _ c1 Hclash) as (key & Hkey).
  pose proof (for_each_map (sectionRow m) (insert_section foreign_keys)
                (pg_sections guide) c1) as Hloop.
  cbn beta in Hloop.
  assert (Hout : outside_sections c1
                   (Eff.state_of (Eff.for_each (map (sectionRow m) (pg_sections guide))
                                    (insert_section foreign_keys) c1))).
  { apply preserves_for_each; [intros x; apply insert_section_outside |].
    repeat split. }
  exists key. unfold storeInD1. fold m.
  rewrite bind_result, bind_state, Hins. cbn [Eff.result_of Eff.state_of fst snd].
  rewrite bind_result, bind_state, Hloop, Hkey. split; [reflexivity | exact Hout].
Qed.

(** X18.  The draft uploader derives the key of a section row from the
    title of the section, so a guide with two sections of the same id
    cannot be stored: on a guide that is new, the upload fails with the
    constraint error of [sections] after the row of the guide has been
    written, and the guide gets no full-text row and no vector. *)
Theorem upload_duplicate_sections (guide : ProcessedGuide) (c : UploadConfig) :
  let run := upload foreign_keys guide c in
  D1.guides (db c) !! id (pg_metadata guide) = None ->
  ~ List.NoDup (map sec_id (pg_sections guide)) ->
  exists key,
    Eff.result_of run = inl (ConstraintError "sections" key) /\
    D1.guides (db (Eff.state_of run)) =
      <[id (pg_metadata guide) := guideRow (pg_metadata guide)]> (D1.guides (db c)) /\
    D1.guides_fts (db (Eff.state_of run)) = D1.guides_fts (db c) /\
    vectorize (Eff.state_of run) = vectorize c.
Proof.
  cbv zeta. intros Hnew Hdup.
  destruct (storeInD1_duplicate_sections guide (uploaded_docs guide c) Hnew Hdup)
    as (key & Hres & _ & Hg & Hf & Hv).
  exists key. unfold upload.
  rewrite (bind_returns _ _ c c [Log ("Uploading guide: " +:+ title (pg_metadata guide))] tt)
    by reflexivity.
  rewrite (bind_returns _ _ c (uploaded_docs guide c)
             [Log ("  Uploaded to R2: " +:+ "guides/" +:+ id (pg_metadata guide) +:+ ".md")]
             tt) by reflexivity.
  destruct (storeInD1 foreign_keys guide (uploaded_docs guide c)) as [[s1 out1] r] eqn:E.
  cbn [Eff.result_of Eff.state_of fst snd] in Hres, Hg, Hf, Hv. subst r.
  rewrite (bind_throws _ _ _ _ _ _ E).
  cbn [Eff.result_of Eff.state_of fst snd].
  split; [reflexivity |]. split; [exact Hg |]. split; [exact Hf | exact Hv].
Qed.

End UploaderStops.

Section ConstraintErrors.

Import GuideProcessorDocs.

(** Every exception of [m] is the violation of a constraint. *)
Definition constraint_only {A} (m : Eff.M UploadConfig A) : Prop :=
  forall s e, Eff.result_of (m s) = inl e -> exists table key, e = ConstraintError table key.

Lemma constraint_only_bind {A B} (m : Eff.M UploadConfig A) (f : A -> Eff.M UploadConfig B) :
  constraint_only m -> (forall a, constraint_only (f a)) -> constraint_only (Eff.bind m f).
Proof.
  intros Hm Hf s e. rewrite bind_result.
  destruct (Eff.result_of (m s)) as [e' | a] eqn:E.
  - intros [= <-]. exact (Hm s e' E).
  - apply Hf.
Qed.

Lemma constraint_only_for_each {A} (xs : list A) (body : A -> Eff.M UploadConfig unit) :
  (forall x, constraint_only (body x)) -> constraint_only (Eff.for_each xs body).
Proof.
  intros Hb. induction xs as [|x xs IH]; cbn [Eff.for_each].
  - intros s e. discriminate.
  - apply constraint_only_bind; [apply Hb | intros _; exact IH].
Qed.

Variable foreign_keys : bool.

Lemma insert_guide_constraint (row : D1.GuideRow) : constraint_only (insert_guide row).
Proof.
  intros s e. unfold insert_guide, Eff.bind, Eff.get.
  destruct (D1.guides (db s) !! D1.g_id row); cbn; [| discriminate].
  intros [= <-]. eauto.
Qed.

Lemma insert_section_constraint (row : D1.SectionRow) :
  constraint_only (insert_section foreign_keys row).
Proof.
  intros s e. rewrite insert_section_run.
  destruct (D1.sections (db s) !! D1.s_id row); [cbn; intros [= <-]; eauto |].
  destruct (foreign_keys && _); cbn; [intros [= <-]; eauto | discriminate].
Qed.

End ConstraintErrors.

Section CodeExamplesNeedSections.

Import GuideProcessorDocs.

(** The part of the stores that matters to the rows of code examples
    and that the rows written before them leave alone. *)
Definition no_anonymous_section (c0 c : UploadConfig) : Prop :=
  D1.sections (db c) !! "" = None /\
  D1.guides_fts (db c) = D1.guides_fts (db c0) /\ vectorize c = vectorize c0.

Lemma insert_guide_anonymous (c0 : UploadConfig) (row : D1.GuideRow) :
  preserves (no_anonymous_section c0) (insert_guide row).
Proof.
  intros c H. unfold insert_guide, Eff.bind, Eff.get, Eff.state_of.
  destruct (D1.guides (db c) !! D1.g_id row); exact H.
Qed.

Lemma insert_section_anonymous (c0 : UploadConfig) (row : D1.SectionRow) :
  D1.s_id row <> "" ->
  preserves (no_anonymous_section c0) (insert_section true row).
Proof.
  intros Hid c H. rewrite insert_section_run.
  destruct (D1.sections (db c) !! D1.s_id row); [exact H |].
  destruct (true && _); [exact H |].
  destruct H as (Hs & Hf & Hv). repeat split; try assumption.
  cbn [Eff.state_of fst set_db db D1.set_sections D1.sections].
  now rewrite lookup_insert_ne.
Qed.

Lemma insert_code_examples_rejected (m : GuideMetadata) (examples : list CodeBlock)
  (i : nat) (c : UploadConfig) :
  examples <> [] -> D1.sections (db c) !! "" = None ->
  exists key,
    Eff.for_each_i i examples
      (fun i example => insert_code_example true (codeExampleRow m i example)) c =
    (c, [], inl (ConstraintError "code_examples" key)).
Proof.
  intros Hne Hs. destruct examples as [|e es]; [congruence |].
  cbn [Eff.for_each_i]. unfold Eff.bind at 1.
  unfold insert_code_example, Eff.bind, Eff.get.
  destruct (D1.code_examples (db c) !! D1.e_id (codeExampleRow m i e)); [eauto |].
  cbn [codeExampleRow D1.e_section_id D1.e_guide_id]. rewrite Hs.
  rewrite (bool_decide_eq_false_2 (is_Some None)) by (intros [x Hx]; discriminate).
  rewrite andb_false_r. cbn. eauto.
Qed.

Lemma sectionRow_id (m : GuideMetadata) (section : Section) :
  D1.s_id (sectionRow m section) <> "".
Proof. cbn. destruct (id m); discriminate. Qed.

Lemma storeInD1_code_examples (guide : ProcessedGuide) (c0 : UploadConfig) :
  pg_codeExamples guide <> [] -> D1.sections (db c0) !! "" = None ->
  (exists table key,
     Eff.result_of (storeInD1 true guide c0) = inl (ConstraintError table key)) /\
  no_anonymous_section c0 (Eff.state_of (storeInD1 true guide c0)).
Proof.
  intros Hne Hs. set (m := pg_metadata guide).
  assert (H0 : no_anonymous_section c0 c0) by (repeat split; exact Hs).
  pose proof (insert_guide_anonymous c0 (guideRow m) c0 H0) as H1.
  pose proof (insert_guide_constraint (guideRow m) c0) as E1.
  unfold storeInD1. fold m. rewrite bind_result, bind_state.
  destruct (Eff.result_of (insert_guide (guideRow m) c0)) as [e | []].
  { destruct (E1 e eq_refl) as (t & k & ->). split; [eauto | exact H1]. }
  set (c1 := Eff.state_of (insert_guide (guideRow m) c0)) in *.
  assert (H2 : no_anonymous_section c0
                 (Eff.state_of
                    (Eff.for_each (pg_sections guide)
                       (fun section => insert_section true (sectionRow m section)) c1))).
  { apply preserves_for_each; [| exact H1].
    intros x. apply insert_section_anonymous, sectionRow_id. }
  assert (E2 : constraint_only
                 (Eff.for_each (pg_sections guide)
                    (fun section => insert_section true (sectionRow m section)))).
  { apply constraint_only_for_each. intros x. apply insert_section_constraint. }
  specialize (E2 c1).
  rewrite bind_result, bind_state.
  destruct (Eff.result_of
              (Eff.for_each (pg_sections guide)
                 (fun section => insert_section true (sectionRow m section)) c1))
    as [e | []].
  { destruct (E2 e eq_refl) as (t & k & ->). split; [eauto | exact H2]. }
  set (c2 := Eff.state_of
               (Eff.for_each (pg_sections guide)
                  (fun section => insert_section true (sectionRow m section)) c1)) in *.
  destruct (insert_code_examples_rejected m (pg_codeExamples guide) 0 c2 Hne (proj1 H2))
    as (key & Hkey).
  rewrite bind_result, bind_state, Hkey. split; [eauto | exact H2].
Qed.

(** X19.  The rows of [code_examples] are written with the empty string
    as section id.  With a database that enforces the foreign keys of the
    schema and holds no section with an empty id, a guide that has a code
    example is never stored completely: the upload ends with a constraint
    error, and the guide gets no full-text row and no vector. *)
Theorem upload_code_examples_rejected (guide : ProcessedGuide) (c : UploadConfig) :
  let run := upload true guide c in
  pg_codeExamples guide <> [] -> D1.sections (db c) !! "" = None ->
  (exists table key, Eff.result_of run = inl (ConstraintError table key)) /\
  D1.guides_fts (db (Eff.state_of run)) = D1.guides_fts (db c) /\
  vectorize (Eff.state_of run) = vectorize c.
Proof.
  cbv zeta. intros Hne Hs.
  destruct (storeInD1_code_examples guide (uploaded_docs guide c) Hne Hs)
    as ((table & key & Hres) & _ & Hf & Hv).
  unfold upload.
  rewrite (bind_returns _ _ c c [Log ("Uploading guide: " +:+ title (pg_metadata guide))] tt)
    by reflexivity.
  rewrite (bind_returns _ _ c (uploaded_docs guide c)
             [Log ("  Uploaded to R2: " +:+ "guides/" +:+ id (pg_metadata guide) +:+ ".md")]
             tt) by reflexivity.
  destruct (storeInD1 true guide (uploaded_docs guide c)) as [[s1 out1] r] eqn:E.
  cbn [Eff.result_of Eff.state_of fst snd] in Hres, Hf, Hv. subst r.
  rewrite (bind_throws _ _ _ _ _ _ E).
  cbn [Eff.result_of Eff.state_of fst snd].
  split; [eauto |]. split; [exact Hf | exact Hv].
Qed.

End CodeExamplesNeedSections.

Module UploaderExamples.
Import GuideProcessorDocs.

(** A stand-in for [parse] of the [yaml] package: every header block
    gives the same object. *)
Definition toy_header : ParsedYaml :=
  {| y_id := "g"; y_title := "G"; y_category := OneString "cat";
     y_subcategory := None; y_type := "guide"; y_status := "draft"; y_version := "1";
     y_last_updated := "2025-12-04"; y_languages := None; y_frameworks := None;
     y_platforms := None; y_tags := None; y_related_guides := Some ["a"; "b"] |}.

Definition toy_docs_yaml (s : string) : option ParsedYaml := Some toy_header.

Definition file_of (body : string) : GuideFile :=
  {| name := "g.md"; file_content := "---" +:+ nl +:+ "id: g" +:+ nl +:+ "---" +:+ nl +:+ body |}.

Definition guide_of (body : string) : ProcessedGuide :=
  {| pg_metadata := parseMetadata toy_header;
     pg_sections := extractSections body;
     pg_chunks := createChunks (parseMetadata toy_header) (extractSections body);
     pg_codeExamples := extractCodeExamples (extractSections body);
     pg_markdown := file_content (file_of body) |}.

(** Two sections of the same title. *)
Definition twin_body : string :=
  "# A" +:+ nl +:+ "text" +:+ nl +:+ "# A" +:+ nl +:+ "more".

(** A section with a code example. *)
Definition code_body : string :=
  "# A" +:+ nl +:+ "```js" +:+ nl +:+ "x" +:+ nl +:+ "```".

Definition empty_stores : UploadConfig := {| r2 := ∅; db := D1.empty; vectorize := ∅ |}.

(** Stores that hold the row of the guide [g]. *)
Definition stores_with_g : UploadConfig :=
  {| r2 := ∅;
     db := D1.set_guides (insert "g" (guideRow (parseMetadata toy_header))) D1.empty;
     vectorize := ∅ |}.

End UploaderExamples.

Section UploaderWitnesses.

Import GuideProcessorDocs UploaderExamples.

Lemma processFile_existing_guide_witness :
  let run := processFile toy_docs_yaml false (file_of twin_body) stores_with_g in
  Eff.result_of run = inl (ConstraintError "guides" "g") /\
  db (Eff.state_of run) = db stores_with_g.
Proof.
  cbv zeta.
  destruct (processFile_existing_guide toy_docs_yaml false (file_of twin_body)
              stores_with_g (guide_of twin_body) (guideRow (parseMetadata toy_header))
              eq_refl eq_refl) as (Hres & Hdb & _).
  split; [exact Hres | exact Hdb].
Defined.

Lemma upload_duplicate_sections_witness :
  exists key,
    Eff.result_of (upload false (guide_of twin_body) empty_stores)
      = inl (ConstraintError "sections" key) /\
    D1.guides_fts (db (Eff.state_of (upload false (guide_of twin_body) empty_stores))) = [].
Proof.
  destruct (upload_duplicate_sections false (guide_of twin_body) empty_stores)
    as (key & Hres & _ & Hf & _).
  - reflexivity.
  - vm_compute. intros H. apply List.NoDup_cons_iff in H as [H _]. apply H. now left.
  - exists key. split; [exact Hres | exact Hf].
Defined.

Lemma upload_code_examples_rejected_witness :
  (exists table key,
     Eff.result_of (upload true (guide_of code_body) empty_stores)
       = inl (ConstraintError table key)) /\
  D1.guides_fts (db (Eff.state_of (upload true (guide_of code_body) empty_stores))) = [].
Proof.
  destruct (upload_code_examples_rejected (guide_of code_body) empty_stores)
    as (Hres & Hf & _).
  - vm_compute. discriminate.
  - reflexivity.
  - split; [exact Hres | exact Hf].
Defined.

End UploaderWitnesses.

(** ** Lists stored as comma separated text *)

Section CommaLists.

Definition has_char (c : ascii) (s : string) : bool := existsb_char (Ascii.eqb c) s.

Lemma split_on_whole (sep : ascii) (s : string) :
  has_char sep s = false -> split_on sep s = [s].
Proof.
  unfold has_char. induction s as [|c s IH]; [reflexivity |].
  cbn [existsb_char split_on]. rewrite (Ascii.eqb_sym sep c).
  destruct (Ascii.eqb c sep); [discriminate |]. cbn [orb]. intros H. now rewrite (IH H).
Qed.

Lemma split_on_app (sep : ascii) (a b : string) :
  has_char sep a = false ->
  split_on sep (a +:+ String sep b) = a :: split_on sep b.
Proof.
  unfold has_char. induction a as [|c a IH].
  - intros _. cbn [String.append split_on]. now rewrite Ascii.eqb_refl.
  - cbn [existsb_char String.append split_on]. rewrite (Ascii.eqb_sym sep c).
    destruct (Ascii.eqb c sep); [discriminate |]. cbn [orb]. intros H. now rewrite (IH H).
Qed.

(** Splitting the joined list gives the list back when it is not empty
    and no entry holds the separator. *)
Lemma split_on_join (sep : ascii) (l : list string) :
  l <> [] -> Forall (fun x => has_char sep x = false) l ->
  split_on sep (join (String sep "") l) = l.
Proof.
  induction l as [|x l IH]; [congruence |]. intros _ HF.
  apply List.Forall_cons_iff in HF as [Hx HF].
  destruct l as [|y l].
  - cbn. now apply split_on_whole.
  - rewrite join_cons2. cbn [String.append].
    rewrite split_on_app by exact Hx. f_equal. apply IH; [discriminate | exact HF].
Qed.

Lemma join_empty (sep : ascii) (l : list string) :
  join (String sep "") l = "" -> l = [] \/ l = [""].
Proof.
  destruct l as [|x l]; [now left |]. destruct l as [|y l].
  - cbn. intros ->. now right.
  - rewrite join_cons2. destruct x; discriminate.
Qed.

End CommaLists.

Section UploaderToService.

Import GuideProcessorDocs.

Variable foreign_keys : bool.

(** The part of the stores the steps after [INSERT INTO guides] leave
    alone. *)
Definition keeps_guides (c0 c : UploadConfig) : Prop :=
  r2 c = r2 c0 /\ D1.guides (db c) = D1.guides (db c0).

Lemma insert_section_keeps_guides (c0 : UploadConfig) (row : D1.SectionRow) :
  preserves (keeps_guides c0) (insert_section foreign_keys row).
Proof.
  intros c H. rewrite insert_section_run.
  destruct (D1.sections (db c) !! D1.s_id row); [exact H |].
  destruct (foreign_keys && _); exact H.
Qed.

Lemma insert_code_example_keeps_guides (c0 : UploadConfig) (row : D1.CodeExampleRow) :
  preserves (keeps_guides c0) (insert_code_example foreign_keys row).
Proof.
  intros c H. unfold insert_code_example, Eff.bind, Eff.get, Eff.state_of.
  destruct (D1.code_examples (db c) !! D1.e_id row); [exact H |].
  destruct (foreign_keys && _); exact H.
Qed.

Lemma insert_guide_run (row : D1.GuideRow) (c : UploadConfig) :
  insert_guide row c =
  match D1.guides (db c) !! D1.g_id row with
  | Some _ => (c, [], inl (ConstraintError "guides" (D1.g_id row)))
  | None => (set_db (D1.set_guides (insert (D1.g_id row) row)) c, [], inr tt)
  end.
Proof.
  unfold insert_guide, Eff.bind, Eff.get.
  destruct (D1.guides (db c) !! D1.g_id row); reflexivity.
Qed.

(** After an upload that succeeds, the row of the guide and its object
    are in the stores. *)
Lemma upload_success (guide : ProcessedGuide) (c : UploadConfig) :
  Eff.result_of (upload foreign_keys guide c) = inr tt ->
  D1.guides (db c) !! id (pg_metadata guide) = None /\
  keeps_guides
    (set_db (D1.set_guides (insert (id (pg_metadata guide)) (guideRow (pg_metadata guide))))
       (uploaded_docs guide c))
    (Eff.state_of (upload foreign_keys guide c)).
Proof.
  set (m := pg_metadata guide). set (c1 := uploaded_docs guide c).
  unfold upload.
  rewrite (bind_returns _ _ c c [Log ("Uploading guide: " +:+ title (pg_metadata guide))] tt)
    by reflexivity.
  rewrite (bind_returns _ _ c c1
             [Log ("  Uploaded to R2: " +:+ "guides/" +:+ id (pg_metadata guide) +:+ ".md")]
             tt) by reflexivity.
  cbn [Eff.result_of Eff.state_of fst snd].
  fold (Eff.result_of ((storeInD1 foreign_keys guide;;;
                        vectorize_guide guide;;;
                        Eff.console (Log ("Successfully uploaded " +:+ id (pg_metadata guide))))
                         c1)).
  fold (Eff.state_of ((storeInD1 foreign_keys guide;;;
                       vectorize_guide guide;;;
                       Eff.console (Log ("Successfully uploaded " +:+ id (pg_metadata guide))))
                        c1)).
  rewrite bind_result, bind_state.
  destruct (Eff.result_of (storeInD1 foreign_keys guide c1)) as [e | []] eqn:Hst;
    [discriminate |].
  intros _.
  assert (Hv : preserves
                 (keeps_guides (set_db (D1.set_guides (insert (id m) (guideRow m))) c1))
                 (vectorize_guide guide;;;
                  Eff.console (Log ("Successfully uploaded " +:+ id (pg_metadata guide))))).
  { apply preserves_bind; [| intros _; apply preserves_console].
    unfold vectorize_guide. apply preserves_bind; [| intros _; apply preserves_console].
    apply preserves_modify. now intros s H. }
  assert (Hnone : D1.guides (db c) !! id m = None).
  { unfold storeInD1 in Hst. fold m in Hst.
    rewrite bind_result, insert_guide_run in Hst. cbn [guideRow D1.g_id] in Hst.
    change (db c1) with (db c) in Hst.
    destruct (D1.guides (db c) !! id m); [discriminate | reflexivity]. }
  split; [exact Hnone |].
  apply Hv. unfold storeInD1. fold m.
  rewrite bind_state, insert_guide_run. cbn [guideRow D1.g_id].
  change (db c1) with (db c). rewrite Hnone.
  cbn [Eff.result_of Eff.state_of fst snd].
  apply preserves_bind.
  { apply preserves_for_each. intros x. apply insert_section_keeps_guides. }
  { intros _. apply preserves_bind.
    - apply preserves_for_each_i. intros i x. apply insert_code_example_keeps_guides.
    - intros _. apply preserves_bind; [| intros _; apply preserves_console].
      apply preserves_modify. now intros s H. }
  split; reflexivity.
Qed.

(** X20.  What the draft uploader stores, the draft service finds: after
    an upload that succeeds, [getGuide] returns the guide with its id,
    title, categories joined by commas and the text of the file.  The
    related guides come back as they were in the header when none of them
    holds a comma and the list is not made of one empty string. *)
Theorem uploaded_guide_is_found (guide : ProcessedGuide) (c : UploadConfig) :
  let m := pg_metadata guide in
  let after := Eff.state_of (upload foreign_keys guide c) in
  Eff.result_of (upload foreign_keys guide c) = inr tt ->
  Forall (fun g => has_char "," g = false) (related_guides m) ->
  related_guides m <> [""] ->
  exists sections,
    GuideSearchService.getGuide (db after) (r2 after) (id m) None =
    Some {| GuideSearchService.id := id m;
            GuideSearchService.g_title := title m;
            GuideSearchService.g_category := join "," (category m);
            GuideSearchService.sections := sections;
            GuideSearchService.relatedGuides := related_guides m;
            GuideSearchService.markdown := pg_markdown guide |}.
Proof.
  cbv zeta. intros Hres Hcomma Hone.
  destruct (upload_success guide c Hres) as (_ & Hr2 & Hg).
  unfold GuideSearchService.getGuide. rewrite Hg, Hr2.
  cbn [set_db db D1.set_guides D1.guides r2 uploaded_docs set_r2].
  rewrite lookup_insert_eq. eexists.
  cbn [guideRow D1.g_id D1.g_title D1.g_category D1.g_related_guides D1.g_markdown_url].
  unfold R2.put. rewrite lookup_insert_eq. cbn [R2.body]. f_equal. f_equal.
  unfold or_null. destruct (join "," (related_guides (pg_metadata guide))) as [|a s] eqn:E.
  - apply join_empty in E as [-> | E]; [reflexivity | contradiction].
  - rewrite <- E. apply split_on_join; [| exact Hcomma].
    intros Hnil. rewrite Hnil in E. discriminate.
Qed.

End UploaderToService.

Section UploaderToServiceExamples.

Import GuideProcessorDocs UploaderExamples.

(** A section without code example. *)
Definition plain_body : string := "# A" +:+ nl +:+ "text".

Lemma uploaded_guide_is_found_witness :
  exists sections,
    GuideSearchService.getGuide
      (db (Eff.state_of (upload true (guide_of plain_body) empty_stores)))
      (r2 (Eff.state_of (upload true (guide_of plain_body) empty_stores))) "g" None =
    Some {| GuideSearchService.id := "g";
            GuideSearchService.g_title := "G";
            GuideSearchService.g_category := "cat";
            GuideSearchService.sections := sections;
            GuideSearchService.relatedGuides := ["a"; "b"];
            GuideSearchService.markdown := file_content (file_of plain_body) |}.
Proof.
  apply (uploaded_guide_is_found true (guide_of plain_body) empty_stores).
  - vm_compute. reflexivity.
  - repeat constructor.
  - discriminate.
Defined.

End UploaderToServiceExamples.

(** ** Prepared statements: placeholders and bound values *)

Section StatementFacts.

(** The number of placeholders of a statement. *)
Fixpoint placeholders (sql : string) : nat :=
  match sql with
  | "" => 0
  | String c s => (if Ascii.eqb c "?" then 1 else 0) + placeholders s
  end.

Lemma placeholders_app (a b : string) :
  placeholders (a +:+ b) = placeholders a + placeholders b.
Proof. induction a as [|c a IH]; [reflexivity |]. cbn [String.append placeholders]. lia. Qed.

(** The conditions on tags, [n] of them. *)
Definition tag_conditions (n : nat) : string := join " OR " (repeat "g.tags LIKE ?" n).

Lemma map_const_repeat {A B} (b : B) (l : list A) :
  map (fun _ => b) l = repeat b (List.length l).
Proof. induction l as [|x l IH]; [reflexivity |]. cbn. now rewrite IH. Qed.

Lemma placeholders_tag_conditions (n : nat) : placeholders (tag_conditions n) = n.
Proof.
  unfold tag_conditions. induction n as [|n IH]; [reflexivity |].
  cbn [repeat]. destruct n as [|n]; [reflexivity |].
  cbn [repeat] in *. rewrite join_cons2, !placeholders_app, IH. reflexivity.
Qed.

Lemma placeholders_marks (n : nat) : placeholders (join "," (repeat "?" n)) = n.
Proof.
  induction n as [|n IH]; [reflexivity |].
  cbn [repeat]. destruct n as [|n]; [reflexivity |].
  cbn [repeat] in *. rewrite join_cons2, !placeholders_app, IH. reflexivity.
Qed.

(** The text of a search statement, from what the request has: a
    category, and tag conditions. *)
Definition statement_text (select : string) (has_category : bool) (conditions : option nat)
  : string :=
  select +:+
  (if has_category then " AND g.category LIKE ?" else "") +:+
  match conditions with
  | Some n => " AND (" +:+ tag_conditions n +:+ ")"
  | None => ""
  end +:+
  " ORDER BY rank LIMIT ?".

Lemma placeholders_statement_text (select : string) (has_category : bool)
  (conditions : option nat) :
  placeholders (statement_text select has_category conditions) =
  placeholders select + (if has_category then 1 else 0) + default 0 conditions + 1.
Proof.
  unfold statement_text. rewrite !placeholders_app.
  destruct has_category, conditions as [n|]; cbn [default from_option id];
    rewrite ?placeholders_app, ?placeholders_tag_conditions; cbn; lia.
Qed.

(** The values bound for the category and for the tags. *)
Definition category_params (category : option string) : list Sql.Param :=
  match category with
  | Some "" | None => []
  | Some c => [Sql.PText ("%" +:+ c +:+ "%")]
  end.

Definition tag_params (tags : list string) : list Sql.Param :=
  map (fun tag => Sql.PText ("%" +:+ tag +:+ "%")) tags.

Lemma category_params_length (category : option string) :
  List.length (category_params category) = if WorkerRoutes.truthy category then 1 else 0.
Proof. destruct category as [[|c s]|]; reflexivity. Qed.

Lemma last_bound {A} (x y : A) (l1 l2 : list A) : last (x :: l1 ++ l2 ++ [y]) = Some y.
Proof. rewrite app_assoc, app_comm_cons. apply last_snoc. Qed.

Import GuideSearchService KeywordSearch.

(** The tag conditions [keywordSearch] adds: none for an empty list. *)
Definition keyword_conditions (q : SearchQuery) : option nat :=
  match q_tags q with
  | Some [] | None => None
  | Some tags => Some (List.length tags)
  end.

Lemma keywordSearch_statement_text (q : SearchQuery) (limit : Z) :
  Sql.sql (keywordSearch_statement q limit) =
  statement_text keyword_select (WorkerRoutes.truthy (q_category q)) (keyword_conditions q).
Proof.
  unfold keywordSearch_statement, statement_text, keyword_conditions, tag_conditions.
  destruct (q_category q) as [[|c s]|], (q_tags q) as [[|t ts]|];
    cbn [WorkerRoutes.truthy Sql.sql]; rewrite ?map_const_repeat, ?str_app_assoc;
    reflexivity.
Qed.

Lemma keywordSearch_statement_params (q : SearchQuery) (limit : Z) :
  Sql.params (keywordSearch_statement q limit) =
  Sql.PText (query q) :: category_params (q_category q) ++
  tag_params (default [] (q_tags q)) ++ [Sql.PNumber limit].
Proof.
  unfold keywordSearch_statement, category_params, tag_params.
  destruct (q_category q) as [[|c s]|], (q_tags q) as [[|t ts]|];
    cbn [Sql.params default from_option id map app]; rewrite <- ?app_assoc; reflexivity.
Qed.

(** X21.  The statement [keywordSearch] prepares has exactly as many
    placeholders as values bound to it; the first value is the text of
    the query as the caller gave it and the last is the limit.  The text
    of the statement depends only on whether the query has a category and
    on how many tags it has: the strings of the request travel as bound
    values, never inside the text. *)
Theorem keywordSearch_statement_binds (q : SearchQuery) (limit : Z) :
  let st := keywordSearch_statement q limit in
  placeholders (Sql.sql st) = List.length (Sql.params st) /\
  head (Sql.params st) = Some (Sql.PText (query q)) /\
  last (Sql.params st) = Some (Sql.PNumber limit) /\
  forall q' limit',
    WorkerRoutes.truthy (q_category q') = WorkerRoutes.truthy (q_category q) ->
    List.length (default [] (q_tags q')) = List.length (default [] (q_tags q)) ->
    Sql.sql (keywordSearch_statement q' limit') = Sql.sql st.
Proof.
  cbv zeta. rewrite keywordSearch_statement_params. split; [| split; [| split]].
  - rewrite keywordSearch_statement_text, placeholders_statement_text.
    cbn [List.length]. rewrite !length_app, category_params_length.
    unfold tag_params, keyword_conditions. rewrite length_map.
    destruct (q_tags q) as [[|t ts]|]; cbn; lia.
  - reflexivity.
  - apply last_bound.
  - intros q' limit' Hc Ht. rewrite !keywordSearch_statement_text, Hc. f_equal.
    unfold keyword_conditions.
    destruct (q_tags q') as [[|t' ts']|], (q_tags q) as [[|t ts]|];
      cbn in Ht |- *; try discriminate; try reflexivity.
    now rewrite Ht.
Qed.

Import WorkerTools.

Definition search_conditions (r : SearchRequest) : option nat :=
  option_map (@List.length string) (search_tags r).

Lemma search_statement_text (r : SearchRequest) (st : Sql.Statement) :
  search_developer_guides_statement r = inr st ->
  Sql.sql st =
  statement_text search_select (WorkerRoutes.truthy (category r)) (search_conditions r).
Proof.
  unfold search_developer_guides_statement, statement_text, search_conditions, tag_conditions.
  destruct (query r) as [[|a b]|]; try discriminate.
  destruct (category r) as [[|c s]|], (search_tags r) as [tags|]; intros [= <-];
    cbn [WorkerRoutes.truthy Sql.sql option_map];
    rewrite ?map_const_repeat, ?str_app_assoc; reflexivity.
Qed.

Lemma search_statement_params (r : SearchRequest) (st : Sql.Statement) :
  search_developer_guides_statement r = inr st ->
  Sql.params st =
  Sql.PText (Worker.sanitizeFtsQuery (default "" (query r))) ::
  category_params (category r) ++ tag_params (default [] (search_tags r)) ++
  [Sql.PNumber (default 5%Z (limit r))].
Proof.
  unfold search_developer_guides_statement, category_params, tag_params.
  destruct (query r) as [[|a b]|]; try discriminate.
  destruct (category r) as [[|c s]|], (search_tags r) as [tags|]; intros [= <-];
    cbn [Sql.params default from_option id map app]; rewrite <- ?app_assoc; reflexivity.
Qed.

(** X22.  The search route of the worker answers a request without
    query, or with an empty one, with the error of the 400 response and
    prepares no statement.  Otherwise the statement has as many
    placeholders as bound values; the first value is the sanitized query
    and the last the limit, 5 when the request has none.  The text of the
    statement depends only on the presence of a category and the number of
    tags, and an empty array of tags adds a condition without operand. *)
Theorem search_developer_guides_statement_binds (r : SearchRequest) :
  match search_developer_guides_statement r with
  | inl e => WorkerRoutes.truthy (query r) = false /\ e = "Query parameter is required"
  | inr st =>
      WorkerRoutes.truthy (query r) = true /\
      placeholders (Sql.sql st) = List.length (Sql.params st) /\
      head (Sql.params st) =
        Some (Sql.PText (Worker.sanitizeFtsQuery (default "" (query r)))) /\
      last (Sql.params st) = Some (Sql.PNumber (default 5%Z (limit r))) /\
      Sql.sql st = statement_text search_select (WorkerRoutes.truthy (category r))
                     (option_map (@List.length string) (search_tags r)) /\
      (search_tags r = Some [] -> includes (Sql.sql st) " AND ()" = true)
  end.
Proof.
  destruct (search_developer_guides_statement r) as [e | st] eqn:E.
  - unfold search_developer_guides_statement in E.
    destruct (query r) as [[|a b]|]; try (injection E as <-; now split).
    destruct (category r) as [[|c s]|], (search_tags r) as [tags|]; discriminate.
  - pose proof (search_statement_text r st E) as Htext.
    pose proof (search_statement_params r st E) as Hparams.
    assert (Hq : WorkerRoutes.truthy (query r) = true).
    { unfold search_developer_guides_statement in E.
      destruct (query r) as [[|a b]|]; [discriminate | reflexivity | discriminate]. }
    split; [exact Hq |]. rewrite Hparams. split; [| split; [| split; [| split]]].
    + rewrite Htext, placeholders_statement_text.
      cbn [List.length]. rewrite !length_app, category_params_length.
      unfold tag_params, search_conditions. rewrite length_map.
      destruct (search_tags r) as [tags|]; cbn; lia.
    + reflexivity.
    + apply last_bound.
    + exact Htext.
    + intros Htags. rewrite Htext. unfold search_conditions. rewrite Htags.
      destruct (category r) as [[|c s]|]; vm_compute; reflexivity.
Qed.

End StatementFacts.

(** ** Rows of the keyword search *)

Section KeywordRows.

Import GuideSearchService KeywordSearch.

(** X23.  The draft uploader writes the tags of a guide joined by
    commas and the keyword search splits the column at the commas: a
    result carries the tags of the header when there is at least one and
    none holds a comma, and one empty tag when the header has none.  Its
    score is the absolute value of the rank, so it is never negative, and
    its key is made of the guide and the section of the row. *)
Theorem keywordSearch_result_reads (m : GuideProcessorDocs.GuideMetadata) (row : Row) :
  row_tags row = D1.g_tags (GuideProcessorDocs.guideRow m) ->
  Forall (fun t => has_char "," t = false) (GuideProcessorDocs.tags m) ->
  tags (metadata (keywordSearch_result row)) =
    match GuideProcessorDocs.tags m with
    | [] => [""]
    | l => l
    end /\
  (0 <= relevanceScore (keywordSearch_result row))%Q /\
  keyOf {| result := keywordSearch_result row; source := keyword |} =
    guide_id row +:+ "-" +:+ section_id row.
Proof.
  intros Hrow Hcomma. split; [| split].
  - cbn [keywordSearch_result metadata tags]. rewrite Hrow.
    cbn [GuideProcessorDocs.guideRow D1.g_tags].
    destruct (GuideProcessorDocs.tags m) as [|t l] eqn:E; [reflexivity |].
    apply split_on_join; [discriminate | exact Hcomma].
  - cbn [keywordSearch_result relevanceScore]. apply Qabs_nonneg.
  - reflexivity.
Qed.

Lemma keywordSearch_result_reads_witness :
  let row := {| guide_id := "sec-1"; row_title := "Security"; row_category := "security";
                row_tags := ""; section_id := "sec-1-a"; section_title := "A";
                row_excerpt := "..."; relevance_score := (-3 # 2)%Q |} in
  tags (metadata (keywordSearch_result row)) = [""] /\
  (0 <= relevanceScore (keywordSearch_result row))%Q /\
  keyOf {| result := keywordSearch_result row; source := keyword |} = "sec-1-sec-1-a".
Proof.
  cbv zeta.
  apply (keywordSearch_result_reads ChunkerExamples.guide); [reflexivity | constructor].
Defined.

End KeywordRows.

(** ** The worker: related guides and proposals *)

Section RelatedGuides.

Import WorkerRoutes WorkerTools.

Variable JSON_parse : string -> option (list string).
Variable parse_error : string -> string.

(** The ids a row of [guides] lists as related, when the column parses. *)
Definition related_ids (guide : D1.GuideRow) : option (list string) :=
  match D1.g_related_guides guide with
  | Some "" | None => Some []
  | Some r => JSON_parse r
  end.

Lemma guideView_row (guide : D1.GuideRow) (v : GuideView) :
  guideView JSON_parse parse_error guide = inr v -> row v = guide.
Proof.
  unfold guideView. destruct (JSON_parse _) as [tags|]; [| discriminate].
  destruct (D1.g_related_guides guide) as [[|c r]|]; try (now intros [= <-]).
  destruct (JSON_parse (String c r)); [now intros [= <-] | discriminate].
Qed.

Lemma guideViews_rows (rows : list D1.GuideRow) (views : list GuideView) :
  guideViews JSON_parse parse_error rows = inr views -> map row views = rows.
Proof.
  revert views. induction rows as [|g rows IH]; intros views; cbn [guideViews].
  - now intros [= <-].
  - destruct (guideView JSON_parse parse_error g) as [e | v] eqn:Ev; [discriminate |].
    destruct (guideViews JSON_parse parse_error rows) as [e | vs]; [discriminate |].
    intros [= <-]. cbn [map]. now rewrite (guideView_row _ _ Ev), (IH vs).
Qed.

Lemma select_guides_in_spec (db : D1.Database) (relatedIds : list string) (g : D1.GuideRow) :
  In g (select_guides_in db relatedIds) <->
  In (D1.g_id g) relatedIds /\ exists key, D1.guides db !! key = Some g.
Proof.
  unfold select_guides_in. rewrite List.filter_In, List.existsb_exists, List.in_map_iff.
  split.
  - intros [([key g'] & Hg & Hin) (x & Hx & Heq)]. cbn in Hg. subst g'.
    apply String.eqb_eq in Heq. subst x. split; [exact Hx |].
    exists key. apply elem_of_map_to_list. now apply list_elem_of_In.
  - intros [Hin (key & Hkey)]. split.
    + exists (key, g). split; [reflexivity |].
      apply list_elem_of_In. now apply elem_of_map_to_list.
    + exists (D1.g_id g). split; [exact Hin | apply String.eqb_refl].
Qed.

(** X24.  When [get_related_guides] of the worker succeeds, the guide
    asked for is in the table, its list of related ids parses, and the
    guides of the answer are exactly the rows of the table whose id is in
    that list: an id that is listed but names no guide is passed over
    without an error, and the count is the number of guides returned. *)
Theorem get_related_guides_lists (db : D1.Database) (guideId : option string)
  (count : nat) (guides : list GuideView) :
  get_related_guides JSON_parse parse_error db guideId = ListSuccess count guides ->
  count = List.length guides /\
  exists gid guide relatedIds,
    guideId = Some gid /\ gid <> "" /\ D1.guides db !! gid = Some guide /\
    related_ids guide = Some relatedIds /\
    forall g, In g (map row guides) <->
              In (D1.g_id g) relatedIds /\ exists key, D1.guides db !! key = Some g.
Proof.
  unfold get_related_guides.
  destruct guideId as [[|c gid]|]; try discriminate.
  destruct (D1.guides db !! String c gid) as [guide|] eqn:Hguide; [| discriminate].
  intros H.
  assert (Hids : exists relatedIds,
            related_ids guide = Some relatedIds /\
            match relatedIds with
            | [] => ListSuccess 0 []
            | _ => match guideViews JSON_parse parse_error (select_guides_in db relatedIds) with
                   | inl e => ListServerError e
                   | inr views => ListSuccess (List.length views) views
                   end
            end = ListSuccess count guides).
  { unfold related_ids. destruct (D1.g_related_guides guide) as [[|a r]|].
    - exists []. now split.
    - destruct (JSON_parse (String a r)) as [ids|]; [| discriminate].
      exists ids. now split.
    - exists []. now split. }
  clear H. destruct Hids as (relatedIds & Hrel & H).
  assert (Hrows : count = List.length guides /\
                  map row guides = select_guides_in db relatedIds).
  { destruct relatedIds as [|i ids].
    - injection H as <- <-. split; [reflexivity |].
      unfold select_guides_in. cbn [existsb].
      induction (map snd (map_to_list (D1.guides db))) as [|x l IH]; [reflexivity | exact IH].
    - destruct (guideViews JSON_parse parse_error (select_guides_in db (i :: ids))) as [e | views] eqn:Ev;
        [discriminate |].
      injection H as <- <-. split; [reflexivity | now apply guideViews_rows]. }
  destruct Hrows as [Hcount Hrows]. split; [exact Hcount |].
  exists (String c gid), guide, relatedIds.
  split; [reflexivity |]. split; [discriminate |]. split; [exact Hguide |].
  split; [exact Hrel |].
  intros g. rewrite Hrows. apply select_guides_in_spec.
Qed.

End RelatedGuides.

Section RelatedGuidesExamples.

Import WorkerRoutes WorkerTools.

(** A guide that lists itself and a guide that does not exist. *)
Definition linked_row : D1.GuideRow :=
  {| D1.g_id := "sec-1"; D1.g_title := "Security"; D1.g_category := "security";
     D1.g_subcategory := None; D1.g_type := "guide"; D1.g_status := "finalized";
     D1.g_version := "1.0"; D1.g_last_updated := "2025-12-04"; D1.g_tags := "[]";
     D1.g_related_guides := Some "[sec-1,gone]"; D1.g_markdown_url := "guides/sec-1.md" |}.

Definition linked_guides : D1.Database :=
  D1.set_guides (insert "sec-1" linked_row) D1.empty.

(** A stand-in for [JSON.parse] on the columns of [linked_row]. *)
Definition linked_json (s : string) : option (list string) :=
  if String.eqb s "[sec-1,gone]" then Some ["sec-1"; "gone"] else Some [].

Lemma get_related_guides_lists_witness :
  get_related_guides linked_json (fun s => s) linked_guides (Some "sec-1") =
    ListSuccess 1 [{| row := linked_row; tags := []; related_guides := ["sec-1"; "gone"] |}] /\
  1 = List.length [{| row := linked_row; tags := []; related_guides := ["sec-1"; "gone"] |}].
Proof.
  assert (H : get_related_guides linked_json (fun s => s) linked_guides (Some "sec-1") =
              ListSuccess 1 [{| row := linked_row; tags := [];
                                related_guides := ["sec-1"; "gone"] |}])
    by (vm_compute; reflexivity).
  split; [exact H |].
  exact (proj1 (get_related_guides_lists linked_json (fun s => s) linked_guides
                  (Some "sec-1") 1 _ H)).
Defined.

End RelatedGuidesExamples.

Section Proposals.

Import WorkerRoutes WorkerTools.

Lemma truthy_default (x : option string) :
  truthy x = true -> x = Some (default "" x) /\ default "" x <> "".
Proof. destruct x as [[|c s]|]; try discriminate. intros _. split; [reflexivity | discriminate]. Qed.

(** X25.  [propose_guide_change] of the worker stores a proposal only
    when the five required fields of the request are present and not
    empty and the guide exists; the row it stores is new, has the status
    [pending] and names that guide.  In every other case the response is
    an error and the table of proposals is left as it was; no request
    replaces or removes a proposal. *)
Theorem propose_guide_change_stores (time : nat) (random now constraint_error : string)
  (db : D1.Database) (change_proposals : gmap string ProposalRow) (r : ProposalRequest) :
  let response := (propose_guide_change time random now constraint_error db
                     change_proposals r).1 in
  let after := (propose_guide_change time random now constraint_error db
                  change_proposals r).2 in
  change_proposals ⊆ after /\
  match response with
  | ProposalCreated proposalId _ =>
      change_proposals !! proposalId = None /\
      exists row,
        after = <[proposalId := row]> change_proposals /\
        p_id row = proposalId /\ p_status row = "pending" /\
        guideId r = Some (p_guide_id row) /\
        is_Some (D1.guides db !! p_guide_id row) /\
        p_section row <> "" /\ p_current_text row <> "" /\
        p_proposed_text row <> "" /\ p_rationale row <> ""
  | ProposalBadRequest _ =>
      after = change_proposals /\
      (truthy (guideId r) && truthy (section r) && truthy (currentText r) &&
       truthy (proposedText r) && truthy (rationale r) = false)
  | ProposalNotFound _ =>
      after = change_proposals /\ D1.guides db !! default "" (guideId r) = None
  | ProposalServerError _ => after = change_proposals
  end.
Proof.
  cbv zeta. unfold propose_guide_change.
  destruct (truthy (guideId r) && truthy (section r) && truthy (currentText r) &&
            truthy (proposedText r) && truthy (rationale r)) eqn:Hreq; cbn [negb].
  - apply andb_true_iff in Hreq as [Hreq Hr]. apply andb_true_iff in Hreq as [Hreq Hp].
    apply andb_true_iff in Hreq as [Hreq Hc]. apply andb_true_iff in Hreq as [Hg Hs].
    destruct (D1.guides db !! default "" (guideId r)) as [guide|] eqn:Hguide; cbn [fst snd].
    + destruct (change_proposals !! ("proposal-" +:+ num time +:+ "-" +:+ random)) eqn:Hnew;
        cbn [fst snd].
      * split; reflexivity.
      * split; [now apply insert_subseteq |]. split; [exact Hnew |].
        eexists. split; [reflexivity |].
        cbn [p_id p_status p_guide_id p_section p_current_text p_proposed_text p_rationale].
        split; [reflexivity |]. split; [reflexivity |].
        split; [apply truthy_default, Hg |]. split; [rewrite Hguide; eauto |].
        split; [apply truthy_default, Hs |]. split; [apply truthy_default, Hc |].
        split; [apply truthy_default, Hp | apply truthy_default, Hr].
    + split; [reflexivity |]. now split.
  - cbn [fst snd]. split; [reflexivity |]. now split.
Qed.

End Proposals.

(** ** The merge: how many results *)

Section MergeCount.

Import GuideSearchService.

(** The keys of a list of results. *)
Definition keys_of (l : list Tagged) : gset string := list_to_set (map keyOf l).

Lemma keys_of_cons (r : Tagged) (l : list Tagged) :
  keys_of (r :: l) = {[keyOf r]} ∪ keys_of l.
Proof. reflexivity. Qed.

Lemma first_occurrences_length (l : list Tagged) :
  forall seen : gset string,
    List.length (first_occurrences seen l) = size (keys_of l ∖ seen).
Proof.
  induction l as [|r rest IH]; intros seen; cbn [first_occurrences].
  - unfold keys_of. cbn [map list_to_set].
    replace ((∅ : gset string) ∖ seen) with (∅ : gset string); [now rewrite size_empty |].
    apply set_eq. intros x. rewrite elem_of_difference, elem_of_empty. tauto.
  - rewrite keys_of_cons. destruct (bool_decide (keyOf r ∈ seen)) eqn:Hseen.
    + apply bool_decide_eq_true in Hseen. rewrite IH. f_equal.
      apply set_eq. intros x.
      rewrite !elem_of_difference, elem_of_union, elem_of_singleton.
      split; [tauto |]. intros [[-> | Hx] Hn]; [contradiction | tauto].
    + apply bool_decide_eq_false in Hseen. cbn [List.length]. rewrite IH.
      replace (({[keyOf r]} ∪ keys_of rest) ∖ seen)
        with ({[keyOf r]} ∪ keys_of rest ∖ ({[keyOf r]} ∪ seen)).
      * rewrite (size_union {[keyOf r]} (keys_of rest ∖ ({[keyOf r]} ∪ seen)));
          [now rewrite size_singleton |].
        intros x. rewrite elem_of_singleton, elem_of_difference, elem_of_union,
          elem_of_singleton. tauto.
      * apply set_eq. intros x.
        rewrite !elem_of_difference, !elem_of_union, elem_of_singleton.
        destruct (decide (x = keyOf r)) as [-> | Hne].
        -- split; intros _; [split; [now left | exact Hseen] | now left].
        -- rewrite elem_of_difference, elem_of_union, elem_of_singleton. tauto.
Qed.

Lemma keys_of_perm (l1 l2 : list Tagged) : Permutation l1 l2 -> keys_of l1 = keys_of l2.
Proof.
  intros Hp. unfold keys_of. apply set_eq. intros k.
  rewrite !elem_of_list_to_set, !list_elem_of_In, !List.in_map_iff.
  split; intros (r & Hr & Hin); exists r; (split; [exact Hr |]).
  - exact (Permutation_in _ Hp Hin).
  - exact (Permutation_in _ (Permutation_sym Hp) Hin).
Qed.

(** X26.  The merge returns as many results as the two lookups hold
    different keys, unless the limit is smaller: then it returns exactly
    [limit] results.  A limit that is zero or negative gives no result. *)
Theorem mergeResults_length (keywordResults semanticResults : list SearchResult)
  (limit : Z) :
  List.length (mergeResults keywordResults semanticResults limit) =
  Nat.min (Z.to_nat limit) (size (keys_of (tagged keywordResults semanticResults))).
Proof.
  rewrite mergeResults_spec, length_firstn, first_occurrences_length.
  rewrite (keys_of_perm _ _ (allResults_perm keywordResults semanticResults)).
  f_equal. f_equal. apply set_eq. intros x. rewrite elem_of_difference, elem_of_empty. tauto.
Qed.

End MergeCount.

(** ** The sanitizer and white space *)

Section SanitizerSpaces.

Lemma split_ws_go_nonempty (in_gap : bool) (s : string) : split_ws_go in_gap s <> [].
Proof.
  revert in_gap. induction s as [|c s IH]; intros in_gap; cbn [split_ws_go]; [discriminate |].
  destruct (is_space c); [destruct in_gap; [apply IH | discriminate] |].
  destruct (split_ws_go false s); discriminate.
Qed.

Lemma join_split_ws_go (s : string) :
  forall in_gap, join " " (split_ws_go in_gap s) = replace_ws_go " " in_gap s.
Proof.
  induction s as [|c s IH]; intros in_gap; [reflexivity |].
  cbn [split_ws_go replace_ws_go]. destruct (is_space c).
  - destruct in_gap; [apply IH |].
    rewrite join_cons_nonempty by apply split_ws_go_nonempty.
    cbn [String.append]. now rewrite IH.
  - pose proof (split_ws_go_nonempty false s) as Hne. specialize (IH false).
    destruct (split_ws_go false s) as [|h t]; [congruence |].
    rewrite join_head_cons. now rewrite IH.
Qed.

(** X27.  On a query none of whose terms holds a hyphen, an asterisk, a
    parenthesis or a double quote or spells AND, OR or NOT, the sanitizer
    changes the white space only: every run of white space becomes one
    space, also at the start and at the end of the query, which are not
    trimmed. *)
Theorem sanitizeFtsQuery_plain (query : string) :
  Forall (fun term => Worker.has_fts_special term || Worker.is_fts_keyword term = false)
    (split_ws query) ->
  Worker.sanitizeFtsQuery query = replace_ws " " query.
Proof.
  intros H. unfold Worker.sanitizeFtsQuery, replace_ws.
  rewrite <- join_split_ws_go. fold (split_ws query). f_equal.
  induction (split_ws query) as [|t l IH]; [reflexivity |].
  apply List.Forall_cons_iff in H as [Ht Hl]. cbn [map].
  rewrite (IH Hl). unfold Worker.sanitizeTerm at 1. now rewrite Ht.
Qed.

Lemma sanitizeFtsQuery_plain_witness :
  Worker.sanitizeFtsQuery (" rate   limit" +:+ nl) = " rate limit ".
Proof. apply (sanitizeFtsQuery_plain (" rate   limit" +:+ nl)). repeat constructor. Defined.

End SanitizerSpaces.

(** ** The webhook of the service registry *)

Section RegistryFacts.

Import Registry.

(** The rows of [service_capabilities] and [service_providers] after the
    entry of a service is synced. *)
Definition capabilities_after (service : Service) (rows : list CapabilityRow)
  : list CapabilityRow :=
  match capabilities service with
  | None => rows
  | Some caps =>
      List.filter (fun r => negb (String.eqb (cap_service_id r) (id service))) rows ++
      map (capabilityRow service) caps
  end.

Definition providerRow (service : Service) (provider : string) : ProviderRow :=
  {| prov_service_id := id service; prov_provider_name := provider;
     prov_requires_api_key := true |}.

Definition providers_after (service : Service) (rows : list ProviderRow) : list ProviderRow :=
  match providers service with
  | None => rows
  | Some provs =>
      List.filter (fun r => negb (String.eqb (prov_service_id r) (id service))) rows ++
      map (providerRow service) provs
  end.

(** The row of [services] after the entry of a service is written. *)
Definition serviceRow (now : string) (service : Service) (existing : option ServiceRow)
  : ServiceRow :=
  {| sv_id := match existing with Some e => sv_id e | None => id service end;
     sv_name := name service;
     sv_description := or_null (description service);
     sv_category := category service;
     sv_endpoint := match existing with Some e => sv_endpoint e | None => None end;
     sv_status := Some (or_else (status service) "active");
     sv_de_worker_name := or_null (worker service);
     sv_documentation_url :=
       match existing with Some e => sv_documentation_url e | None => None end;
     sv_created_at := match existing with Some e => sv_created_at e | None => now end;
     sv_updated_at := now |}.

(** The entry satisfies the [CHECK] constraints of [services]. *)
Definition checks (service : Service) : bool :=
  category_ok (category service) && status_ok (or_else (status service) "active").

(** The database after one entry of the manifest that satisfies the
    constraints. *)
Definition synced_one (now : string) (service : Service) (d : Db) : Db :=
  {| services := <[id service := serviceRow now service (services d !! id service)]>
                   (services d);
     service_capabilities := capabilities_after service (service_capabilities d);
     service_providers := providers_after service (service_providers d);
     registry_sync_log := registry_sync_log d |}.

Lemma write_service_run (now : string) (service : Service) (d : Db) :
  write_service now service d =
  if checks service
  then (set_services (insert (id service)
                        (serviceRow now service (services d !! id service))) d,
        [], inr (negb (bool_decide (is_Some (services d !! id service)))))
  else (d, [], inl (ConstraintError "services" (id service))).
Proof.
  unfold write_service, check_service, checks, Eff.bind, Eff.get.
  destruct (services d !! id service) as [existing|] eqn:E;
    destruct (category_ok (category service) && status_ok (or_else (status service) "active"));
    reflexivity.
Qed.

Lemma fold_append_capabilities {A} (f : A -> CapabilityRow) (xs : list A) :
  forall d : Db,
    fold_left (fun s x => set_capabilities (fun rows => rows ++ [f x]) s) xs d =
    set_capabilities (fun rows => rows ++ map f xs) d.
Proof.
  induction xs as [|x xs IH]; intros d; cbn [fold_left map].
  - destruct d. unfold set_capabilities. cbn. now rewrite app_nil_r.
  - rewrite IH. destruct d. unfold set_capabilities. cbn. now rewrite <- app_assoc.
Qed.

Lemma fold_append_providers {A} (f : A -> ProviderRow) (xs : list A) :
  forall d : Db,
    fold_left (fun s x => set_providers (fun rows => rows ++ [f x]) s) xs d =
    set_providers (fun rows => rows ++ map f xs) d.
Proof.
  induction xs as [|x xs IH]; intros d; cbn [fold_left map].
  - destruct d. unfold set_providers. cbn. now rewrite app_nil_r.
  - rewrite IH. destruct d. unfold set_providers. cbn. now rewrite <- app_assoc.
Qed.

Lemma sync_capabilities_run (service : Service) (d : Db) :
  sync_capabilities service d =
  (set_capabilities (capabilities_after service) d, [], inr tt).
Proof.
  unfold sync_capabilities, capabilities_after.
  destruct (capabilities service) as [caps|]; [| now destruct d].
  unfold Eff.bind at 1. cbn [Eff.modify]. rewrite for_each_modify.
  rewrite (fold_append_capabilities (capabilityRow service)). now destruct d.
Qed.

Lemma sync_providers_run (service : Service) (d : Db) :
  sync_providers service d =
  (set_providers (providers_after service) d, [], inr tt).
Proof.
  unfold sync_providers, providers_after.
  destruct (providers service) as [provs|]; [| now destruct d].
  unfold Eff.bind at 1. cbn [Eff.modify]. rewrite for_each_modify.
  fold (providerRow service).
  rewrite (fold_append_providers (providerRow service)). now destruct d.
Qed.

(** One iteration of the loop. *)
Lemma sync_services_step (clock : nat -> string) (i : nat) (service : Service)
  (rest : list Service) (a u : nat) (d : Db) :
  sync_services clock i (service :: rest) a u d =
  if checks service
  then
    if bool_decide (is_Some (services d !! id service))
    then sync_services clock (S i) rest a (S u) (synced_one (clock i) service d)
    else sync_services clock (S i) rest (S a) u (synced_one (clock i) service d)
  else (d, [], inl (ConstraintError "services" (id service))).
Proof.
  cbn [sync_services]. unfold Eff.bind at 1. rewrite write_service_run.
  destruct (checks service); [| reflexivity].
  unfold Eff.bind at 1. rewrite sync_capabilities_run.
  unfold Eff.bind at 1. rewrite sync_providers_run.
  assert (E : set_providers (providers_after service)
                (set_capabilities (capabilities_after service)
                   (set_services
                      (insert (id service)
                         (serviceRow (clock i) service (services d !! id service))) d)) =
              synced_one (clock i) service d) by reflexivity.
  rewrite E.
  destruct (bool_decide (is_Some (services d !! id service))); cbn [negb];
    destruct (sync_services clock (S i) rest _ _ (synced_one (clock i) service d))
      as [[d' out] res]; reflexivity.
Qed.

(** The database after the entries of a manifest that satisfy the
    constraints, and the number of entries that were added. *)
Fixpoint synced (clock : nat -> string) (i : nat) (manifest : list Service) (d : Db) : Db :=
  match manifest with
  | [] => d
  | service :: rest => synced clock (S i) rest (synced_one (clock i) service d)
  end.

Fixpoint added (clock : nat -> string) (i : nat) (manifest : list Service) (d : Db) : nat :=
  match manifest with
  | [] => 0
  | service :: rest =>
      (if bool_decide (is_Some (services d !! id service)) then 0 else 1) +
      added clock (S i) rest (synced_one (clock i) service d)
  end.

Lemma added_le (clock : nat -> string) (manifest : list Service) :
  forall i d, added clock i manifest d <= List.length manifest.
Proof.
  induction manifest as [|s rest IH]; intros i d; cbn [added List.length]; [lia |].
  specialize (IH (S i) (synced_one (clock i) s d)).
  destruct (bool_decide (is_Some (services d !! id s))); lia.
Qed.

Lemma sync_services_total (clock : nat -> string) (manifest : list Service) :
  forall i a u d,
    forallb checks manifest = true ->
    sync_services clock i manifest a u d =
    (synced clock i manifest d, [],
     inr (a + added clock i manifest d,
          u + (List.length manifest - added clock i manifest d))).
Proof.
  induction manifest as [|s rest IH]; intros i a u d Hok.
  - cbn. now rewrite !Nat.add_0_r.
  - cbn [forallb] in Hok. apply andb_true_iff in Hok as [Hs Hrest].
    rewrite sync_services_step, Hs. cbn [synced added List.length].
    pose proof (added_le clock rest (S i) (synced_one (clock i) s d)) as Hle.
    destruct (bool_decide (is_Some (services d !! id s))); rewrite (IH _ _ _ _ Hrest);
      do 3 f_equal; lia.
Qed.

Lemma sync_services_fails (clock : nat -> string) (prefix : list Service)
  (s : Service) (rest : list Service) :
  forall i a u d,
    forallb checks prefix = true -> checks s = false ->
    sync_services clock i (prefix ++ s :: rest) a u d =
    (synced clock i prefix d, [], inl (ConstraintError "services" (id s))).
Proof.
  induction prefix as [|p prefix IH]; intros i a u d Hok Hs.
  - cbn [app synced]. now rewrite sync_services_step, Hs.
  - cbn [forallb] in Hok. apply andb_true_iff in Hok as [Hp Hrest].
    cbn [app synced]. rewrite sync_services_step, Hp.
    destruct (bool_decide (is_Some (services d !! id p))); now apply IH.
Qed.

Lemma first_failure {A} (p : A -> bool) (l : list A) :
  forallb p l = false ->
  exists prefix x rest, l = prefix ++ x :: rest /\ forallb p prefix = true /\ p x = false.
Proof.
  induction l as [|y l IH]; [discriminate |]. cbn [forallb].
  destruct (p y) eqn:Hy; cbn [andb].
  - intros H. destruct (IH H) as (prefix & x & rest & -> & Hp & Hx).
    exists (y :: prefix), x, rest. cbn. now rewrite Hy.
  - intros _. exists [], y, l. now repeat split.
Qed.

Lemma synced_log (clock : nat -> string) (manifest : list Service) :
  forall i d, registry_sync_log (synced clock i manifest d) = registry_sync_log d.
Proof.
  induction manifest as [|s rest IH]; intros i d; [reflexivity |].
  cbn [synced]. now rewrite IH.
Qed.

Lemma synced_dom (clock : nat -> string) (manifest : list Service) :
  forall i d,
    dom (services (synced clock i manifest d)) =
      dom (services d) ∪ list_to_set (map id manifest) /\
    size (dom (services (synced clock i manifest d))) =
      size (dom (services d)) + added clock i manifest d.
Proof.
  induction manifest as [|s rest IH]; intros i d.
  - cbn. split; [| lia]. apply set_eq. intros x.
    rewrite elem_of_union, elem_of_empty. tauto.
  - cbn [synced added map list_to_set].
    destruct (IH (S i) (synced_one (clock i) s d)) as [Hd Hs].
    cbn [synced_one services] in Hd, Hs. rewrite dom_insert_L in Hd, Hs. split.
    + rewrite Hd. apply set_eq. intros x. rewrite !elem_of_union. tauto.
    + rewrite Hs. destruct (bool_decide (is_Some (services d !! id s))) eqn:E.
      * apply bool_decide_eq_true in E. apply elem_of_dom in E.
        replace ({[id s]} ∪ dom (services d)) with (dom (services d)); [lia |].
        apply set_eq. intros x. rewrite elem_of_union, elem_of_singleton.
        split; [tauto | intros [-> | H]; assumption].
      * apply bool_decide_eq_false in E. rewrite <- elem_of_dom in E.
        rewrite (size_union {[id s]} (dom (services d))).
        -- rewrite size_singleton. lia.
        -- intros x. rewrite elem_of_singleton. intros -> H. contradiction.
Qed.

(** The row the webhook adds to the log. *)
Definition logRow (synced_at : string) (r : SyncRequest) (a u : nat) : SyncLogRow :=
  {| log_source := or_else (source r) "api";
     log_commit_sha := or_null (commit r);
     log_synced_at := synced_at;
     log_services_added := a;
     log_services_updated := u |}.

Lemma sync_body_run (clock : nat -> string) (synced_at : string) (r : SyncRequest) (d : Db) :
  sync_body clock synced_at r d =
  match sync_services clock 0 (default [] (manifest r)) 0 0 d with
  | (d', out, inl e) => (d', out, inl e)
  | (d', out, inr counts) =>
      (set_sync_log (fun rows => rows ++ [logRow synced_at r counts.1 counts.2]) d',
       out ++ [], inr counts)
  end.
Proof.
  unfold sync_body, Eff.bind, Eff.modify, Eff.ret.
  destruct (sync_services clock 0 (default [] (manifest r)) 0 0 d) as [[d' out] [e | counts]];
    reflexivity.
Qed.

(** X28.  When the webhook of the registry answers 200, the two counts
    of the answer add up to the number of entries of the manifest, and the
    number added is the number of service ids that are new: the table of
    services holds the ids it held and those of the manifest, and an id
    listed twice counts once as added and once as updated.  The log gets
    one row with the two counts, the source ([api] when the request names
    none) and the commit. *)
Theorem sync_registry_counts (expectedToken : option string) (clock : nat -> string)
  (synced_at answered_at : string) (r : SyncRequest) (d d' : Db)
  (t : string) (a u : nat) :
  sync_registry expectedToken clock synced_at answered_at r d = (Synced t a u, d') ->
  t = answered_at /\
  a + u = List.length (default [] (manifest r)) /\
  registry_sync_log d' = registry_sync_log d ++ [logRow synced_at r a u] /\
  dom (services d') = dom (services d) ∪ list_to_set (map id (default [] (manifest r))) /\
  size (dom (services d')) = size (dom (services d)) + a.
Proof.
  unfold sync_registry. destruct (rejected expectedToken r); [discriminate |].
  rewrite sync_body_run.
  destruct (forallb checks (default [] (manifest r))) eqn:Hok.
  - rewrite (sync_services_total clock _ 0 0 0 d Hok). cbn [fst snd Nat.add].
    intros [= <- <- <- <-].
    pose proof (added_le clock (default [] (manifest r)) 0 d) as Hle.
    destruct (synced_dom clock (default [] (manifest r)) 0 d) as [Hd Hs].
    split; [reflexivity |]. split; [lia |].
    split; [cbn; now rewrite synced_log |]. split; [exact Hd | exact Hs].
  - destruct (first_failure _ _ Hok) as (prefix & s & rest & -> & Hp & Hs).
    rewrite (sync_services_fails clock prefix s rest 0 0 0 d Hp Hs). discriminate.
Qed.


(** The capabilities and the providers of a service. *)
Definition caps_of (k : string) (rows : list CapabilityRow) : list CapabilityRow :=
  List.filter (fun r => String.eqb (cap_service_id r) k) rows.

Definition provs_of (k : string) (rows : list ProviderRow) : list ProviderRow :=
  List.filter (fun r => String.eqb (prov_service_id r) k) rows.

Section FilterById.
Context {A B : Type} (key : A -> string) (mk : B -> A) (owner : string).
Hypothesis mk_key : forall x, key (mk x) = owner.

Lemma filter_replaced (k : string) (rows : list A) (xs : list B) :
  List.filter (fun r => String.eqb (key r) k)
    (List.filter (fun r => negb (String.eqb (key r) owner)) rows ++ map mk xs) =
  if String.eqb owner k then map mk xs
  else List.filter (fun r => String.eqb (key r) k) rows.
Proof.
  rewrite List.filter_app.
  destruct (String.eqb_spec owner k) as [<- | Hne].
  - replace (List.filter _ (List.filter _ rows)) with (@nil A).
    + cbn [app]. induction xs as [|x xs IH]; [reflexivity |].
      cbn [map List.filter]. rewrite mk_key, String.eqb_refl. now rewrite IH.
    + symmetry. induction rows as [|x l IH]; [reflexivity |]. cbn [List.filter].
      destruct (String.eqb (key x) owner) eqn:E; cbn [negb List.filter];
        [exact IH | now rewrite E].
  - replace (List.filter (fun r => String.eqb (key r) k) (map mk xs)) with (@nil A).
    + rewrite app_nil_r. induction rows as [|x l IH]; [reflexivity |]. cbn [List.filter].
      destruct (String.eqb_spec (key x) owner) as [E | E]; cbn [negb List.filter].
      * destruct (String.eqb_spec (key x) k) as [E' | E']; [congruence | exact IH].
      * now rewrite IH.
    + symmetry. induction xs as [|x xs IH]; [reflexivity |].
      cbn [map List.filter]. rewrite mk_key.
      destruct (String.eqb_spec owner k) as [E | E]; [congruence | exact IH].
Qed.

End FilterById.

Lemma capabilityRow_owner (s : Service) (cap : Capability) :
  cap_service_id (capabilityRow s cap) = id s.
Proof. now destruct cap. Qed.

Lemma capabilities_after_of (s : Service) (k : string) (rows : list CapabilityRow) :
  caps_of k (capabilities_after s rows) =
  if String.eqb (id s) k
  then match capabilities s with
       | Some caps => map (capabilityRow s) caps
       | None => caps_of k rows
       end
  else caps_of k rows.
Proof.
  unfold caps_of, capabilities_after. destruct (capabilities s) as [caps|].
  - apply (filter_replaced cap_service_id (capabilityRow s) (id s) (capabilityRow_owner s)).
  - now destruct (String.eqb (id s) k).
Qed.

Lemma providers_after_of (s : Service) (k : string) (rows : list ProviderRow) :
  provs_of k (providers_after s rows) =
  if String.eqb (id s) k
  then match providers s with
       | Some provs => map (providerRow s) provs
       | None => provs_of k rows
       end
  else provs_of k rows.
Proof.
  unfold provs_of, providers_after. destruct (providers s) as [provs|].
  - apply (filter_replaced prov_service_id (providerRow s) (id s)). reflexivity.
  - now destruct (String.eqb (id s) k).
Qed.

(** What the database holds about the service [k]. *)
Definition about (k : string) (d : Db)
  : option ServiceRow * list CapabilityRow * list ProviderRow :=
  (services d !! k, caps_of k (service_capabilities d), provs_of k (service_providers d)).

(** What it holds about the service of an entry once the entry is
    synced at the time [now]. *)
Definition about_entry (now : string) (s : Service) (d : Db)
  : option ServiceRow * list CapabilityRow * list ProviderRow :=
  (Some (serviceRow now s (services d !! id s)),
   match capabilities s with
   | Some caps => map (capabilityRow s) caps
   | None => caps_of (id s) (service_capabilities d)
   end,
   match providers s with
   | Some provs => map (providerRow s) provs
   | None => provs_of (id s) (service_providers d)
   end).

Lemma about_entry_ext (now : string) (s : Service) (d1 d2 : Db) :
  about (id s) d1 = about (id s) d2 -> about_entry now s d1 = about_entry now s d2.
Proof. unfold about, about_entry. intros [= H1 H2 H3]. now rewrite H1, H2, H3. Qed.

Lemma synced_one_about (now : string) (s : Service) (d : Db) (k : string) :
  about k (synced_one now s d) =
  if String.eqb (id s) k then about_entry now s d else about k d.
Proof.
  unfold about, about_entry. cbn [synced_one services service_capabilities service_providers].
  rewrite capabilities_after_of, providers_after_of.
  destruct (String.eqb_spec (id s) k) as [<- | Hne].
  - now rewrite lookup_insert_eq.
  - now rewrite lookup_insert_ne.
Qed.

Lemma synced_other (clock : nat -> string) (manifest : list Service) (k : string) :
  forall i d, ~ In k (map id manifest) -> about k (synced clock i manifest d) = about k d.
Proof.
  induction manifest as [|s rest IH]; intros i d Hk; [reflexivity |].
  cbn [synced map In] in *. rewrite IH by tauto. rewrite synced_one_about.
  destruct (String.eqb_spec (id s) k); [tauto | reflexivity].
Qed.

Lemma synced_entry (clock : nat -> string) (manifest : list Service) :
  forall i d j s,
    List.NoDup (map id manifest) -> nth_error manifest j = Some s ->
    about (id s) (synced clock i manifest d) = about_entry (clock (i + j)) s d.
Proof.
  induction manifest as [|s0 rest IH]; intros i d j s Hnd Hj; [now destruct j |].
  cbn [map] in Hnd. apply List.NoDup_cons_iff in Hnd as [Hnew Hnd].
  cbn [synced]. destruct j as [|j]; cbn [nth_error] in Hj.
  - injection Hj as ->. rewrite synced_other by exact Hnew.
    rewrite synced_one_about, String.eqb_refl. now rewrite Nat.add_0_r.
  - assert (Hne : id s0 <> id s).
    { intros E. apply Hnew. rewrite E. apply List.in_map. eapply nth_error_In, Hj. }
    rewrite (IH (S i) _ j s Hnd Hj).
    replace (S i + j) with (i + S j) by lia.
    apply about_entry_ext. rewrite synced_one_about.
    destruct (String.eqb_spec (id s0) (id s)) as [E | _]; [contradiction | reflexivity].
Qed.

(** X30.  After a sync that succeeds on a manifest that lists no
    service twice, the table holds for every entry the row of its values
    (the five columns the webhook writes, the other columns as they were
    or empty for a new service); its capabilities and providers are
    exactly the listed ones, in their order, when the entry lists them,
    and are untouched otherwise.  What the database holds about services
    that the manifest does not name is unchanged. *)
Theorem sync_registry_rows (expectedToken : option string) (clock : nat -> string)
  (synced_at answered_at : string) (r : SyncRequest) (d d' : Db)
  (t : string) (a u : nat) :
  sync_registry expectedToken clock synced_at answered_at r d = (Synced t a u, d') ->
  List.NoDup (map id (default [] (manifest r))) ->
  (forall j s, nth_error (default [] (manifest r)) j = Some s ->
     about (id s) d' = about_entry (clock j) s d) /\
  (forall k, ~ In k (map id (default [] (manifest r))) -> about k d' = about k d).
Proof.
  unfold sync_registry. destruct (rejected expectedToken r); [discriminate |].
  rewrite sync_body_run.
  destruct (forallb checks (default [] (manifest r))) eqn:Hok.
  - rewrite (sync_services_total clock _ 0 0 0 d Hok). cbn [fst snd Nat.add].
    intros [= <- <- <- <-] Hnd. split.
    + intros j s Hj. exact (synced_entry clock _ 0 d j s Hnd Hj).
    + intros k Hk. exact (synced_other clock _ k 0 d Hk).
  - destruct (first_failure _ _ Hok) as (prefix & s & rest & -> & Hp & Hs).
    rewrite (sync_services_fails clock prefix s rest 0 0 0 d Hp Hs). discriminate.
Qed.

End RegistryFacts.

Module RegistryExamples.
Import Registry.

Definition gateway : Service :=
  {| id := "gateway"; name := "Gateway"; description := None; category := "utility";
     status := None; worker := Some "de-gateway";
     capabilities := Some [CapName "route"; CapObject "auth" (Some "checks tokens")];
     providers := Some ["openai"] |}.

Definition store : Service :=
  {| id := "store"; name := "Store"; description := Some "objects"; category := "storage";
     status := Some "beta"; worker := None; capabilities := None; providers := None |}.

Definition empty_registry : Db :=
  {| services := ∅; service_capabilities := []; service_providers := [];
     registry_sync_log := [] |}.

Definition midnight (i : nat) : string := "2025-12-04 00:00:00".

(** A request that lists one service twice, and one that does not. *)
Definition twice : SyncRequest :=
  {| authorization := Some "Bearer s3cret"; source := None; commit := Some "abc";
     manifest := Some [gateway; store; gateway] |}.

Definition once : SyncRequest :=
  {| authorization := Some "Bearer s3cret"; source := None; commit := Some "abc";
     manifest := Some [gateway; store] |}.




End RegistryExamples.

Section RegistryWitnesses.

Import Registry RegistryExamples.

Lemma sync_registry_counts_witness :
  let d' := (sync_registry (Some "s3cret") midnight "t1" "t2" twice empty_registry).2 in
  2 + 1 = List.length (default [] (manifest twice)) /\
  registry_sync_log d' = registry_sync_log empty_registry ++ [logRow "t1" twice 2 1] /\
  size (dom (services d')) = size (dom (services empty_registry)) + 2.
Proof.
  cbv zeta.
  assert (H : sync_registry (Some "s3cret") midnight "t1" "t2" twice empty_registry =
              (Synced "t2" 2 1,
               (sync_registry (Some "s3cret") midnight "t1" "t2" twice empty_registry).2))
    by (vm_compute; reflexivity).
  destruct (sync_registry_counts _ _ _ _ _ _ _ _ _ _ H) as (_ & Hsum & Hlog & _ & Hsize).
  split; [exact Hsum |]. split; [exact Hlog | exact Hsize].
Defined.

Lemma sync_registry_rows_witness :
  let d' := (sync_registry (Some "s3cret") midnight "t1" "t2" once empty_registry).2 in
  about "gateway" d' = about_entry (midnight 0) gateway empty_registry /\
  about "other" d' = about "other" empty_registry.
Proof.
  cbv zeta.
  assert (H : sync_registry (Some "s3cret") midnight "t1" "t2" once empty_registry =
              (Synced "t2" 2 0,
               (sync_registry (Some "s3cret") midnight "t1" "t2" once empty_registry).2))
    by (vm_compute; reflexivity).
  assert (Hnd : List.NoDup (map id (default [] (manifest once)))).
  { cbn. repeat constructor; cbn; intuition discriminate. }
  destruct (sync_registry_rows _ _ _ _ _ _ _ _ _ _ H Hnd) as (Hentry & Hother).
  split.
  - exact (Hentry 0 gateway eq_refl).
  - apply Hother. cbn. intuition discriminate.
Defined.


End RegistryWitnesses.
